(** * simple_lock.py: a hard-link based exclusive lock

    A shallow embedding of [SimpleLock] (src/simple_lock.py) and the
    properties of its acquire / release / ownership protocol.

    The Python methods are written once, as programs over the system calls
    they make ([prog]).  Two semantics are given to these programs:
    - [run]: one process running against a world whose environment (other
      processes, the clock) acts between its system calls;
    - [Pool.step]: several processes, one per pid, interleaved at the
      granularity of system calls.

    Time and durations are rationals (Python uses floats).  A [while True]
    loop runs on fuel; [lock_terminates] shows that the loop of an instance
    that sleeps between its attempts never uses it up.

    [_test_lock_writer], the writer of the module's demo, is embedded as
    a caller of the lock.  The demo's reader and its command line are left
    out: they rest on [json.loads], [argparse] and the set-up of [logging].

    The definitions come first, the properties after them. *)

From Stdlib Require Import ZArith QArith Qround Lqa DecimalString DecimalN.
From stdpp Require Import gmap strings list fin_maps.
Close Scope Q_scope.
Set Warnings "-clear-no-such-hyp".

(** * The program *)

(** ** errno values and exceptions *)

Definition ENOENT : Z := 2.
Definition EEXIST : Z := 17.

(** Failures of a system call that do not depend on the presence of the
    file: permissions, I/O errors, a full disk, ...  They are injected
    through [faults] below. None of them is [ENOENT] or [EEXIST]. *)
Inductive fault := EPERM | EIO | EACCES | EXDEV | ENOTDIR | EISDIR | ENOSPC | EROFS | EMLINK.

Definition errno_of_fault (f : fault) : Z :=
  match f with
  | EPERM => 1 | EIO => 5 | EACCES => 13 | EXDEV => 18 | ENOTDIR => 20
  | EISDIR => 21 | ENOSPC => 28 | EROFS => 30 | EMLINK => 31
  end.

(** [class LockError(RuntimeError)], the built-in [OSError] with its
    [errno], and any other exception class (raised by client code only). *)
Inductive exn :=
| OSError (errno : Z)
| LockError (msg : string)
| PyException (cls : string).

#[global] Instance exn_eq_dec : EqDecision exn.
Proof. solve_decision. Defined.

(** ** The file system

    Paths name inodes, inodes hold text; a hard link is a second path to
    the same inode.  Inode numbers are never reused (they are not
    observable by the program). *)

Record FS := mkFS {
  dir : gmap string nat;
  inodes : gmap nat string;
  faults : gmap string fault
}.

(** The file object returned by [open(path, 'w')]. *)
Record handle := mkHandle { h_path : string; h_ino : nat }.

Definition CR : Ascii.ascii := Ascii.ascii_of_nat 13.
Definition LF : Ascii.ascii := Ascii.ascii_of_nat 10.

(** [open(path)] reads in text mode with the default [newline=None]:
    ["\r\n"] and ["\r"] are returned as ["\n"]. *)
Fixpoint universal_newlines (s : string) : string :=
  match s with
  | EmptyString => EmptyString
  | String c s' =>
      if Ascii.eqb c CR then
        match s' with
        | String c' s'' =>
            if Ascii.eqb c' LF then String LF (universal_newlines s'')
            else String LF (universal_newlines s')
        | EmptyString => String LF EmptyString
        end
      else String c (universal_newlines s')
  end.

(** [open(path, 'w')]: create the file, or truncate it. *)
Definition fs_open_w (path : string) (fs : FS) : (Z + handle) * FS :=
  match faults fs !! path with
  | Some f => (inl (errno_of_fault f), fs)
  | None =>
      match dir fs !! path with
      | Some i =>
          (inr (mkHandle path i),
           mkFS (dir fs) (<[i := ""]> (inodes fs)) (faults fs))
      | None =>
          let i := fresh (dom (inodes fs)) in
          (inr (mkHandle path i),
           mkFS (<[path := i]> (dir fs)) (<[i := ""]> (inodes fs)) (faults fs))
      end
  end.

(** [f.write(content)] and the close that flushes it (POSIX: the text is
    written as it is). *)
Definition fs_write_close (h : handle) (content : string) (fs : FS) : (Z + unit) * FS :=
  match faults fs !! h_path h with
  | Some f => (inl (errno_of_fault f), fs)
  | None => (inr tt, mkFS (dir fs) (<[h_ino h := content]> (inodes fs)) (faults fs))
  end.

(** [with open(path) as f: f.read()].  The content of a file is a text:
    bytes that do not decode, for which [f.read()] raises
    [UnicodeDecodeError], are not represented. *)
Definition fs_read_text (path : string) (fs : FS) : Z + string :=
  match faults fs !! path with
  | Some f => inl (errno_of_fault f)
  | None =>
      match dir fs !! path with
      | None => inl ENOENT
      | Some i => inr (universal_newlines (default "" (inodes fs !! i)))
      end
  end.

(** [os.link(src, dst)]: atomic, and fails with [EEXIST] when [dst] is
    there. *)
Definition fs_link (src dst : string) (fs : FS) : (Z + unit) * FS :=
  match faults fs !! dst with
  | Some f => (inl (errno_of_fault f), fs)
  | None =>
      match dir fs !! src with
      | None => (inl ENOENT, fs)
      | Some i =>
          match dir fs !! dst with
          | Some _ => (inl EEXIST, fs)
          | None => (inr tt, mkFS (<[dst := i]> (dir fs)) (inodes fs) (faults fs))
          end
      end
  end.

(** [os.unlink(path)] *)
Definition fs_unlink (path : string) (fs : FS) : (Z + unit) * FS :=
  match faults fs !! path with
  | Some f => (inl (errno_of_fault f), fs)
  | None =>
      match dir fs !! path with
      | None => (inl ENOENT, fs)
      | Some _ => (inr tt, mkFS (delete path (dir fs)) (inodes fs) (faults fs))
      end
  end.

(** ** The world of one process *)

(** What the rest of the system does between two system calls of the
    process: time passes, and other processes change the file system. *)
Inductive fs_op :=
| EnvWrite (path content : string)
| EnvLink (src dst : string)
| EnvUnlink (path : string)
| EnvFault (path : string) (f : option fault).

Record EnvStep := mkEnvStep {
  elapsed_num : N;
  elapsed_den : positive;
  interference : list fs_op
}.

Definition elapsed (e : EnvStep) : Q := Z.of_N (elapsed_num e) # elapsed_den e.

Definition apply_fs_op (o : fs_op) (fs : FS) : FS :=
  match o with
  | EnvWrite path content =>
      match fs_open_w path fs with
      | (inr h, fs') => snd (fs_write_close h content fs')
      | (inl _, fs') => fs'
      end
  | EnvLink src dst => snd (fs_link src dst fs)
  | EnvUnlink path => snd (fs_unlink path fs)
  | EnvFault path (Some f) => mkFS (dir fs) (inodes fs) (<[path := f]> (faults fs))
  | EnvFault path None => mkFS (dir fs) (inodes fs) (delete path (faults fs))
  end.

Inductive level := DEBUG | INFO | ERROR.

(** A logger is named; [null_logger] is the module's ['null'] logger, which
    drops its records. *)
Definition Logger := string.
Definition null_logger : Logger := "null".

Inductive logarg := ArgStr (s : string) | ArgExn (e : exn).

(** A log record keeps the format string and its arguments. *)
Record LogRecord := mkLog {
  log_logger : Logger; log_level : level; log_fmt : string; log_args : list logarg
}.

Record World := mkWorld {
  w_fs : FS;
  w_now : Q;                 (* what time.time() returns *)
  w_rng : list N;            (* the coming 53-bit draws of random.random() *)
  w_env : list EnvStep;      (* the coming steps of the environment *)
  w_pid : N;                 (* os.getpid() *)
  w_log : list LogRecord
}.

Definition set_fs (fs : FS) (w : World) : World :=
  mkWorld fs (w_now w) (w_rng w) (w_env w) (w_pid w) (w_log w).

Definition env_tick (w : World) : World :=
  match w_env w with
  | [] => w
  | e :: rest =>
      mkWorld (foldl (λ fs o, apply_fs_op o fs) (w_fs w) (interference e))
              (w_now w + elapsed e)%Q (w_rng w) rest (w_pid w) (w_log w)
  end.

(** ** System calls and programs *)

Inductive call : Type → Type :=
| Getpid : call N
| Log (r : LogRecord) : call unit
| OpenW (path : string) : call (Z + handle)
| WriteClose (h : handle) (content : string) : call (Z + unit)
| ReadText (path : string) : call (Z + string)
| Link (src dst : string) : call (Z + unit)
| Unlink (path : string) : call (Z + unit)
| Time : call Q
| Random : call Q
| Sleep (d : Q) : call unit.

(** The calls on the file system and the clock, as observed. *)
Inductive event :=
| EvOpenW (path : string) (r : Z + handle)
| EvWriteClose (h : handle) (content : string) (r : Z + unit)
| EvReadText (path : string) (r : Z + string)
| EvLink (src dst : string) (r : Z + unit)
| EvUnlink (path : string) (r : Z + unit)
| EvTime (t : Q)
| EvRandom (r : Q)
| EvSleep (d : Q).

(** [random.random()] is [k / 2^53] for a 53-bit [k]. *)
Definition random_of_draw (k : N) : Q :=
  Z.of_N (k mod 2 ^ 53) # (2 ^ 53).

Definition sys {X} (c : call X) (w : World) : X * World * list event :=
  match c in call X return X * World * list event with
  | Getpid => (w_pid w, w, [])
  | Log r =>
      (tt,
       if decide (log_logger r = null_logger) then w
       else mkWorld (w_fs w) (w_now w) (w_rng w) (w_env w) (w_pid w) (w_log w ++ [r]),
       [])
  | OpenW path =>
      let '(r, fs) := fs_open_w path (w_fs w) in (r, set_fs fs w, [EvOpenW path r])
  | WriteClose h content =>
      let '(r, fs) := fs_write_close h content (w_fs w) in
      (r, set_fs fs w, [EvWriteClose h content r])
  | ReadText path =>
      let r := fs_read_text path (w_fs w) in (r, w, [EvReadText path r])
  | Link src dst =>
      let '(r, fs) := fs_link src dst (w_fs w) in (r, set_fs fs w, [EvLink src dst r])
  | Unlink path =>
      let '(r, fs) := fs_unlink path (w_fs w) in (r, set_fs fs w, [EvUnlink path r])
  | Time => (w_now w, w, [EvTime (w_now w)])
  | Random =>
      let k := hd 0%N (w_rng w) in
      (random_of_draw k,
       mkWorld (w_fs w) (w_now w) (tl (w_rng w)) (w_env w) (w_pid w) (w_log w),
       [EvRandom (random_of_draw k)])
  | Sleep d =>
      (tt,
       mkWorld (w_fs w) (w_now w + d)%Q (w_rng w) (w_env w) (w_pid w) (w_log w),
       [EvSleep d])
  end.

(** A program either returns, raises, makes a system call and goes on with
    its answer, or has used up the fuel of a [while True] loop. *)
Inductive prog (A : Type) : Type :=
| Ret (a : A)
| Raise (e : exn)
| Spin
| Vis {X : Type} (c : call X) (k : X → prog A).
Arguments Ret {A} a.
Arguments Raise {A} e.
Arguments Spin {A}.
Arguments Vis {A X} c k.

Fixpoint bind {A B} (m : prog A) (f : A → prog B) : prog B :=
  match m with
  | Ret a => f a
  | Raise e => Raise e
  | Spin => Spin
  | Vis c k => Vis c (λ x, bind (k x) f)
  end.

#[global] Instance prog_ret : MRet prog := @Ret.
#[global] Instance prog_bind : MBind prog := λ A B f m, bind m f.

(** [try: m  except e: h e] *)
Fixpoint try_except {A} (m : prog A) (h : exn → prog A) : prog A :=
  match m with
  | Ret a => Ret a
  | Raise e => h e
  | Spin => Spin
  | Vis c k => Vis c (λ x, try_except (k x) h)
  end.

Definition trigger {X} (c : call X) : prog X := Vis c Ret.

(** A call that raises [OSError] on failure. *)
Definition os_call {X} (c : call (Z + X)) : prog X :=
  Vis c (λ r, match r with inl e => Raise (OSError e) | inr x => Ret x end).

Inductive outcome (A : Type) : Type :=
| Returned (a : A)
| Raised (e : exn)
| OutOfFuel.
Arguments Returned {A} a.
Arguments Raised {A} e.
Arguments OutOfFuel {A}.

(** One process alone: the environment takes a step before each of its
    calls. *)
Fixpoint run {A} (m : prog A) (w : World) : outcome A * World * list event :=
  match m with
  | Ret a => (Returned a, w, [])
  | Raise e => (Raised e, w, [])
  | Spin => (OutOfFuel, w, [])
  | Vis c k =>
      let '(x, w1, ev) := sys c (env_tick w) in
      let '(o, w2, tr) := run (k x) w1 in
      (o, w2, ev ++ tr)
  end.

(** ** class SimpleLock *)

Record SimpleLock := mkSimpleLock {
  logger : Logger;
  _lockfile_path : string;
  _tmpfile_path : string;
  _timeout : Q;
  _no_sleep : bool
}.

(** [str(os.getpid())] *)
Definition str_of_pid (pid : N) : string :=
  NilEmpty.string_of_uint (N.to_uint pid).

(** ['{}.{}'.format(path, pid)] *)
Definition format_tmpfile (path : string) (pid : N) : string :=
  path +:+ "." +:+ str_of_pid pid.

(** [def __init__(self, path, *, logger=None, no_sleep=False)] *)
Definition __init__ (path : string) (logger : option Logger) (no_sleep : bool)
  : prog SimpleLock :=
  pid ← trigger Getpid;
  mret {| logger := default null_logger logger;
          _lockfile_path := path;
          _tmpfile_path := format_tmpfile path pid;
          _timeout := 60;
          _no_sleep := false |}.

Definition logger_debug (self : SimpleLock) (fmt : string) (args : list logarg) : prog unit :=
  trigger (Log (mkLog (logger self) DEBUG fmt args)).

Definition logger_error (self : SimpleLock) (fmt : string) (args : list logarg) : prog unit :=
  trigger (Log (mkLog (logger self) ERROR fmt args)).

(** The [while True] loop of [lock]; it answers when it breaks. *)
Fixpoint lock_loop (fuel : nat) (self : SimpleLock) (timeout : Q) : prog unit :=
  match fuel with
  | O => Spin
  | S fuel' =>
      broke ← try_except
        (os_call (Link (_tmpfile_path self) (_lockfile_path self));;
         logger_debug self "Obtained lock ({} -> {})"
           [ArgStr (_tmpfile_path self); ArgStr (_lockfile_path self)];;
         mret true)
        (λ e, match e with
              | OSError errno =>
                  if decide (errno ≠ EEXIST) then
                    logger_error self "Unexpected OSError happend during lock ({})"
                      [ArgExn e];;
                    Raise e
                  else mret false
              | _ => Raise e
              end);
      if broke : bool then mret tt
      else
        now ← trigger Time;
        if Qlt_le_dec timeout now then Raise (LockError "Timeout")
        else
          (if negb (_no_sleep self)
           then r ← trigger Random; trigger (Sleep (r + (1 # 100))%Q)
           else mret tt);;
          lock_loop fuel' self timeout
  end.

(** Iterations that a sleeping loop can need: every retry sleeps 0.01 s
    or more. *)
Definition lock_fuel (self : SimpleLock) : nat :=
  Z.to_nat (Qceiling (_timeout self * 100)%Q) + 2.

(** [def lock(self)] *)
Definition lock (self : SimpleLock) : prog unit :=
  logger_debug self "{}.lock()" [ArgStr "SimpleLock"];;
  f ← os_call (OpenW (_tmpfile_path self));
  os_call (WriteClose f (_tmpfile_path self));;
  now ← trigger Time;
  let timeout := (now + _timeout self)%Q in
  lock_loop (lock_fuel self) self timeout.

(** [def _read_lockfile(self)] *)
Definition _read_lockfile (self : SimpleLock) : prog (option string) :=
  try_except
    (content ← os_call (ReadText (_lockfile_path self)); mret (Some content))
    (λ e, match e with
          | OSError errno => if decide (errno ≠ ENOENT) then Raise e else mret None
          | _ => Raise e
          end).

(** [def is_locked(self)] *)
Definition is_locked (self : SimpleLock) : prog bool :=
  content ← _read_lockfile self;
  mret (bool_decide (content = Some (_tmpfile_path self))).

(** [except OSError as e: if not (force and e.errno == errno.ENOENT): raise] *)
Definition unless_forced_ENOENT (force : bool) (e : exn) : prog unit :=
  match e with
  | OSError errno =>
      if negb (force && bool_decide (errno = ENOENT)) then Raise e else mret tt
  | _ => Raise e
  end.

(** [def unlock(self, force=False)] *)
Definition unlock (self : SimpleLock) (force : bool) : prog unit :=
  logger_debug self "{}.unlock()" [ArgStr "SimpleLock"];;
  locked ← is_locked self;
  if negb locked then Raise (LockError "Not locked by myself")
  else
    try_except (os_call (Unlink (_lockfile_path self))) (unless_forced_ENOENT force);;
    try_except (os_call (Unlink (_tmpfile_path self))) (unless_forced_ENOENT force).

(** ** The context manager *)

Inductive pyval := PyNone | PyBool (b : bool) | PyLock (l : SimpleLock).

Definition truthy (v : pyval) : bool :=
  match v with PyNone => false | PyBool b => b | PyLock _ => true end.

(** [def __enter__(self): self.lock()]: no [return], so [None]. *)
Definition __enter__ (self : SimpleLock) : prog pyval :=
  lock self;; mret PyNone.

(** [def __exit__(self, exc_type, exc_val, exc_tb): self.unlock()] *)
Definition __exit__ (self : SimpleLock) (exc : option exn) : prog pyval :=
  unlock self false;; mret PyNone.

(** How the block of a [with] ends when it does not raise. *)
Inductive flow := Normal | Break | Continue | Return (v : pyval).

(** [with mgr as x: body] (PEP 343): [__exit__] runs on every way out of
    the body; an exception of the body is raised again unless [__exit__]
    returns a true value. *)
Definition with_stmt (enter : prog pyval) (exit : option exn → prog pyval)
    (body : pyval → prog flow) : prog flow :=
  x ← enter;
  r ← try_except (fl ← body x; mret (inr fl)) (λ e, mret (inl e));
  match r with
  | inl e => s ← exit (Some e); if truthy s then mret Normal else Raise e
  | inr fl => exit None;; mret fl
  end.

Definition with_SimpleLock (self : SimpleLock) (body : pyval → prog flow) : prog flow :=
  with_stmt (__enter__ self) (__exit__ self) body.

(** ** The writer of the demo

    [_test_lock_writer] writes the values 1 to [n] to the content file, one
    per round, each under the lock. *)

(** [str(i)] for an [int]. *)
Definition str_of_int (i : Z) : string := NilZero.string_of_int (Z.to_int i).

Definition dquote : Ascii.ascii := Ascii.ascii_of_nat 34.

(** [json.dumps({'value': i})] *)
Definition json_dumps_value (i : Z) : string :=
  "{" +:+ String dquote "value" +:+ String dquote ": " +:+ str_of_int i +:+ "}".

Definition logger_info (lg : Logger) (fmt : string) (args : list logarg) : prog unit :=
  trigger (Log (mkLog lg INFO fmt args)).

(** [for x in xs: body] for a body without [break] or [continue]. *)
Fixpoint for_each {A} (xs : list A) (body : A → prog unit) : prog unit :=
  match xs with
  | [] => mret tt
  | x :: xs' => body x;; for_each xs' body
  end.

(** The block of [with SimpleLock(lock_path, logger=logger):] in the writer:
    [with open(content_path, 'w') as f:] sleeps, logs and writes; the file
    is closed, and the text flushed, when the inner block is left. *)
Definition writer_block (content_path : string) (lg : Logger) (i : Z) (_ : pyval)
  : prog flow :=
  f ← os_call (OpenW content_path);
  r ← trigger Random;
  trigger (Sleep r);;
  logger_info lg "Writing {}" [ArgStr (str_of_int i)];;
  os_call (WriteClose f (json_dumps_value i));;
  mret Normal.

(** One round of the [for] loop of the writer. *)
Definition writer_round (content_path lock_path : string) (lg : Logger) (i : Z)
  : prog unit :=
  trigger (Log (mkLog lg DEBUG "Trying acquiring lock" []));;
  self ← __init__ lock_path (Some lg) false;
  with_SimpleLock self (writer_block content_path lg i);;
  r ← trigger Random;
  trigger (Sleep (r + (2 # 10))%Q).

(** [def _test_lock_writer(content_path, lock_path, n, logger)];
    [range(1, n + 1)] is the values 1 to [n], none when [n <= 0]. *)
Definition _test_lock_writer (content_path lock_path : string) (n : Z) (lg : Logger)
  : prog unit :=
  logger_info lg "Start running as a writer (content_path: {}, lock_path: {})"
    [ArgStr content_path; ArgStr lock_path];;
  for_each (seqZ 1 n) (writer_round content_path lock_path lg);;
  logger_info lg "Finished running as a writer" [].

(** * Definitions for the properties *)

(** ** The result of a run *)

Definition outcome_of {A} (r : outcome A * World * list event) : outcome A := r.1.1.
Definition world_of {A} (r : outcome A * World * list event) : World := r.1.2.
Definition trace_of {A} (r : outcome A * World * list event) : list event := r.2.

(** ** The methods, call by call *)

Definition unlock_log (self : SimpleLock) : LogRecord :=
  mkLog (logger self) DEBUG "{}.unlock()" [ArgStr "SimpleLock"].

(** The world in which [unlock] makes its ownership test. *)
Definition unlock_entry (self : SimpleLock) (w : World) : World :=
  (sys (Log (unlock_log self)) (env_tick w)).1.2.

(** One [os.unlink] of [unlock], with its [except] clause. *)
Definition run_unlink (force : bool) (path : string) (w : World)
  : outcome unit * World * list event :=
  let '(r, fs) := fs_unlink path (w_fs (env_tick w)) in
  (match r with
   | inr _ => Returned tt
   | inl e => if negb (force && bool_decide (e = ENOENT)) then Raised (OSError e)
              else Returned tt
   end, set_fs fs (env_tick w), [EvUnlink path r]).

Definition obtained_log (self : SimpleLock) : LogRecord :=
  mkLog (logger self) DEBUG "Obtained lock ({} -> {})"
    [ArgStr (_tmpfile_path self); ArgStr (_lockfile_path self)].

Definition unexpected_log (self : SimpleLock) (e : exn) : LogRecord :=
  mkLog (logger self) ERROR "Unexpected OSError happend during lock ({})" [ArgExn e].

Definition log_to (r : LogRecord) (w : World) : World :=
  (sys (Log r) (env_tick w)).1.2.

(** The sleep before a retry, when the instance sleeps. *)
Definition retry_sleep (self : SimpleLock) (w : World) : World * list event :=
  if negb (_no_sleep self) then
    let '(r, w1, ev1) := sys Random (env_tick w) in
    let '(_, w2, ev2) := sys (Sleep (r + (1 # 100))%Q) (env_tick w1) in
    (w2, ev1 ++ ev2)
  else (w, []).

(** One iteration: it ends the loop ([inl]) or goes round again ([inr]). *)
Definition loop_iter (self : SimpleLock) (timeout : Q) (w : World)
  : (outcome unit * World * list event) + (World * list event) :=
  let '(r, w1, ev) := sys (Link (_tmpfile_path self) (_lockfile_path self)) (env_tick w) in
  match r with
  | inr _ => inl (Returned tt, log_to (obtained_log self) w1, ev)
  | inl e =>
      if decide (e ≠ EEXIST)
      then inl (Raised (OSError e), log_to (unexpected_log self (OSError e)) w1, ev)
      else
        let w2 := env_tick w1 in
        if Qlt_le_dec timeout (w_now w2)
        then inl (Raised (LockError "Timeout"), w2, ev ++ [EvTime (w_now w2)])
        else
          let '(w3, evs) := retry_sleep self w2 in
          inr (w3, ev ++ [EvTime (w_now w2)] ++ evs)
  end.

Definition lock_log (self : SimpleLock) : LogRecord :=
  mkLog (logger self) DEBUG "{}.lock()" [ArgStr "SimpleLock"].

(** The marker file is written and the clock is read: either this fails
    ([inl]), or the loop starts in a world, with a deadline ([inr]). *)
Definition lock_prelude (self : SimpleLock) (w : World)
  : (outcome unit * World * list event) + (World * Q * list event) :=
  let '(r1, w1, ev1) := sys (OpenW (_tmpfile_path self)) (env_tick (log_to (lock_log self) w)) in
  match r1 with
  | inl e => inl (Raised (OSError e), w1, ev1)
  | inr f =>
      let '(r2, w2, ev2) := sys (WriteClose f (_tmpfile_path self)) (env_tick w1) in
      match r2 with
      | inl e => inl (Raised (OSError e), w2, ev1 ++ ev2)
      | inr _ =>
          let w3 := env_tick w2 in
          inr (w3, (w_now w3 + _timeout self)%Q, ev1 ++ ev2 ++ [EvTime (w_now w3)])
      end
  end.

(** ** The traces of the loop of [lock] *)

Definition link_results (tr : list event) : list (Z + unit) :=
  omap (λ ev, match ev with EvLink _ _ r => Some r | _ => None end) tr.

Definition time_readings (tr : list event) : list Q :=
  omap (λ ev, match ev with EvTime t => Some t | _ => None end) tr.

Definition sleeps (tr : list event) : list Q :=
  omap (λ ev, match ev with EvSleep d => Some d | _ => None end) tr.

(** The traces of the loop, by the way it ends: a last attempt that
    succeeds or fails for good, a time reading past the deadline, or
    attempts failing with [EEXIST] followed by a time reading within the
    deadline, and by a sleep when the instance sleeps. *)
Inductive loop_trace (self : SimpleLock) (timeout : Q) : outcome unit → list event → Prop :=
| lt_obtained :
    loop_trace self timeout (Returned tt)
      [EvLink (_tmpfile_path self) (_lockfile_path self) (inr tt)]
| lt_fatal e :
    e ≠ EEXIST →
    loop_trace self timeout (Raised (OSError e))
      [EvLink (_tmpfile_path self) (_lockfile_path self) (inl e)]
| lt_timeout t :
    (timeout < t)%Q →
    loop_trace self timeout (Raised (LockError "Timeout"))
      [EvLink (_tmpfile_path self) (_lockfile_path self) (inl EEXIST); EvTime t]
| lt_retry_sleep t r o tr :
    _no_sleep self = false →
    (t <= timeout)%Q →
    (0 <= r)%Q → (r < 1)%Q →
    loop_trace self timeout o tr →
    loop_trace self timeout o
      (EvLink (_tmpfile_path self) (_lockfile_path self) (inl EEXIST) ::
       EvTime t :: EvRandom r :: EvSleep (r + (1 # 100))%Q :: tr)
| lt_retry_busy t o tr :
    _no_sleep self = true →
    (t <= timeout)%Q →
    loop_trace self timeout o tr →
    loop_trace self timeout o
      (EvLink (_tmpfile_path self) (_lockfile_path self) (inl EEXIST) :: EvTime t :: tr)
| lt_spin :
    loop_trace self timeout OutOfFuel [].

(** ** The end of a [with] statement *)

(** How the [with] statement ends, from the way its body ended and the way
    [unlock] ended. *)
Definition exit_outcome (body_o : outcome flow) (unlock_o : outcome unit) : outcome flow :=
  match unlock_o with
  | Returned _ => body_o
  | Raised e => Raised e
  | OutOfFuel => OutOfFuel
  end.

(** ** A quiet environment

    The environment is [calm] when it lets time pass but leaves the file
    system alone: no interference. *)

Definition calm (w : World) : Prop :=
  Forall (λ e, interference e = []) (w_env w).

#[global] Instance calm_dec w : Decision (calm w).
Proof. unfold calm. apply _. Defined.

(** [w'] has the file system of [w] and a calm environment. *)
Definition quiet_step (w w' : World) : Prop :=
  w_fs w' = w_fs w ∧ calm w'.

(** The calls that leave the file system alone. *)
Definition pure_call {X} (c : call X) : bool :=
  match c with
  | Getpid | Log _ | ReadText _ | Time | Random | Sleep _ => true
  | _ => false
  end.

(** The instance holds the lock: the lock file is a link to its marker
    file, which holds the marker's own path. *)
Definition owned_state (self : SimpleLock) (fs : FS) : Prop :=
  faults fs !! _lockfile_path self = None ∧
  faults fs !! _tmpfile_path self = None ∧
  ∃ i, dir fs !! _lockfile_path self = Some i ∧
       dir fs !! _tmpfile_path self = Some i ∧
       inodes fs !! i = Some (_tmpfile_path self).

Definition marker_written (self : SimpleLock) (fs : FS) : Prop :=
  faults fs !! _tmpfile_path self = None ∧
  ∃ i, dir fs !! _tmpfile_path self = Some i ∧
       inodes fs !! i = Some (_tmpfile_path self).

(** ** What a run logs, removes and writes *)

(** The records that a logger keeps: the ['null'] logger keeps none. *)
Definition logged (lg : Logger) (rs : list LogRecord) (l : list LogRecord) : list LogRecord :=
  if decide (lg = null_logger) then l else l ++ rs.

(** The paths that a run removes, or tries to. *)
Definition removals (tr : list event) : list string :=
  omap (λ ev, match ev with EvUnlink p _ => Some p | _ => None end) tr.

(** The texts that a run writes to a path. *)
Definition writes_to (path : string) (tr : list event) : list string :=
  omap (λ ev, match ev with
              | EvWriteClose h content (inr _) =>
                  if decide (h_path h = path) then Some content else None
              | _ => None
              end) tr.

Definition writer_start_log (content_path lock_path : string) (lg : Logger) : LogRecord :=
  mkLog lg INFO "Start running as a writer (content_path: {}, lock_path: {})"
    [ArgStr content_path; ArgStr lock_path].

Definition writer_end_log (lg : Logger) : LogRecord :=
  mkLog lg INFO "Finished running as a writer" [].

(** ** Characters of a path *)

Definition dot : Ascii.ascii := Ascii.ascii_of_nat 46.

Fixpoint has_char (c : Ascii.ascii) (s : string) : bool :=
  match s with
  | EmptyString => false
  | String c' s' => Ascii.eqb c c' || has_char c s'
  end.

Definition is_digit (c : Ascii.ascii) : bool :=
  has_char c "0123456789".

(** A text of ASCII characters only: it decodes, to itself, in every
    encoding that extends ASCII. *)
Fixpoint ascii_text (s : string) : bool :=
  match s with
  | EmptyString => true
  | String c s' => (Ascii.nat_of_ascii c <? 128)%nat && ascii_text s'
  end.

(** The instance that [__init__] builds for the process [pid]. *)
Definition instance (path : string) (lg : Logger) (pid : N) : SimpleLock :=
  mkSimpleLock lg path (format_tmpfile path pid) 60 false.

(** ** Scenarios *)

Definition empty_fs : FS := mkFS ∅ ∅ ∅.

(** Process 4242 alone, nothing on disk. *)
Definition world0 : World := mkWorld empty_fs 1000 [] [] 4242 [].

Definition lockA : SimpleLock := instance "/tmp/x.lock" null_logger 4242.

(** The lock is held by process 1, which never releases it; a minute
    passes during the first attempt of process 4242. *)
Definition held_fs : FS :=
  mkFS {[ "/tmp/x.lock" := 7%nat; "/tmp/x.lock.1" := 7%nat ]}
       {[ 7%nat := "/tmp/x.lock.1" ]} ∅.

Definition contended : World :=
  mkWorld held_fs 0 [4503599627370496; 0]%N
    [mkEnvStep 0 1 []; mkEnvStep 0 1 []; mkEnvStep 0 1 []; mkEnvStep 0 1 [];
     mkEnvStep 0 1 []; mkEnvStep 60 1 []]
    4242 [].

(** A lock path with a carriage return in it. *)
Definition cr_path : string := "/tmp/a" +:+ String CR "b.lock".
Definition lockCR : SimpleLock := instance cr_path null_logger 4242.

(** The lock file of [lockCR] holds exactly the marker path of [lockCR]. *)
Definition cr_held : World :=
  mkWorld (mkFS {[ cr_path := 0%nat ]} {[ 0%nat := _tmpfile_path lockCR ]} ∅)
          1000 [] [] 4242 [].

(** A lock path with a line feed in it, and a lock file that holds the
    marker path with a carriage return added before the line feed. *)
Definition lf_path : string := "/tmp/a" +:+ String LF "b.lock".
Definition lockLF : SimpleLock := instance lf_path null_logger 4242.
Definition crlf_text : string := "/tmp/a" +:+ String CR (String LF "b.lock.4242").
Definition crlf_held : World :=
  mkWorld (mkFS {[ lf_path := 0%nat ]} {[ 0%nat := crlf_text ]} ∅) 1000 [] [] 4242 [].

(** The marker path of process 4242 cannot be opened. *)
Definition no_access : World :=
  mkWorld (mkFS ∅ ∅ {[ "/tmp/x.lock.4242" := EACCES ]}) 1000 [] [] 4242 [].

(** Process 4242 holds the lock. *)
Definition owned_fs : FS :=
  mkFS {[ "/tmp/x.lock" := 0%nat; "/tmp/x.lock.4242" := 0%nat ]}
       {[ 0%nat := "/tmp/x.lock.4242" ]} ∅.

Definition owned : World := mkWorld owned_fs 1000 [] [] 4242 [].

(** Process 4242 holds the lock; the lock path becomes inaccessible after
    the ownership test of [unlock] and before its first removal. *)
Definition interrupted : World :=
  mkWorld owned_fs 1000 []
    [mkEnvStep 0 1 []; mkEnvStep 0 1 [];
     mkEnvStep 0 1 [EnvFault "/tmp/x.lock" (Some EACCES)]]
    4242 [].

(** * Several processes on one lock path

    Each process has its own instance, made by [__init__] for its pid, and
    calls [lock], [unlock] and [is_locked] in any order.  The processes are
    interleaved at the granularity of system calls; the clock advances and
    faults come and go at any time. *)

Module Pool.
Section pool.
Variable path : string.
Variable logger_of : N → Logger.

Definition self (pid : N) : SimpleLock := instance path (logger_of pid) pid.

Inductive method := MLock | MUnlock (force : bool) | MIsLocked.

Definition method_prog (pid : N) (m : method) : prog unit :=
  match m with
  | MLock => lock (self pid)
  | MUnlock force => unlock (self pid) force
  | MIsLocked => is_locked (self pid) ≫= λ _, mret tt
  end.

(** What a process is doing: nothing ([None]), or the rest of the method
    it has called.  [p_holds] records that the process has linked the
    lock file and has not removed it since. *)
Record proc := mkProc { p_code : option (prog unit); p_holds : bool }.

Record state := mkState { st_world : World; st_procs : gmap N proc }.

(** [p_holds] after a call: set by a link to the lock path that succeeds,
    reset by a removal of the lock path that succeeds. *)
Definition holds_after {X} (c : call X) : X → bool → bool :=
  match c in call X return X → bool → bool with
  | Link src dst => λ r h,
      match r with inr _ => if decide (dst = path) then true else h | inl _ => h end
  | Unlink p => λ r h,
      match r with inr _ => if decide (p = path) then false else h | inl _ => h end
  | _ => λ _ h, h
  end.

(** The world as the process [pid] sees it. *)
Definition as_process (pid : N) (w : World) : World :=
  mkWorld (w_fs w) (w_now w) (w_rng w) (w_env w) pid (w_log w).

(** The next system call of a process. *)
Definition exec (pid : N) (code : prog unit) (h : bool) (w : World)
  : option (prog unit * bool * World) :=
  match code with
  | Vis c k =>
      let '(x, w', _) := sys c (as_process pid w) in
      Some (k x, holds_after c x h, w')
  | _ => None
  end.

(** The method has returned or raised. *)
Definition finished (code : prog unit) : bool :=
  match code with Ret _ | Raise _ => true | _ => false end.

(** Time passes, and the faults become [fl]. *)
Definition tick (d : Q) (fl : gmap string fault) (w : World) : World :=
  mkWorld (mkFS (dir (w_fs w)) (inodes (w_fs w)) fl)
          (w_now w + d)%Q (w_rng w) (w_env w) (w_pid w) (w_log w).

Inductive step : state → state → Prop :=
| step_call pid m h w ps :
    ps !! pid = Some (mkProc None h) →
    step (mkState w ps)
         (mkState w (<[pid := mkProc (Some (method_prog pid m)) h]> ps))
| step_sys pid code h code' h' w w' ps :
    ps !! pid = Some (mkProc (Some code) h) →
    exec pid code h w = Some (code', h', w') →
    step (mkState w ps) (mkState w' (<[pid := mkProc (Some code') h']> ps))
| step_return pid code h w ps :
    ps !! pid = Some (mkProc (Some code) h) →
    finished code = true →
    step (mkState w ps) (mkState w (<[pid := mkProc None h]> ps))
| step_env d fl w ps :
    (0 <= d)%Q →
    step (mkState w ps) (mkState (tick d fl w) ps).

Definition steps : state → state → Prop := rtc step.

(** Every path leads to an inode that is there. *)
Definition no_dangling (fs : FS) : Prop :=
  ∀ q i, dir fs !! q = Some i → is_Some (inodes fs !! i).

(** A start: no process is in a method or holds the lock, and neither
    the lock file nor a marker file of a process is there. *)
Definition initial (s : state) : Prop :=
  (∀ pid pr, st_procs s !! pid = Some pr → pr = mkProc None false) ∧
  dir (w_fs (st_world s)) !! path = None ∧
  (∀ pid, is_Some (st_procs s !! pid) →
          dir (w_fs (st_world s)) !! format_tmpfile path pid = None) ∧
  no_dangling (w_fs (st_world s)).

Definition holds (s : state) (pid : N) : Prop :=
  ∃ pr, st_procs s !! pid = Some pr ∧ p_holds pr = true.

(** ** Where a process is in its method *)

Inductive pc :=
| AtLock
| AtOpen
| AtWrite (f : handle)
| AtDeadline
| AtLoop (fuel : nat) (timeout : Q)
| AtObtained
| AtUnexpected (e : Z)
| AtCheckTime (fuel : nat) (timeout : Q)
| AtRandom (fuel : nat) (timeout : Q)
| AtSleep (r : Q) (fuel : nat) (timeout : Q)
| AtUnlock (force : bool)
| AtOwnerTest (force : bool)
| AtUnlinkLock (force : bool)
| AtUnlinkTmp (force : bool)
| AtIsLocked
| AtEnd (r : unit + exn)
| AtSpin.

(** The rest of the method at each point, in the words of the source. *)
Definition code_of (pid : N) (p : pc) : prog unit :=
  let me := self pid in
  match p with
  | AtLock => lock me
  | AtOpen =>
      f ← os_call (OpenW (_tmpfile_path me));
      os_call (WriteClose f (_tmpfile_path me));;
      now ← trigger Time;
      lock_loop (lock_fuel me) me (now + _timeout me)%Q
  | AtWrite f =>
      os_call (WriteClose f (_tmpfile_path me));;
      now ← trigger Time;
      lock_loop (lock_fuel me) me (now + _timeout me)%Q
  | AtDeadline =>
      now ← trigger Time;
      lock_loop (lock_fuel me) me (now + _timeout me)%Q
  | AtLoop fuel timeout => lock_loop fuel me timeout
  | AtObtained => trigger (Log (obtained_log me));; mret tt
  | AtUnexpected e => trigger (Log (unexpected_log me (OSError e)));; Raise (OSError e)
  | AtCheckTime fuel timeout =>
      now ← trigger Time;
      if Qlt_le_dec timeout now then Raise (LockError "Timeout")
      else
        (r ← trigger Random; trigger (Sleep (r + (1 # 100))%Q));;
        lock_loop fuel me timeout
  | AtRandom fuel timeout =>
      (r ← trigger Random; trigger (Sleep (r + (1 # 100))%Q));;
      lock_loop fuel me timeout
  | AtSleep r fuel timeout =>
      trigger (Sleep (r + (1 # 100))%Q);;
      lock_loop fuel me timeout
  | AtUnlock force => unlock me force
  | AtOwnerTest force =>
      locked ← is_locked me;
      if negb locked then Raise (LockError "Not locked by myself")
      else
        try_except (os_call (Unlink (_lockfile_path me))) (unless_forced_ENOENT force);;
        try_except (os_call (Unlink (_tmpfile_path me))) (unless_forced_ENOENT force)
  | AtUnlinkLock force =>
      try_except (os_call (Unlink (_lockfile_path me))) (unless_forced_ENOENT force);;
      try_except (os_call (Unlink (_tmpfile_path me))) (unless_forced_ENOENT force)
  | AtUnlinkTmp force =>
      try_except (os_call (Unlink (_tmpfile_path me))) (unless_forced_ENOENT force)
  | AtIsLocked => is_locked me ≫= λ _, mret tt
  | AtEnd (inl _) => Ret tt
  | AtEnd (inr e) => Raise e
  | AtSpin => Spin
  end.

Definition raised (e : exn) : pc := AtEnd (inr e).
Definition returned : pc := AtEnd (inl tt).

(** One system call, from point to point. *)
Definition pc_step (pid : N) (p : pc) (h : bool) (w0 : World) : option (pc * bool * World) :=
  let me := self pid in
  let w := as_process pid w0 in
  match p with
  | AtLock => Some (AtOpen, h, (sys (Log (lock_log me)) w).1.2)
  | AtOpen =>
      let '(r, fs) := fs_open_w (_tmpfile_path me) (w_fs w) in
      Some (match r with inl e => raised (OSError e) | inr f => AtWrite f end,
            h, set_fs fs w)
  | AtWrite f =>
      let '(r, fs) := fs_write_close f (_tmpfile_path me) (w_fs w) in
      Some (match r with inl e => raised (OSError e) | inr _ => AtDeadline end,
            h, set_fs fs w)
  | AtDeadline => Some (AtLoop (lock_fuel me) (w_now w + _timeout me)%Q, h, w)
  | AtLoop O _ => None
  | AtLoop (S fuel) timeout =>
      let '(r, fs) := fs_link (_tmpfile_path me) path (w_fs w) in
      Some (match r with
            | inr _ => AtObtained
            | inl e => if decide (e ≠ EEXIST) then AtUnexpected e
                       else AtCheckTime fuel timeout
            end,
            match r with inr _ => true | inl _ => h end,
            set_fs fs w)
  | AtObtained => Some (returned, h, (sys (Log (obtained_log me)) w).1.2)
  | AtUnexpected e =>
      Some (raised (OSError e), h, (sys (Log (unexpected_log me (OSError e))) w).1.2)
  | AtCheckTime fuel timeout =>
      Some (if Qlt_le_dec timeout (w_now w) then raised (LockError "Timeout")
            else AtRandom fuel timeout, h, w)
  | AtRandom fuel timeout =>
      let '(r, w', _) := sys Random w in Some (AtSleep r fuel timeout, h, w')
  | AtSleep r fuel timeout =>
      Some (AtLoop fuel timeout, h, (sys (Sleep (r + (1 # 100))%Q) w).1.2)
  | AtUnlock force => Some (AtOwnerTest force, h, (sys (Log (unlock_log me)) w).1.2)
  | AtOwnerTest force =>
      Some (match fs_read_text path (w_fs w) with
            | inr content =>
                if decide (content = _tmpfile_path me) then AtUnlinkLock force
                else raised (LockError "Not locked by myself")
            | inl e =>
                if decide (e ≠ ENOENT) then raised (OSError e)
                else raised (LockError "Not locked by myself")
            end, h, w)
  | AtUnlinkLock force =>
      let '(r, fs) := fs_unlink path (w_fs w) in
      Some (match r with
            | inr _ => AtUnlinkTmp force
            | inl e => if negb (force && bool_decide (e = ENOENT))
                       then raised (OSError e) else AtUnlinkTmp force
            end,
            match r with inr _ => false | inl _ => h end,
            set_fs fs w)
  | AtUnlinkTmp force =>
      let '(r, fs) := fs_unlink (_tmpfile_path me) (w_fs w) in
      Some (match r with
            | inr _ => returned
            | inl e => if negb (force && bool_decide (e = ENOENT))
                       then raised (OSError e) else returned
            end, h, set_fs fs w)
  | AtIsLocked =>
      Some (match fs_read_text path (w_fs w) with
            | inl e => if decide (e ≠ ENOENT) then raised (OSError e) else returned
            | inr _ => returned
            end, h, w)
  | AtEnd _ | AtSpin => None
  end.

(** ** The invariant of the file system *)

Definition tmp (pid : N) : string := format_tmpfile path pid.

(** [M]: the processes; [H]: those that hold the lock. *)
Record fs_inv (M H : N → Prop) (fs : FS) : Prop := mkFsInv {
  inv_members : ∀ p, H p → M p;
  inv_dangling : no_dangling fs;
  (* two processes never share a marker inode *)
  inv_alias : ∀ p q i, M p → M q →
    dir fs !! tmp p = Some i → dir fs !! tmp q = Some i → p = q;
  (* a marker file holds its own path, or nothing yet *)
  inv_content : ∀ p i c, M p →
    dir fs !! tmp p = Some i → inodes fs !! i = Some c → c = tmp p ∨ c = "";
  (* the lock file of a holder is a link to its marker *)
  inv_held : ∀ p, H p → ∃ i, dir fs !! path = Some i ∧ dir fs !! tmp p = Some i;
  (* a lock file has a holder *)
  inv_owner : ∀ i, dir fs !! path = Some i → ∃ p, H p
}.

(** ** The invariant of the processes *)

Definition member (s : state) (pid : N) : Prop := is_Some (st_procs s !! pid).

(** What is known at some points of a method: the marker file that is
    being written is the one of the process; in the loop the marker file
    is there; the ownership test has answered [True]; the lock file has
    been removed. *)
Definition pc_ok (pid : N) (p : pc) (h : bool) (fs : FS) : Prop :=
  match p with
  | AtWrite f => h_path f = tmp pid ∧ dir fs !! tmp pid = Some (h_ino f)
  | AtDeadline | AtLoop _ _ | AtCheckTime _ _ | AtRandom _ _ | AtSleep _ _ _ =>
      is_Some (dir fs !! tmp pid)
  | AtUnlinkLock _ => h = true
  | AtUnlinkTmp _ => h = false
  | _ => True
  end.

Definition proc_ok (fs : FS) (pid : N) (pr : proc) : Prop :=
  match p_code pr with
  | None => True
  | Some code => ∃ p, code = code_of pid p ∧ pc_ok pid p (p_holds pr) fs
  end.

Definition Inv (s : state) : Prop :=
  fs_inv (member s) (holds s) (w_fs (st_world s)) ∧
  ∀ pid pr, st_procs s !! pid = Some pr → proc_ok (w_fs (st_world s)) pid pr.

(** The next call of the process is an [os.link]. *)
Definition at_link_attempt (code : prog unit) : bool :=
  match code with
  | Vis c _ => match c with Link _ _ => true | _ => false end
  | _ => false
  end.

End pool.

(** Processes 1 and 2, before any call, on an empty file system. *)
Definition start : state :=
  mkState (mkWorld empty_fs 0 [] [] 0 [])
          {[ 1%N := mkProc None false; 2%N := mkProc None false ]}.

End Pool.

(** ** The demo writer between two rounds *)

(** The files of the writer between two rounds: nothing interferes, no
    fault on its three paths, the lock path and its marker path are free,
    and every path leads to an inode. *)
Definition writer_ready (content_path lock_path : string) (w : World) : Prop :=
  let tmp := format_tmpfile lock_path (w_pid w) in
  calm w ∧
  faults (w_fs w) !! content_path = None ∧
  faults (w_fs w) !! tmp = None ∧
  faults (w_fs w) !! lock_path = None ∧
  dir (w_fs w) !! lock_path = None ∧
  dir (w_fs w) !! tmp = None ∧
  Pool.no_dangling (w_fs w).

(** * Properties *)

(** ** Running programs *)

Lemma run_bind {A B} (m : prog A) (f : A → prog B) (w : World) :
  run (m ≫= f) w =
  match run m w with
  | (Returned a, w1, tr1) =>
      let '(o, w2, tr2) := run (f a) w1 in (o, w2, tr1 ++ tr2)
  | (Raised e, w1, tr1) => (Raised e, w1, tr1)
  | (OutOfFuel, w1, tr1) => (OutOfFuel, w1, tr1)
  end.
Proof.
  unfold mbind, prog_bind. revert w.
  induction m as [a|e| |X c k IH]; intros w; simpl.
  - by destruct (run (f a) w) as [[o w2] tr2].
  - done.
  - done.
  - destruct (sys c (env_tick w)) as [[x w1] ev].
    rewrite IH. destruct (run (k x) w1) as [[[a|e|] w2] tr]; try done.
    destruct (run (f a) w2) as [[o w3] tr3]. by rewrite app_assoc.
Qed.

Lemma run_try_except {A} (m : prog A) (h : exn → prog A) (w : World) :
  run (try_except m h) w =
  match run m w with
  | (Raised e, w1, tr1) =>
      let '(o, w2, tr2) := run (h e) w1 in (o, w2, tr1 ++ tr2)
  | r => r
  end.
Proof.
  revert w. induction m as [a|e| |X c k IH]; intros w; simpl.
  - done.
  - by destruct (run (h e) w) as [[o w2] tr2].
  - done.
  - destruct (sys c (env_tick w)) as [[x w1] ev].
    rewrite IH. destruct (run (k x) w1) as [[[a|e|] w2] tr]; try done.
    destruct (run (h e) w2) as [[o w3] tr3]. by rewrite app_assoc.
Qed.

Lemma run_trigger {X} (c : call X) (w : World) :
  run (trigger c) w =
  let '(x, w1, ev) := sys c (env_tick w) in (Returned x, w1, ev).
Proof.
  unfold trigger. simpl. destruct (sys c (env_tick w)) as [[x w1] ev].
  by rewrite app_nil_r.
Qed.

Lemma run_os_call {X} (c : call (Z + X)) (w : World) :
  run (os_call c) w =
  let '(r, w1, ev) := sys c (env_tick w) in
  (match r with inl e => Raised (OSError e) | inr x => Returned x end, w1, ev).
Proof.
  unfold os_call. simpl. destruct (sys c (env_tick w)) as [[[e|x] w1] ev];
    simpl; by rewrite app_nil_r.
Qed.

Lemma run_Ret {A} (a : A) w : run (Ret a) w = (Returned a, w, []).
Proof. done. Qed.

Lemma run_mret {A} (a : A) w : run (mret a) w = (Returned a, w, []).
Proof. done. Qed.

Lemma run_Raise {A} (e : exn) w : run (@Raise A e) w = (Raised e, w, []).
Proof. done. Qed.

Lemma run_Spin {A} w : run (@Spin A) w = (OutOfFuel, w, []).
Proof. done. Qed.

Arguments run : simpl never.

(** ** Ownership test: [_read_lockfile] and [is_locked] *)

Lemma run__read_lockfile (self : SimpleLock) (w : World) :
  run (_read_lockfile self) w =
  let r := fs_read_text (_lockfile_path self) (w_fs (env_tick w)) in
  (match r with
   | inr content => Returned (Some content)
   | inl e => if decide (e ≠ ENOENT) then Raised (OSError e) else Returned None
   end, env_tick w, [EvReadText (_lockfile_path self) r]).
Proof.
  unfold _read_lockfile. rewrite run_try_except, run_bind, run_os_call. simpl.
  destruct (fs_read_text _ _) as [e|content]; simpl; [|done].
  by destruct (decide (e ≠ ENOENT)).
Qed.

Lemma run_is_locked (self : SimpleLock) (w : World) :
  run (is_locked self) w =
  let r := fs_read_text (_lockfile_path self) (w_fs (env_tick w)) in
  (match r with
   | inr content => Returned (bool_decide (content = _tmpfile_path self))
   | inl e => if decide (e ≠ ENOENT) then Raised (OSError e) else Returned false
   end, env_tick w, [EvReadText (_lockfile_path self) r]).
Proof.
  unfold is_locked. rewrite run_bind, run__read_lockfile. simpl.
  destruct (fs_read_text _ _) as [e|content]; simpl.
  - by destruct (decide (e ≠ ENOENT)).
  - do 2 f_equal. f_equal. apply bool_decide_ext. naive_solver.
Qed.

Lemma errno_of_fault_not_ENOENT f : errno_of_fault f ≠ ENOENT.
Proof. by destruct f. Qed.

Lemma errno_of_fault_not_EEXIST f : errno_of_fault f ≠ EEXIST.
Proof. by destruct f. Qed.

(** The read fails with [ENOENT] exactly when the path is not there. *)
Lemma fs_read_text_ENOENT path fs :
  fs_read_text path fs = inl ENOENT ↔ faults fs !! path = None ∧ dir fs !! path = None.
Proof.
  unfold fs_read_text.
  destruct (faults fs !! path) as [f|] eqn:Hf; [|destruct (dir fs !! path) eqn:Hd].
  - split; [|naive_solver]. intros [=H]. by destruct (errno_of_fault_not_ENOENT f).
  - naive_solver.
  - naive_solver.
Qed.

Lemma fs_read_text_content path fs content :
  fs_read_text path fs = inr content ↔
  faults fs !! path = None ∧
  ∃ i, dir fs !! path = Some i ∧ content = universal_newlines (default "" (inodes fs !! i)).
Proof.
  unfold fs_read_text.
  destruct (faults fs !! path) as [f|] eqn:Hf; [|destruct (dir fs !! path) eqn:Hd];
    naive_solver.
Qed.

(** ** [unlock] *)

Lemma run_try_unlink (force : bool) (path : string) (w : World) :
  run (try_except (os_call (Unlink path)) (unless_forced_ENOENT force)) w =
  run_unlink force path w.
Proof.
  rewrite run_try_except, run_os_call. unfold run_unlink. simpl.
  destruct (fs_unlink path _) as [[e|[]] fs]; simpl; [|done].
  destruct (negb _); simpl; by rewrite ?app_nil_r.
Qed.

Lemma run_unlock (self : SimpleLock) (force : bool) (w : World) :
  run (unlock self force) w =
  match run (is_locked self) (unlock_entry self w) with
  | (Returned true, w1, tr1) =>
      match run_unlink force (_lockfile_path self) w1 with
      | (Returned _, w2, tr2) =>
          let '(o, w3, tr3) := run_unlink force (_tmpfile_path self) w2 in
          (o, w3, tr1 ++ tr2 ++ tr3)
      | (o, w2, tr2) => (o, w2, tr1 ++ tr2)
      end
  | (Returned false, w1, tr1) => (Raised (LockError "Not locked by myself"), w1, tr1)
  | (Raised e, w1, tr1) => (Raised e, w1, tr1)
  | (OutOfFuel, w1, tr1) => (OutOfFuel, w1, tr1)
  end.
Proof.
  unfold unlock, logger_debug. rewrite run_bind, run_trigger.
  unfold unlock_entry, unlock_log.
  destruct (sys (Log _) (env_tick w)) as [[[] w0] ev] eqn:Hsys.
  assert (ev = []) as -> by (simpl in Hsys; congruence).
  rewrite run_bind. cbn [fst snd app].
  destruct (run (is_locked self) w0) as [[[[]|e|] w1] tr1]; cbn [negb]; try done.
  - rewrite run_bind, !run_try_unlink.
    destruct (run_unlink force (_lockfile_path self) w1) as [[[[]|e|] w2] tr2]; try done.
    rewrite run_try_unlink.
    by destruct (run_unlink force (_tmpfile_path self) w2) as [[o w3] tr3].
  - by rewrite run_Raise, app_nil_r.
Qed.

(** C5. When the ownership test of [unlock] answers [False], [unlock]
    raises [LockError('Not locked by myself')], a message other than the
    one of a timeout, and it has removed no file: its only call on the file
    system is the read of the lock file. *)
Theorem unlock_not_owned_raises (self : SimpleLock) (force : bool) (w : World) :
  outcome_of (run (is_locked self) (unlock_entry self w)) = Returned false →
  run (unlock self force) w =
    (Raised (LockError "Not locked by myself"),
     env_tick (unlock_entry self w),
     [EvReadText (_lockfile_path self)
        (fs_read_text (_lockfile_path self) (w_fs (env_tick (unlock_entry self w))))]) ∧
  (∀ path r, EvUnlink path r ∉ trace_of (run (unlock self force) w)) ∧
  LockError "Not locked by myself" ≠ LockError "Timeout".
Proof.
  intros H. rewrite run_unlock. rewrite run_is_locked in H |- *.
  unfold outcome_of in H. simpl in *. rewrite H. simpl.
  split; [done|]. split; [|done].
  intros path r [=]%list_elem_of_singleton.
Qed.

(** ** The loop of [lock], one iteration at a time *)

Lemma run_retry_sleep (self : SimpleLock) (w : World) :
  run (if negb (_no_sleep self)
       then r ← trigger Random; trigger (Sleep (r + (1 # 100))%Q)
       else mret tt) w =
  let '(w', evs) := retry_sleep self w in (Returned tt, w', evs).
Proof.
  unfold retry_sleep. destruct (negb (_no_sleep self)); [|done].
  rewrite run_bind, run_trigger.
  destruct (sys Random (env_tick w)) as [[r w1] ev1].
  rewrite run_trigger.
  by destruct (sys (Sleep _) (env_tick w1)) as [[[] w2] ev2].
Qed.

Lemma run_log (r : LogRecord) (w : World) :
  run (trigger (Log r)) w = (Returned tt, log_to r w, []).
Proof.
  rewrite run_trigger. unfold log_to.
  destruct (sys (Log r) (env_tick w)) as [[[] w1] ev] eqn:Hsys.
  simpl in Hsys. by injection Hsys as _ <-.
Qed.

Lemma run_lock_loop_S (n : nat) (self : SimpleLock) (timeout : Q) (w : World) :
  run (lock_loop (S n) self timeout) w =
  match loop_iter self timeout w with
  | inl r => r
  | inr (w', tr) =>
      let '(o, w'', tr') := run (lock_loop n self timeout) w' in (o, w'', tr ++ tr')
  end.
Proof.
  cbn [lock_loop]. unfold loop_iter.
  rewrite run_bind, run_try_except, run_bind, run_os_call.
  destruct (sys (Link _ _) (env_tick w)) as [[[e|[]] w1] ev]; cbv beta iota.
  - destruct (decide (e ≠ EEXIST)) as [Hne|Heq].
    + rewrite run_bind. unfold logger_error. rewrite run_log, run_Raise.
      by rewrite !app_nil_r.
    + rewrite run_mret. cbv beta iota. rewrite run_bind, run_trigger.
      cbn [sys]. cbv beta iota.
      destruct (Qlt_le_dec timeout (w_now (env_tick w1))).
      * by rewrite run_Raise, !app_nil_r.
      * rewrite run_bind, run_retry_sleep.
        destruct (retry_sleep self (env_tick w1)) as [w3 evs].
        destruct (run (lock_loop n self timeout) w3) as [[o w4] tr].
        by rewrite !app_nil_r, <- !app_assoc.
  - rewrite run_bind. unfold logger_debug. rewrite run_log, run_mret.
    cbv beta iota. by rewrite run_mret, !app_nil_r.
Qed.

(** ** [lock]: what happens before the loop *)

Lemma run_lock (self : SimpleLock) (w : World) :
  run (lock self) w =
  match lock_prelude self w with
  | inl r => r
  | inr (w', timeout, tr) =>
      let '(o, w'', tr') := run (lock_loop (lock_fuel self) self timeout) w' in
      (o, w'', tr ++ tr')
  end.
Proof.
  unfold lock, lock_prelude, logger_debug.
  rewrite run_bind. fold (lock_log self). rewrite run_log. cbv beta iota.
  rewrite run_bind, run_os_call.
  destruct (sys (OpenW _) _) as [[[e|f] w1] ev1]; cbv beta iota; [done|].
  rewrite run_bind, run_os_call.
  destruct (sys (WriteClose _ _) _) as [[[e|[]] w2] ev2]; cbv beta iota; [done|].
  rewrite run_bind, run_trigger. cbn [sys]. cbv beta iota zeta.
  destruct (run (lock_loop _ _ _) _) as [[o w4] tr].
  by rewrite <- !app_assoc.
Qed.

(** ** The shape of the loop's trace *)

Lemma random_of_draw_range (k : N) : (0 <= random_of_draw k)%Q ∧ (random_of_draw k < 1)%Q.
Proof.
  unfold random_of_draw, Qle, Qlt. simpl.
  assert (k mod 2 ^ 53 < 2 ^ 53)%N as H by (apply N.mod_lt; done).
  assert ((2 ^ 53)%N = N.pos (2 ^ 53)%positive) as E by (by vm_compute).
  rewrite E in H |- *. generalize dependent (2 ^ 53)%positive. intros p H _.
  generalize dependent (k `mod` N.pos p)%N. intros m H. lia.
Qed.

Lemma lock_loop_trace (self : SimpleLock) (timeout : Q) (n : nat) (w : World) :
  loop_trace self timeout
    (outcome_of (run (lock_loop n self timeout) w))
    (trace_of (run (lock_loop n self timeout) w)).
Proof.
  revert w. induction n as [|n IH]; intros w.
  - cbn [lock_loop]. rewrite run_Spin. constructor.
  - rewrite run_lock_loop_S. unfold loop_iter. cbn [sys].
    destruct (fs_link _ _ _) as [[e|[]] fs]; cbv beta iota zeta.
    + destruct (decide (e ≠ EEXIST)) as [Hne|Heq%dec_stable].
      * by constructor.
      * subst e. destruct (Qlt_le_dec _ _) as [Hlt|Hle].
        { by constructor. }
        unfold retry_sleep.
        destruct (_no_sleep self) eqn:Hns; cbn [negb sys]; cbv beta iota zeta.
        -- specialize (IH (env_tick (set_fs fs (env_tick w)))).
           destruct (run (lock_loop n self timeout) _) as [[o w'] tr].
           by apply lt_retry_busy.
        -- match goal with |- context [run (lock_loop n self timeout) ?w'] =>
             specialize (IH w'); destruct (run (lock_loop n self timeout) w') as [[o w''] tr]
           end.
           apply lt_retry_sleep; try done; apply random_of_draw_range.
    + constructor.
Qed.





(** Every sleep of the loop lasts between 0.01 s and 1.01 s, and when the
    instance sleeps there is one between two attempts. *)
Lemma loop_trace_sleeps self timeout o tr :
  loop_trace self timeout o tr →
  Forall (λ d, (1 # 100 <= d)%Q ∧ (d < 101 # 100)%Q) (sleeps tr).
Proof.
  induction 1; unfold sleeps in *; simpl; repeat constructor; auto; lra.
Qed.

Lemma lock_loop_trace_nonempty self timeout n w :
  trace_of (run (lock_loop (S n) self timeout) w) ≠ [].
Proof.
  rewrite run_lock_loop_S. unfold loop_iter. cbn [sys].
  destruct (fs_link _ _ _) as [[e|[]] fs]; cbv beta iota zeta; [|done].
  destruct (decide (e ≠ EEXIST)); [done|].
  destruct (Qlt_le_dec _ _); [done|].
  destruct (retry_sleep _ _) as [w3 evs].
  by destruct (run _ _) as [[o w'] tr].
Qed.

(** When the loop raises [Timeout], the clock of the world it leaves is the
    reading that was past the deadline. *)
Lemma lock_loop_timeout_now self timeout n w :
  outcome_of (run (lock_loop n self timeout) w) = Raised (LockError "Timeout") →
  (timeout < w_now (world_of (run (lock_loop n self timeout) w)))%Q.
Proof.
  revert w. induction n as [|n IH]; intros w.
  - cbn [lock_loop]. by rewrite run_Spin.
  - rewrite run_lock_loop_S. unfold loop_iter. cbn [sys].
    destruct (fs_link _ _ _) as [[e|[]] fs]; cbv beta iota zeta; [|done].
    destruct (decide (e ≠ EEXIST)); [done|].
    destruct (Qlt_le_dec _ _); [done|].
    destruct (retry_sleep _ _) as [w3 evs]. specialize (IH w3).
    by destruct (run _ w3) as [[o w'] tr].
Qed.

Lemma lock_fuel_S self : ∃ n, lock_fuel self = S n.
Proof. unfold lock_fuel. rewrite Nat.add_comm. by eexists. Qed.

(** The run of [lock], cut where the loop starts. *)
Lemma run_lock_cases (self : SimpleLock) (w : World) :
  (∃ e w' tr,
     run (lock self) w = (Raised (OSError e), w', tr) ∧
     link_results tr = [] ∧ time_readings tr = [] ∧ sleeps tr = [] ∧
     (∀ t, last tr ≠ Some (EvTime t))) ∨
  (∃ pre t0 o w' tr,
     run (lock self) w = (o, w', pre ++ tr) ∧
     link_results pre = [] ∧ time_readings pre = [t0] ∧ sleeps pre = [] ∧ tr ≠ [] ∧
     loop_trace self (t0 + _timeout self)%Q o tr ∧
     (o = Raised (LockError "Timeout") → (t0 + _timeout self < w_now w')%Q)).
Proof.
  rewrite run_lock. unfold lock_prelude. cbn [sys].
  destruct (fs_open_w _ _) as [[e|f] fs1]; cbv beta iota zeta.
  { left. eexists _, _, _. split; [done|]. by repeat split. }
  destruct (fs_write_close _ _ _) as [[e|[]] fs2]; cbv beta iota zeta.
  { left. eexists _, _, _. split; [done|]. by repeat split. }
  right. destruct (lock_fuel_S self) as [n ->].
  match goal with |- context [run (lock_loop (S n) self ?T) ?w'] =>
    pose proof (lock_loop_trace self T (S n) w') as Htr;
    pose proof (lock_loop_trace_nonempty self T n w') as Hne;
    pose proof (lock_loop_timeout_now self T (S n) w') as Hnow;
    destruct (run (lock_loop (S n) self T) w') as [[o w''] tr]
  end.
  eexists _, _, o, w'', tr. split; [done|]. by repeat split.
Qed.




(** Every sleep of [lock] lasts 0.01 s or more and less than 1.01 s. *)
Lemma lock_sleeps_in_range (self : SimpleLock) (w : World) :
  Forall (λ d, (1 # 100 <= d)%Q ∧ (d < 101 # 100)%Q) (sleeps (trace_of (run (lock self) w))).
Proof.
  destruct (run_lock_cases self w) as
    [(e & w' & tr & -> & _ & _ & Hs & _)
    |(pre & t0 & o & w' & tr & -> & _ & _ & Hs & _ & Htr & _)];
    unfold trace_of; cbn [snd].
  - by rewrite Hs.
  - unfold sleeps in *. rewrite omap_app, Hs. by eapply loop_trace_sleeps.
Qed.

(** ** The loop ends: a sleeping instance does not use up its fuel *)

Lemma elapsed_nonneg (e : EnvStep) : (0 <= elapsed e)%Q.
Proof. unfold elapsed, Qle. simpl. lia. Qed.

Lemma w_now_env_tick (w : World) : (w_now w <= w_now (env_tick w))%Q.
Proof.
  unfold env_tick. destruct (w_env w) as [|e rest]; simpl; [lra|].
  pose proof (elapsed_nonneg e). lra.
Qed.

Lemma w_now_set_fs fs w : w_now (set_fs fs w) = w_now w.
Proof. done. Qed.

Lemma retry_sleep_advances (self : SimpleLock) (w : World) :
  _no_sleep self = false →
  (w_now w + (1 # 100) <= w_now (retry_sleep self w).1)%Q.
Proof.
  intros Hns. unfold retry_sleep. rewrite Hns. cbn [negb sys]. cbv beta iota zeta.
  cbn [fst w_now].
  pose proof (w_now_env_tick w) as H1.
  match goal with |- context [env_tick ?w'] =>
    lazymatch w' with
    | mkWorld _ _ _ _ _ _ => pose proof (w_now_env_tick w') as H2
    end
  end.
  cbn [w_now] in H2.
  pose proof (random_of_draw_range (hd 0%N (w_rng (env_tick w)))) as [H3 _].
  lra.
Qed.

Lemma lock_loop_no_spin (self : SimpleLock) (timeout : Q) (n : nat) (w : World) :
  _no_sleep self = false →
  (timeout - w_now w < inject_Z (Z.of_nat n) * (1 # 100))%Q →
  outcome_of (run (lock_loop (S n) self timeout) w) ≠ OutOfFuel.
Proof.
  intros Hns. revert w. induction n as [|n IH]; intros w Hlt;
    rewrite run_lock_loop_S; unfold loop_iter; cbn [sys];
    destruct (fs_link _ _ _) as [[e|[]] fs]; cbv beta iota zeta; try done;
    (destruct (decide (e ≠ EEXIST)); [done|]);
    (destruct (Qlt_le_dec _ _) as [|Hle]; [done|]);
    pose proof (w_now_env_tick w) as H1;
    pose proof (w_now_env_tick (set_fs fs (env_tick w))) as H2;
    rewrite w_now_set_fs in H2.
  - exfalso. change (inject_Z (Z.of_nat 0)) with 0%Q in Hlt. lra.
  - pose proof (retry_sleep_advances self (env_tick (set_fs fs (env_tick w))) Hns) as H3.
    destruct (retry_sleep _ _) as [w3 evs]. cbn [fst] in H3.
    specialize (IH w3).
    destruct (run (lock_loop (S n) self timeout) w3) as [[o w'] tr].
    apply IH.
    rewrite Nat2Z.inj_succ in Hlt. unfold Z.succ in Hlt. rewrite inject_Z_plus in Hlt.
    change (inject_Z 1) with 1%Q in Hlt. lra.
Qed.

(** [lock] of an instance that sleeps between attempts always ends: it
    returns or raises. *)
Lemma lock_terminates (self : SimpleLock) (w : World) :
  _no_sleep self = false →
  outcome_of (run (lock self) w) ≠ OutOfFuel.
Proof.
  intros Hns. rewrite run_lock. unfold lock_prelude. cbn [sys].
  destruct (fs_open_w _ _) as [[e|f] fs1]; cbv beta iota zeta; [done|].
  destruct (fs_write_close _ _ _) as [[e|[]] fs2]; cbv beta iota zeta; [done|].
  unfold lock_fuel. rewrite Nat.add_comm. cbn [Nat.add].
  match goal with |- context [run (lock_loop (S ?n) self ?T) ?w'] =>
    pose proof (lock_loop_no_spin self T n w' Hns) as H;
    destruct (run (lock_loop (S n) self T) w') as [[o w''] tr]
  end.
  apply H. clear H.
  rewrite Nat2Z.inj_succ. unfold Z.succ. rewrite inject_Z_plus.
  change (inject_Z 1) with 1%Q.
  pose proof (Qle_ceiling (_timeout self * 100)) as Hc.
  set (c := Qceiling (_timeout self * 100)) in *.
  assert (inject_Z c <= inject_Z (Z.of_nat (Z.to_nat c)))%Q as Hz.
  { rewrite <- Zle_Qle. lia. }
  lra.
Qed.

(** ** The [with] statement *)

Lemma run___enter__ (self : SimpleLock) (w : World) :
  run (__enter__ self) w =
  match run (lock self) w with
  | (Returned _, w1, tr1) => (Returned PyNone, w1, tr1)
  | (Raised e, w1, tr1) => (Raised e, w1, tr1)
  | (OutOfFuel, w1, tr1) => (OutOfFuel, w1, tr1)
  end.
Proof.
  unfold __enter__. rewrite run_bind.
  destruct (run (lock self) w) as [[[[]|e|] w1] tr1]; try done.
  by rewrite run_mret, app_nil_r.
Qed.

Lemma run___exit__ (self : SimpleLock) (exc : option exn) (w : World) :
  run (__exit__ self exc) w =
  match run (unlock self false) w with
  | (Returned _, w1, tr1) => (Returned PyNone, w1, tr1)
  | (Raised e, w1, tr1) => (Raised e, w1, tr1)
  | (OutOfFuel, w1, tr1) => (OutOfFuel, w1, tr1)
  end.
Proof.
  unfold __exit__. rewrite run_bind.
  destruct (run (unlock self false) w) as [[[[]|e|] w1] tr1]; try done.
  by rewrite run_mret, app_nil_r.
Qed.

Lemma run_with_SimpleLock (self : SimpleLock) (body : pyval → prog flow) (w : World) :
  run (with_SimpleLock self body) w =
  match run (lock self) w with
  | (Returned _, w1, tr1) =>
      match run (body PyNone) w1 with
      | (OutOfFuel, w2, tr2) => (OutOfFuel, w2, tr1 ++ tr2)
      | (body_o, w2, tr2) =>
          let '(unlock_o, w3, tr3) := run (unlock self false) w2 in
          (exit_outcome body_o unlock_o, w3, tr1 ++ tr2 ++ tr3)
      end
  | (Raised e, w1, tr1) => (Raised e, w1, tr1)
  | (OutOfFuel, w1, tr1) => (OutOfFuel, w1, tr1)
  end.
Proof.
  unfold with_SimpleLock, with_stmt. rewrite run_bind, run___enter__.
  destruct (run (lock self) w) as [[[[]|e|] w1] tr1]; try done.
  rewrite run_bind, run_try_except, run_bind.
  destruct (run (body PyNone) w1) as [[[fl|e|] w2] tr2]; cbv beta iota; try done.
  - rewrite run_mret. cbv beta iota. rewrite run_bind, run___exit__.
    destruct (run (unlock self false) w2) as [[[[]|e|] w3] tr3];
      rewrite ?run_mret, ?app_nil_r; done.
  - rewrite run_mret. cbv beta iota. rewrite run_bind, run___exit__.
    destruct (run (unlock self false) w2) as [[[[]|e'|] w3] tr3];
      cbn [truthy]; rewrite ?run_Raise, ?app_nil_r; done.
Qed.

(** C9. [with SimpleLock(...)]: [lock()] is called on entry; when it
    returns, the body runs, and whichever way the body ends (it falls
    through, breaks, continues, returns, or raises) [unlock()] is called
    with [force=False] in the world the body left. An exception of the body
    is raised again after [unlock()], unless [unlock()] itself raises. When
    [lock()] raises, neither the body nor [unlock()] runs. *)
Theorem with_calls_lock_then_unlock_on_every_exit
    (self : SimpleLock) (body : pyval → prog flow) (w : World) :
  let entered := run (lock self) w in
  let ended := run (body PyNone) (world_of entered) in
  let released := run (unlock self false) (world_of ended) in
  let r := run (with_SimpleLock self body) w in
  match outcome_of entered with
  | Returned _ =>
      match outcome_of ended with
      | OutOfFuel => r = (OutOfFuel, world_of ended, trace_of entered ++ trace_of ended)
      | body_o =>
          r = (exit_outcome body_o (outcome_of released), world_of released,
               trace_of entered ++ trace_of ended ++ trace_of released)
      end
  | _ => r = (match outcome_of entered with
              | Raised e => Raised e | _ => OutOfFuel end,
              world_of entered, trace_of entered)
  end.
Proof.
  intros entered ended released r. subst r released ended entered.
  rewrite run_with_SimpleLock. unfold outcome_of, world_of, trace_of.
  destruct (run (lock self) w) as [[[[]|e|] w1] tr1]; cbn [fst snd]; try done.
  destruct (run (body PyNone) w1) as [[[fl|e|] w2] tr2]; cbn [fst snd]; try done;
    by destruct (run (unlock self false) w2) as [[o w3] tr3].
Qed.

(** C10. [__enter__] returns [None] whenever it returns, so the name bound
    by [with SimpleLock(path) as x] is [None], never the lock: the
    statement runs as if its body were given [None]. *)
Theorem enter_returns_None (self : SimpleLock) (body : pyval → prog flow) (w : World) :
  (∀ v, outcome_of (run (__enter__ self) w) = Returned v → v = PyNone) ∧
  (∀ v, outcome_of (run (__enter__ self) w) = Returned v → v ≠ PyLock self) ∧
  (outcome_of (run (lock self) w) = Returned tt →
   outcome_of (run (__enter__ self) w) = Returned PyNone) ∧
  run (with_SimpleLock self body) w = run (with_SimpleLock self (λ _, body PyNone)) w.
Proof.
  rewrite run___enter__, !run_with_SimpleLock. unfold outcome_of.
  destruct (run (lock self) w) as [[[[]|e|] w1] tr1]; cbn [fst snd]; repeat split;
    try done; by intros v [= <-].
Qed.

(** ** A quiet environment *)

Lemma quiet_env_tick w : calm w → quiet_step w (env_tick w).
Proof.
  unfold quiet_step, calm, env_tick. intros Hc.
  destruct (w_env w) as [|e rest] eqn:Hw; [by rewrite Hw|].
  apply Forall_cons in Hc as [He Hrest]. simpl. by rewrite He.
Qed.

Lemma quiet_log_to r w : calm w → quiet_step w (log_to r w).
Proof.
  intros [Hfs Hc]%quiet_env_tick. unfold log_to, quiet_step, calm in *. simpl.
  by destruct (decide _).
Qed.

Lemma quiet_sys {X} (c : call X) w :
  pure_call c = true → calm w → quiet_step w (sys c (env_tick w)).1.2.
Proof.
  intros Hp [Hfs Hc]%quiet_env_tick. unfold quiet_step, calm in *.
  destruct c; try done; simpl. by destruct (decide _).
Qed.

Lemma quiet_step_trans w1 w2 w3 : quiet_step w1 w2 → quiet_step w2 w3 → quiet_step w1 w3.
Proof. unfold quiet_step. intros [-> _] [-> ?]. done. Qed.

Lemma quiet_retry_sleep self w : calm w → quiet_step w (retry_sleep self w).1.
Proof.
  intros Hc. unfold retry_sleep. destruct (negb _); [|done].
  pose proof (quiet_sys Random w eq_refl Hc) as H1.
  destruct (sys Random (env_tick w)) as [[r w1] ev1]. cbn [fst snd] in H1.
  pose proof (quiet_sys (Sleep (r + (1 # 100))%Q) w1 eq_refl (proj2 H1)) as H2.
  destruct (sys (Sleep _) (env_tick w1)) as [[[] w2] ev2]. cbn [fst snd] in *.
  by eapply quiet_step_trans.
Qed.

Lemma lock_loop_calm_success self timeout n w w1 tr :
  calm w → marker_written self (w_fs w) →
  run (lock_loop n self timeout) w = (Returned tt, w1, tr) →
  owned_state self (w_fs w1) ∧ calm w1.
Proof.
  revert w tr. induction n as [|n IH]; intros w tr Hc Hm.
  - cbn [lock_loop]. by rewrite run_Spin.
  - rewrite run_lock_loop_S. unfold loop_iter. cbn [sys].
    destruct (quiet_env_tick w Hc) as [Hfs Hc1]. rewrite Hfs.
    destruct Hm as (Hft & i & Hdi & Hii).
    unfold fs_link. rewrite Hdi.
    destruct (faults (w_fs w) !! _lockfile_path self) as [f|] eqn:Hfl.
    { cbv beta iota zeta. destruct (decide _) as [|Hn]; [done|].
      destruct Hn. apply errno_of_fault_not_EEXIST. }
    destruct (dir (w_fs w) !! _lockfile_path self) as [j|] eqn:Hdl; cbv beta iota zeta.
    + destruct (decide _); [done|]. destruct (Qlt_le_dec _ _); [done|].
      assert (calm (set_fs (w_fs w) (env_tick w))) as Hc2 by done.
      apply quiet_env_tick in Hc2 as [Hfs2 Hc2].
      pose proof (quiet_retry_sleep self _ Hc2) as [Hfs3 Hc3].
      destruct (retry_sleep self _) as [w3 evs]. cbn [fst] in *.
      specialize (IH w3).
      destruct (run (lock_loop n self timeout) w3) as [[o w'] tr'].
      intros [= -> -> <-]. eapply IH; [done| |done].
      rewrite Hfs3, Hfs2. cbn [w_fs set_fs]. by split; [|exists i].
    + intros [= <- <-].
      match goal with |- context [log_to ?r ?w'] =>
        assert (calm w') as Hc2 by done;
        destruct (quiet_log_to r w' Hc2) as [Hfs2 Hc3]
      end.
      split; [|done]. rewrite Hfs2. cbn [w_fs set_fs].
      assert (_tmpfile_path self ≠ _lockfile_path self) as Hne by congruence.
      unfold owned_state. cbn [dir inodes faults].
      split; [done|]. split; [done|]. exists i.
      rewrite lookup_insert_eq, lookup_insert_ne by done. done.
Qed.

Lemma fs_open_w_inr path fs h fs' :
  fs_open_w path fs = (inr h, fs') →
  h_path h = path ∧ dir fs' !! path = Some (h_ino h) ∧
  faults fs' = faults fs ∧ faults fs !! path = None.
Proof.
  unfold fs_open_w. destruct (faults fs !! path); [done|].
  destruct (dir fs !! path) as [i|] eqn:Hd; intros [= <- <-]; simpl;
    by rewrite ?lookup_insert_eq.
Qed.

Lemma fs_write_close_inr h content fs fs' :
  fs_write_close h content fs = (inr tt, fs') →
  dir fs' = dir fs ∧ inodes fs' !! h_ino h = Some content ∧ faults fs' = faults fs.
Proof.
  unfold fs_write_close. destruct (faults fs !! h_path h); [done|].
  intros [= <-]; simpl. by rewrite lookup_insert_eq.
Qed.

Lemma lock_calm_success self w w1 tr :
  calm w →
  run (lock self) w = (Returned tt, w1, tr) →
  owned_state self (w_fs w1) ∧ calm w1.
Proof.
  intros Hc. rewrite run_lock. unfold lock_prelude. cbn [sys].
  destruct (quiet_log_to (lock_log self) w Hc) as [Hfs0 Hc0].
  destruct (quiet_env_tick _ Hc0) as [Hfs1 Hc1].
  destruct (fs_open_w _ _) as [[e|h] fs1] eqn:Hopen; cbv beta iota zeta; [done|].
  apply fs_open_w_inr in Hopen as (Hhp & Hd1 & Hf1 & Hft).
  assert (calm (set_fs fs1 (env_tick (log_to (lock_log self) w)))) as Hc2 by done.
  destruct (quiet_env_tick _ Hc2) as [Hfs2 Hc3]. rewrite Hfs2. cbn [w_fs set_fs].
  destruct (fs_write_close _ _ _) as [[e|[]] fs2] eqn:Hwrite; cbv beta iota zeta; [done|].
  apply fs_write_close_inr in Hwrite as (Hd2 & Hi2 & Hf2).
  match goal with |- context [run (lock_loop ?n self ?T) (env_tick ?w')] =>
    assert (calm w') as Hc4 by done;
    destruct (quiet_env_tick _ Hc4) as [Hfs4 Hc5];
    pose proof (lock_loop_calm_success self T n (env_tick w') w1) as Hloop;
    destruct (run (lock_loop n self T) (env_tick w')) as [[o w''] tr']
  end.
  intros [= -> -> <-]. eapply Hloop; [done| |done].
  rewrite Hfs4. cbn [w_fs set_fs]. split; [congruence|]. exists (h_ino h).
  split; [congruence|done].
Qed.

Lemma run_unlink_returned force path w w' tr :
  calm w →
  run_unlink force path w = (Returned tt, w', tr) →
  dir (w_fs w') !! path = None ∧ calm w' ∧
  (∀ q, dir (w_fs w) !! q = None → dir (w_fs w') !! q = None) ∧
  ∃ r, tr = [EvUnlink path r] ∧ (force = false → r = inr tt).
Proof.
  intros [Hfs Hc]%quiet_env_tick. unfold run_unlink, fs_unlink. rewrite Hfs.
  destruct (faults (w_fs w) !! path) as [f|] eqn:Hf.
  { pose proof (errno_of_fault_not_ENOENT f).
    rewrite bool_decide_eq_false_2, andb_false_r by done. done. }
  destruct (dir (w_fs w) !! path) as [i|] eqn:Hd.
  - intros [= <- <-]. cbn [w_fs set_fs dir]. rewrite lookup_delete_eq.
    repeat split; [done| |by eexists].
    intros q Hq. destruct (decide (path = q)) as [->|]; [by rewrite lookup_delete_eq|].
    by rewrite lookup_delete_ne.
  - destruct force; [|done]. cbn. intros [= <- <-]. cbn [w_fs set_fs dir].
    repeat split; [done|done|done|]. by eexists.
Qed.

Lemma run_unlink_trace force path w w' tr :
  run_unlink force path w = (Returned tt, w', tr) →
  ∃ r, tr = [EvUnlink path r] ∧ (force = false → r = inr tt).
Proof.
  unfold run_unlink. destruct (fs_unlink path _) as [[e|[]] fs].
  - destruct force; cbn [andb negb]; [|done].
    destruct (bool_decide _); [|done]. intros [= <- <-]. by eexists.
  - intros [= <- <-]. by eexists.
Qed.

(** C8. When [lock()] has returned and [unlock()] then returns,
    [unlock()] has made its two removals in this order: the lock file,
    then the marker file (both succeed when [force] is [False]); and,
    with no interference from the environment, neither the lock file nor
    the marker file is left. *)
Theorem lock_unlock_round_trip (self : SimpleLock) (force : bool)
    (w w1 w2 : World) (tr1 tr2 : list event) :
  run (lock self) w = (Returned tt, w1, tr1) →
  run (unlock self force) w1 = (Returned tt, w2, tr2) →
  (∃ rd r1 r2,
     tr2 = [EvReadText (_lockfile_path self) rd;
            EvUnlink (_lockfile_path self) r1;
            EvUnlink (_tmpfile_path self) r2] ∧
     (force = false → r1 = inr tt ∧ r2 = inr tt)) ∧
  (calm w1 →
   dir (w_fs w2) !! _lockfile_path self = None ∧
   dir (w_fs w2) !! _tmpfile_path self = None).
Proof.
  intros _. rewrite run_unlock, run_is_locked. cbv zeta.
  destruct (fs_read_text _ _) as [e|content].
  { by destruct (decide (e ≠ ENOENT)). }
  destruct (bool_decide _); [|done].
  destruct (run_unlink force (_lockfile_path self) _) as [[[[]|e|] w3] tr3] eqn:Hu1;
    try done.
  destruct (run_unlink force (_tmpfile_path self) w3) as [[o w4] tr4] eqn:Hu2.
  intros [= -> -> <-]. split.
  - apply run_unlink_trace in Hu1 as (r1 & -> & Hr1).
    apply run_unlink_trace in Hu2 as (r2 & -> & Hr2).
    eexists _, r1, r2. split; [done|]. intros Hf. by split; [apply Hr1|apply Hr2].
  - intros Hc1.
    assert (calm (env_tick (unlock_entry self w1))) as Hc2.
    { apply quiet_env_tick. by apply (quiet_sys (Log (unlock_log self))). }
    apply run_unlink_returned in Hu1 as (Hd1 & Hc3 & _ & _); [|done].
    apply run_unlink_returned in Hu2 as (Hd2 & _ & Hkeep & _); [|done].
    split; [by apply Hkeep|done].
Qed.

(** ** Marker paths

    The marker paths of two processes on one lock path differ, and still
    differ when one of them is read back in text mode. *)

Lemma string_of_uint_digits (d : Decimal.uint) (c : Ascii.ascii) :
  has_char c (NilEmpty.string_of_uint d) = true → is_digit c = true.
Proof.
  induction d; simpl; try done;
    intros [Hc%Ascii.eqb_eq|H]%orb_true_iff; auto; by subst c.
Qed.

Lemma str_of_pid_no_char (c : Ascii.ascii) (pid : N) :
  is_digit c = false → has_char c (str_of_pid pid) = false.
Proof.
  intros Hc. destruct (has_char c (str_of_pid pid)) eqn:H; [|done].
  apply string_of_uint_digits in H. congruence.
Qed.

Lemma str_of_pid_inj (a b : N) : str_of_pid a = str_of_pid b → a = b.
Proof.
  unfold str_of_pid. intros H.
  assert (N.to_uint a = N.to_uint b) as Hu.
  { apply (f_equal NilEmpty.uint_of_string) in H. rewrite !NilEmpty.usu in H.
    congruence. }
  apply (f_equal N.of_uint) in Hu. by rewrite !DecimalN.Unsigned.of_to in Hu.
Qed.

Lemma has_char_app_here (c : Ascii.ascii) (a b : string) :
  has_char c (a +:+ String c b) = true.
Proof.
  induction a as [|c' a IH]; simpl.
  - by rewrite Ascii.eqb_refl.
  - rewrite IH. apply orb_true_r.
Qed.

Lemma has_char_app (c : Ascii.ascii) (a b : string) :
  has_char c (a +:+ b) = has_char c a || has_char c b.
Proof.
  induction a as [|c' a IH]; [done|].
  change (String c' a +:+ b) with (String c' (a +:+ b)). cbn [has_char].
  by rewrite IH, orb_assoc.
Qed.

Lemma split_at_last_char (c : Ascii.ascii) (x y d1 d2 : string) :
  has_char c d1 = false → has_char c d2 = false →
  x +:+ String c d1 = y +:+ String c d2 → x = y ∧ d1 = d2.
Proof.
  intros H1 H2. revert y. induction x as [|cx x IH]; intros [|cy y]; simpl.
  - by intros [= ->].
  - intros [= <- ->]. by rewrite has_char_app_here in H1.
  - intros [= -> <-]. by rewrite has_char_app_here in H2.
  - intros [= -> H]. apply IH in H as [-> ->]. done.
Qed.

Lemma universal_newlines_plain (s : string) :
  has_char CR s = false → universal_newlines s = s.
Proof.
  induction s as [|c s IH]; [done|]. cbn [has_char universal_newlines].
  intros [Hc Hs]%orb_false_iff. rewrite Ascii.eqb_sym in Hc. rewrite Hc.
  by rewrite IH.
Qed.

Lemma universal_newlines_cons (c : Ascii.ascii) (s : string) :
  universal_newlines (String c s) =
  if Ascii.eqb c CR then
    match s with
    | String c' s'' =>
        if Ascii.eqb c' LF then String LF (universal_newlines s'')
        else String LF (universal_newlines s)
    | EmptyString => String LF EmptyString
    end
  else String c (universal_newlines s).
Proof. done. Qed.

Lemma universal_newlines_app (s t : string) :
  (∀ t', t ≠ String LF t') →
  universal_newlines (s +:+ t) = universal_newlines s +:+ universal_newlines t.
Proof.
  intros Ht.
  cut (universal_newlines (s +:+ t) = universal_newlines s +:+ universal_newlines t ∧
       ∀ c, universal_newlines (String c s +:+ t) =
            universal_newlines (String c s) +:+ universal_newlines t).
  { by intros [? _]. }
  induction s as [|c' s [IHp IHq]].
  - split; [done|]. intros c.
    change (String c "" +:+ t) with (String c t).
    cbn [universal_newlines].
    destruct (Ascii.eqb c CR); [|done].
    destruct t as [|ct t]; [done|].
    destruct (Ascii.eqb ct LF) eqn:Hct; [|done].
    apply Ascii.eqb_eq in Hct as ->. by destruct (Ht t).
  - split; [apply IHq|]. intros c.
    change (String c (String c' s) +:+ t) with (String c (String c' (s +:+ t))).
    rewrite (universal_newlines_cons c (String c' (s +:+ t))).
    rewrite (universal_newlines_cons c (String c' s)). cbv iota.
    change (String c' (s +:+ t)) with (String c' s +:+ t).
    destruct (Ascii.eqb c CR).
    + destruct (Ascii.eqb c' LF).
      * by rewrite IHp.
      * by rewrite IHq.
    + by rewrite IHq.
Qed.

Lemma format_tmpfile_read_back (path : string) (a b : N) :
  universal_newlines (format_tmpfile path a) = format_tmpfile path b → a = b.
Proof.
  unfold format_tmpfile. rewrite universal_newlines_app by done.
  change ("." +:+ str_of_pid a) with (String dot (str_of_pid a)).
  change ("." +:+ str_of_pid b) with (String dot (str_of_pid b)).
  rewrite (universal_newlines_plain (String dot (str_of_pid a))).
  - intros H. apply split_at_last_char in H as [_ H];
      [by apply str_of_pid_inj|by apply str_of_pid_no_char..].
  - simpl. by apply str_of_pid_no_char.
Qed.

Lemma format_tmpfile_inj (path : string) (a b : N) :
  format_tmpfile path a = format_tmpfile path b → a = b.
Proof.
  unfold format_tmpfile.
  change ("." +:+ str_of_pid a) with (String dot (str_of_pid a)).
  change ("." +:+ str_of_pid b) with (String dot (str_of_pid b)).
  intros H. apply split_at_last_char in H as [_ H];
    [by apply str_of_pid_inj|by apply str_of_pid_no_char..].
Qed.

Lemma format_tmpfile_not_path (path : string) (a : N) :
  format_tmpfile path a ≠ path.
Proof.
  unfold format_tmpfile. induction path as [|c path IH]; simpl; [done|].
  intros [= H]. by apply IH.
Qed.

(** The marker is not the empty text either. *)
Lemma format_tmpfile_nonempty (path : string) (a : N) : format_tmpfile path a ≠ "".
Proof. unfold format_tmpfile. by destruct path. Qed.

(** ** After a successful [lock] *)

Lemma is_locked_owned (self : SimpleLock) (w : World) :
  calm w → owned_state self (w_fs w) →
  universal_newlines (_tmpfile_path self) = _tmpfile_path self →
  outcome_of (run (is_locked self) w) = Returned true.
Proof.
  intros [Hfs Hc]%quiet_env_tick (Hfl & Hft & i & Hdl & Hdt & Hi) Hplain.
  rewrite run_is_locked. unfold outcome_of, fs_read_text. cbn [fst]. rewrite Hfs.
  rewrite Hfl, Hdl, Hi. simpl. by rewrite Hplain, bool_decide_eq_true_2.
Qed.

Lemma is_locked_not_owner (self other : SimpleLock) (w : World) :
  calm w → owned_state self (w_fs w) →
  _lockfile_path other = _lockfile_path self →
  universal_newlines (_tmpfile_path self) ≠ _tmpfile_path other →
  outcome_of (run (is_locked other) w) = Returned false.
Proof.
  intros [Hfs Hc]%quiet_env_tick (Hfl & Hft & i & Hdl & Hdt & Hi) Hpath Hne.
  rewrite run_is_locked. unfold outcome_of, fs_read_text. cbn [fst]. rewrite Hfs, Hpath.
  rewrite Hfl, Hdl, Hi. simpl. by rewrite bool_decide_eq_false_2.
Qed.

Lemma run___init__ (path : string) (lg : option Logger) (no_sleep : bool) (w : World) :
  run (__init__ path lg no_sleep) w =
  (Returned (instance path (default null_logger lg) (w_pid (env_tick w))), env_tick w, []).
Proof. unfold __init__. rewrite run_bind, run_trigger. cbn [sys]. by rewrite run_mret. Qed.

(** X9. Ownership after [lock()], for a lock path without carriage return
    and with no interference: [is_locked()] of the instance that locked
    answers [True], and [is_locked()] of the instance of any other process
    on the same path answers [False]. *)
Lemma is_locked_after_lock (path : string) (lg lg' : Logger) (pid pid' : N)
    (w w1 : World) (tr : list event) :
  has_char CR path = false →
  calm w →
  run (lock (instance path lg pid)) w = (Returned tt, w1, tr) →
  outcome_of (run (is_locked (instance path lg pid)) w1) = Returned true ∧
  (pid' ≠ pid → outcome_of (run (is_locked (instance path lg' pid')) w1) = Returned false).
Proof.
  intros Hcr Hc Hlock. apply lock_calm_success in Hlock as [Hown Hc1]; [|done].
  split.
  - apply is_locked_owned; [done..|]. apply universal_newlines_plain.
    cbn [_tmpfile_path instance]. unfold format_tmpfile.
    rewrite !has_char_app, Hcr. by rewrite str_of_pid_no_char.
  - intros Hne. eapply is_locked_not_owner; [done..|].
    cbn [_tmpfile_path instance]. intros H%format_tmpfile_read_back. done.
Qed.

(** [lock()] returns at its first attempt when the lock path is free. *)
Lemma lock_returns_when_free (self : SimpleLock) (w : World) :
  calm w →
  faults (w_fs w) !! _tmpfile_path self = None →
  faults (w_fs w) !! _lockfile_path self = None →
  dir (w_fs w) !! _lockfile_path self = None →
  _tmpfile_path self ≠ _lockfile_path self →
  outcome_of (run (lock self) w) = Returned tt.
Proof.
  intros Hc Hft Hfl Hdl Hne. rewrite run_lock. unfold lock_prelude. cbn [sys].
  destruct (quiet_log_to (lock_log self) w Hc) as [Hfs0 Hc0].
  destruct (quiet_env_tick _ Hc0) as [Hfs1 Hc1]. rewrite Hfs1, Hfs0.
  destruct (fs_open_w _ _) as [[e|h] fs1] eqn:Hopen; cbv beta iota zeta.
  { unfold fs_open_w in Hopen. rewrite Hft in Hopen.
    by destruct (dir (w_fs w) !! _tmpfile_path self). }
  assert (dir fs1 !! _lockfile_path self = None) as Hdl1.
  { unfold fs_open_w in Hopen. rewrite Hft in Hopen.
    destruct (dir (w_fs w) !! _tmpfile_path self); injection Hopen as <- <-;
      cbn [dir]; by rewrite ?lookup_insert_ne. }
  apply fs_open_w_inr in Hopen as (Hhp & Hd1 & Hf1 & _).
  assert (calm (set_fs fs1 (env_tick (log_to (lock_log self) w)))) as Hc2 by done.
  destruct (quiet_env_tick _ Hc2) as [Hfs2 Hc3]. rewrite Hfs2. cbn [w_fs set_fs].
  unfold fs_write_close. rewrite Hhp, Hf1, Hft. cbv beta iota zeta.
  destruct (lock_fuel_S self) as [n ->]. rewrite run_lock_loop_S.
  unfold loop_iter. cbn [sys].
  match goal with |- context [fs_link _ _ (w_fs (env_tick (env_tick ?w')))] =>
    assert (calm w') as Hc4 by done;
    destruct (quiet_env_tick _ Hc4) as [Hfs4 Hc5];
    destruct (quiet_env_tick _ Hc5) as [Hfs6 Hc6];
    rewrite Hfs6, Hfs4
  end.
  cbn [w_fs set_fs]. unfold fs_link. cbn [dir faults].
  by rewrite Hfl, Hd1, Hdl1.
Qed.

(** [unlock()] returns when the instance holds the lock and its marker
    path reads back as it is. *)
Lemma unlock_returns_when_owned (self : SimpleLock) (force : bool) (w : World) :
  calm w → owned_state self (w_fs w) →
  _tmpfile_path self ≠ _lockfile_path self →
  universal_newlines (_tmpfile_path self) = _tmpfile_path self →
  outcome_of (run (unlock self force) w) = Returned tt.
Proof.
  intros Hc Hown Hne Hplain. rewrite run_unlock.
  pose proof (quiet_sys (Log (unlock_log self)) w eq_refl Hc) as [Hfs0 Hc0].
  fold (unlock_entry self w) in Hfs0, Hc0.
  pose proof (is_locked_owned self (unlock_entry self w) Hc0) as Hlocked.
  rewrite Hfs0 in Hlocked. specialize (Hlocked Hown Hplain).
  rewrite run_is_locked in Hlocked |- *. unfold outcome_of in Hlocked.
  cbn [fst] in Hlocked. cbv zeta. rewrite Hlocked.
  destruct (quiet_env_tick _ Hc0) as [Hfs1 Hc1].
  destruct (quiet_env_tick _ Hc1) as [Hfs2 Hc2].
  destruct Hown as (Hfl & Hft & i & Hdl & Hdt & Hi).
  unfold run_unlink at 1. unfold fs_unlink. rewrite Hfs2, Hfs1, Hfs0, Hfl, Hdl.
  match goal with |- context [run_unlink force _ ?w'] =>
    assert (calm w') as Hc3 by done;
    destruct (quiet_env_tick _ Hc3) as [Hfs3 Hc4]
  end.
  unfold run_unlink, fs_unlink. rewrite Hfs3. cbn [w_fs set_fs dir faults].
  by rewrite Hft, lookup_delete_ne, Hdt.
Qed.

(** What the [except] clauses of [unlock] let through: under [force] a
    removal that fails with [ENOENT] is passed over, every other failure is
    raised, and without [force] every failure is raised. *)
Lemma run_unlink_outcome (force : bool) (path : string) (w : World) :
  let r := (fs_unlink path (w_fs (env_tick w))).1 in
  outcome_of (run_unlink force path w) =
  match r with
  | inr _ => Returned tt
  | inl e => if force && bool_decide (e = ENOENT) then Returned tt else Raised (OSError e)
  end.
Proof.
  unfold run_unlink, outcome_of.
  destruct (fs_unlink path _) as [[e|[]] fs]; cbn [fst]; [|done].
  by destruct (force && _).
Qed.

(** X11. [unlock] on a lock file that is not there raises
    [LockError('Not locked by myself')], with [force=True] as with
    [force=False]: the ownership test comes first. *)
Lemma unlock_absent_raises (self : SimpleLock) (force : bool) (w : World) :
  calm w →
  faults (w_fs w) !! _lockfile_path self = None →
  dir (w_fs w) !! _lockfile_path self = None →
  outcome_of (run (unlock self force) w) = Raised (LockError "Not locked by myself").
Proof.
  intros Hc Hf Hd. rewrite run_unlock, run_is_locked. cbv zeta.
  pose proof (quiet_sys (Log (unlock_log self)) w eq_refl Hc) as [Hfs0 Hc0].
  fold (unlock_entry self w) in Hfs0, Hc0.
  destruct (quiet_env_tick _ Hc0) as [Hfs1 _].
  unfold fs_read_text. rewrite Hfs1, Hfs0, Hf, Hd.
  by destruct (decide (ENOENT ≠ ENOENT)).
Qed.

(** When the ownership test has answered [True] and nothing interferes,
    the lock file is there: its removal cannot fail with [ENOENT], so the
    [force] clause of the first removal is never used. *)
Lemma unlock_first_removal_never_ENOENT (self : SimpleLock) (w : World) :
  calm w →
  outcome_of (run (is_locked self) w) = Returned true →
  (fs_unlink (_lockfile_path self) (w_fs (env_tick (env_tick w)))).1 ≠ inl ENOENT.
Proof.
  intros [Hfs Hc]%quiet_env_tick. rewrite run_is_locked. unfold outcome_of. cbn [fst].
  destruct (quiet_env_tick _ Hc) as [Hfs1 _]. rewrite Hfs1.
  destruct (fs_read_text _ _) as [e|content] eqn:Hr.
  { by destruct (decide (e ≠ ENOENT)). }
  intros _. apply fs_read_text_content in Hr as (Hf & i & Hd & _).
  unfold fs_unlink. by rewrite Hf, Hd.
Qed.

(** ** What [is_locked] compares *)

(** C6. [is_locked()] compares the text that [f.read()] returns, not the
    content of the lock file: the file is read in text mode, so a carriage
    return, alone or before a line feed, comes back as a line feed.  For a
    lock file of ASCII text the answer is [True] exactly when the content
    so translated is the marker path; it is [True] exactly when the content
    is the marker path only for a content without carriage return.  A lock
    file that holds exactly the marker path of [lockCR] answers [False];
    a lock file that holds another text than the marker path of [lockLF]
    answers [True].  When the lock file is not there the answer is [False],
    an [OSError] with another errno than [ENOENT] is raised to the caller,
    and [is_locked()] changes no file. *)
Theorem is_locked_compares_translated_text :
  (∀ (self : SimpleLock) (w : World) (i : nat) (c : string),
     let fs := w_fs (env_tick w) in
     faults fs !! _lockfile_path self = None →
     dir fs !! _lockfile_path self = Some i →
     inodes fs !! i = Some c →
     ascii_text c = true →
     outcome_of (run (is_locked self) w) =
       Returned (bool_decide (universal_newlines c = _tmpfile_path self)) ∧
     (has_char CR c = false →
        (outcome_of (run (is_locked self) w) = Returned true ↔ c = _tmpfile_path self))) ∧
  (inodes (w_fs cr_held) !! 0%nat = Some (_tmpfile_path lockCR) ∧
   dir (w_fs cr_held) !! _lockfile_path lockCR = Some 0%nat ∧
   ascii_text (_tmpfile_path lockCR) = true ∧
   outcome_of (run (is_locked lockCR) cr_held) = Returned false) ∧
  (inodes (w_fs crlf_held) !! 0%nat = Some crlf_text ∧
   dir (w_fs crlf_held) !! _lockfile_path lockLF = Some 0%nat ∧
   ascii_text crlf_text = true ∧
   crlf_text ≠ _tmpfile_path lockLF ∧
   outcome_of (run (is_locked lockLF) crlf_held) = Returned true) ∧
  (∀ (self : SimpleLock) (w : World),
     let fs := w_fs (env_tick w) in
     (faults fs !! _lockfile_path self = None → dir fs !! _lockfile_path self = None →
      outcome_of (run (is_locked self) w) = Returned false) ∧
     (∀ e, fs_read_text (_lockfile_path self) fs = inl e → e ≠ ENOENT →
           outcome_of (run (is_locked self) w) = Raised (OSError e)) ∧
     w_fs (world_of (run (is_locked self) w)) = fs).
Proof.
  split; [|split; [|split]].
  - intros self w i c fs Hf Hd Hi _. rewrite run_is_locked. cbv zeta. fold fs.
    unfold fs_read_text. rewrite Hf, Hd, Hi. unfold outcome_of. cbn [fst default].
    change (default "" (Some c)) with c.
    split; [done|]. intros Hcr. rewrite universal_newlines_plain by done.
    split; [by intros [= ?%bool_decide_eq_true]|intros ->; by rewrite bool_decide_eq_true_2].
  - repeat split; by vm_compute.
  - repeat split; try by vm_compute. 
  - intros self w fs. rewrite run_is_locked. cbv zeta. fold fs.
    unfold outcome_of, world_of. cbn [fst snd]. split; [|split; [|done]].
    + intros Hf Hd. assert (fs_read_text (_lockfile_path self) fs = inl ENOENT) as ->
        by (by apply fs_read_text_ENOENT).
      by destruct (decide (ENOENT ≠ ENOENT)).
    + intros e -> Hne. by destruct (decide (e ≠ ENOENT)).
Qed.

(** ** Scenarios *)

(** C2. The [no_sleep] argument of [__init__] is never stored: the instance
    has [_no_sleep = False] whatever is passed.  So an instance made with
    [no_sleep=True] on a lock held by another process sleeps between its
    attempts like any other: here 0.51 s between the first attempt and the
    second. *)
Theorem no_sleep_argument_is_ignored :
  (∀ path lg no_sleep w self,
     outcome_of (run (__init__ path lg no_sleep) w) = Returned self →
     _no_sleep self = false) ∧
  let r := run (self ← __init__ "/tmp/x.lock" None true; lock self) contended in
  outcome_of r = Raised (LockError "Timeout") ∧
  link_results (trace_of r) = [inl EEXIST; inl EEXIST] ∧
  sleeps (trace_of r) = [(4503599627370496 # 9007199254740992) + (1 # 100)]%Q.
Proof.
  split.
  - intros path lg no_sleep w self. rewrite run___init__. by intros [= <-].
  - by vm_compute.
Qed.

(** C3. [unlock(force=True)] twice in a row: the first call removes the
    lock file and the marker file, the second one raises
    [LockError('Not locked by myself')]. *)
Theorem unlock_force_twice_raises :
  let w1 := world_of (run (lock lockA) world0) in
  let first := run (unlock lockA true) w1 in
  let second := run (unlock lockA true) (world_of first) in
  outcome_of (run (lock lockA) world0) = Returned tt ∧
  outcome_of first = Returned tt ∧
  dir (w_fs (world_of first)) !! _lockfile_path lockA = None ∧
  dir (w_fs (world_of first)) !! _tmpfile_path lockA = None ∧
  outcome_of second = Raised (LockError "Not locked by myself").
Proof. by vm_compute. Qed.

(** C7. On a lock path with a carriage return, [lock()] returns and the
    lock file is a link to the marker file, which holds the marker path;
    yet [is_locked()] of the same instance answers [False], because the
    text read back has a line feed where the path has a carriage return.
    [unlock()] then raises and the two files stay. *)
Theorem is_locked_false_after_lock_with_carriage_return :
  let locked := run (lock lockCR) world0 in
  let fs := w_fs (world_of locked) in
  outcome_of locked = Returned tt ∧
  owned_state lockCR fs ∧
  outcome_of (run (is_locked lockCR) (world_of locked)) = Returned false ∧
  fs_read_text cr_path fs = inr ("/tmp/a" +:+ String LF "b.lock.4242") ∧
  outcome_of (run (unlock lockCR false) (world_of locked)) =
    Raised (LockError "Not locked by myself").
Proof.
  split; [by vm_compute|]. split; [|by vm_compute].
  split; [by vm_compute|]. split; [by vm_compute|].
  exists 0%nat. by vm_compute.
Qed.

Lemma unlock_not_owned_raises_witness :
  outcome_of (run (is_locked lockA) (unlock_entry lockA world0)) = Returned false ∧
  outcome_of (run (unlock lockA false) world0) = Raised (LockError "Not locked by myself") ∧
  trace_of (run (unlock lockA false) world0) = [EvReadText "/tmp/x.lock" (inl ENOENT)].
Proof.
  assert (outcome_of (run (is_locked lockA) (unlock_entry lockA world0)) = Returned false)
    as H by (vm_compute; reflexivity).
  split; [exact H|].
  destruct (unlock_not_owned_raises lockA false world0 H) as [Hrun _].
  rewrite Hrun. split; reflexivity.
Defined.

Lemma lock_unlock_round_trip_witness :
  let locked := run (lock lockA) world0 in
  let unlocked := run (unlock lockA false) (world_of locked) in
  locked = (Returned tt, world_of locked, trace_of locked) ∧
  unlocked = (Returned tt, world_of unlocked, trace_of unlocked) ∧
  calm (world_of locked) ∧
  dir (w_fs (world_of unlocked)) !! "/tmp/x.lock" = None ∧
  dir (w_fs (world_of unlocked)) !! "/tmp/x.lock.4242" = None.
Proof.
  intros locked unlocked.
  assert (locked = (Returned tt, world_of locked, trace_of locked)) as H1
    by (vm_compute; reflexivity).
  assert (unlocked = (Returned tt, world_of unlocked, trace_of unlocked)) as H2
    by (vm_compute; reflexivity).
  assert (calm (world_of locked)) as H0 by (vm_compute; constructor).
  split; [exact H1|]. split; [exact H2|]. split; [exact H0|].
  exact (proj2 (lock_unlock_round_trip lockA false world0 _ _ _ _ H1 H2) H0).
Defined.

(** * Properties of several processes *)

Section pool_facts.
Import Pool.
Variable path : string.
Variable logger_of : N → Logger.

Local Abbreviation self := (Pool.self path logger_of).
Local Abbreviation method_prog := (Pool.method_prog path logger_of).
Local Abbreviation holds_after := (Pool.holds_after path).
Local Abbreviation exec := (Pool.exec path).
Local Abbreviation step := (Pool.step path logger_of).
Local Abbreviation steps := (Pool.steps path logger_of).
Local Abbreviation initial := (Pool.initial path).
Local Abbreviation code_of := (Pool.code_of path logger_of).
Local Abbreviation pc_step := (Pool.pc_step path logger_of).
Local Abbreviation tmp := (Pool.tmp path).
Local Abbreviation fs_inv := (Pool.fs_inv path).
Local Abbreviation inv_members := (Pool.inv_members path).
Local Abbreviation inv_dangling := (Pool.inv_dangling path).
Local Abbreviation inv_alias := (Pool.inv_alias path).
Local Abbreviation inv_content := (Pool.inv_content path).
Local Abbreviation inv_held := (Pool.inv_held path).
Local Abbreviation inv_owner := (Pool.inv_owner path).
Local Abbreviation pc_ok := (Pool.pc_ok path).
Local Abbreviation proc_ok := (Pool.proc_ok path logger_of).
Local Abbreviation Inv := (Pool.Inv path logger_of).

(** ** The points of a method follow its code *)

Lemma exec_code_of (pid : N) (p : pc) (h : bool) (w : World) :
  exec pid (code_of pid p) h w =
  (λ '(p', h', w'), (code_of pid p', h', w')) <$> pc_step pid p h w.
Proof.
  pose proof (format_tmpfile_not_path path pid) as Hne.
  destruct p as [| |f| |[|fuel] timeout| |e|fuel timeout|fuel timeout|r fuel timeout
                |force|force|force|force| |[[]|e]|]; try done.
  all: unfold exec, pc_step; cbn [code_of lock_loop];
    unfold is_locked, _read_lockfile, os_call, trigger;
    change (_lockfile_path (self pid)) with path;
    cbn [mbind mret prog_bind prog_ret bind try_except sys holds_after unless_forced_ENOENT].
  - destruct (fs_open_w _ _) as [[e|f] fs]; reflexivity.
  - destruct (fs_write_close _ _ _) as [[e|[]] fs]; reflexivity.
  - destruct (fs_link _ _ _) as [[e|[]] fs];
      cbn [mbind mret prog_bind prog_ret bind try_except sys holds_after unless_forced_ENOENT].
    + destruct (decide (e ≠ EEXIST)); reflexivity.
    + rewrite decide_True by done. reflexivity.
  - destruct (Qlt_le_dec _ _); reflexivity.
  - destruct (fs_read_text _ _) as [e|c];
      cbn [mbind mret prog_bind prog_ret bind try_except sys holds_after unless_forced_ENOENT].
    + destruct (decide (e ≠ ENOENT)); reflexivity.
    + destruct (decide (c = _tmpfile_path (self pid))) as [->|Hc].
      * rewrite bool_decide_eq_true_2 by done. reflexivity.
      * rewrite bool_decide_eq_false_2 by congruence. reflexivity.
  - destruct (fs_unlink _ _) as [[e|[]] fs];
      cbn [mbind mret prog_bind prog_ret bind try_except sys holds_after unless_forced_ENOENT].
    + destruct (negb _); reflexivity.
    + rewrite decide_True by done. reflexivity.
  - destruct (fs_unlink _ _) as [[e|[]] fs];
      cbn [mbind mret prog_bind prog_ret bind try_except sys holds_after unless_forced_ENOENT].
    + destruct (negb _); reflexivity.
    + rewrite decide_False by done. reflexivity.
  - destruct (fs_read_text _ _) as [e|c];
      cbn [mbind mret prog_bind prog_ret bind try_except sys holds_after unless_forced_ENOENT].
    + destruct (decide (e ≠ ENOENT)); reflexivity.
    + reflexivity.
Qed.

(** ** The invariant of the file system *)

Lemma tmp_not_path pid : tmp pid ≠ path.
Proof. apply format_tmpfile_not_path. Qed.

Lemma tmp_inj p q : tmp p = tmp q → p = q.
Proof. apply format_tmpfile_inj. Qed.

Lemma fs_inv_unique M H fs p q : fs_inv M H fs → H p → H q → p = q.
Proof.
  intros I Hp Hq.
  destruct (inv_held _ _ _ I p Hp) as (i & Hl & Hi).
  destruct (inv_held _ _ _ I q Hq) as (j & Hl' & Hj).
  assert (i = j) as -> by congruence.
  apply (inv_alias _ _ _ I p q j); [by apply (inv_members _ _ _ I)..|done|done].
Qed.

Lemma fs_inv_same M M' H H' fs fs' :
  fs_inv M H fs →
  dir fs' = dir fs → inodes fs' = inodes fs →
  (∀ p, M' p ↔ M p) → (∀ p, H' p ↔ H p) →
  fs_inv M' H' fs'.
Proof.
  intros [I1 I2 I3 I4 I5 I6] Hd Hi HM HH.
  split; unfold no_dangling in *; rewrite ?Hd, ?Hi; try done.
  - intros p Hp%HH. apply HM. auto.
  - intros p q i Hp%HM Hq%HM. eauto.
  - intros p i c Hp%HM. eauto.
  - intros p Hp%HH. auto.
  - intros i Hl. destruct (I6 i Hl) as [p Hp]. exists p. by apply HH.
Qed.

Lemma fs_open_w_spec (p : string) fs f fs' :
  fs_open_w p fs = (inr f, fs') →
  h_path f = p ∧
  dir fs' !! p = Some (h_ino f) ∧
  (∀ q, q ≠ p → dir fs' !! q = dir fs !! q) ∧
  inodes fs' = <[h_ino f := ""]> (inodes fs) ∧
  (dir fs !! p = Some (h_ino f) ∨
   dir fs !! p = None ∧ inodes fs !! h_ino f = None).
Proof.
  unfold fs_open_w. destruct (faults fs !! p); [done|].
  destruct (dir fs !! p) as [i|] eqn:Hd; intros [= <- <-]; cbn [h_path h_ino dir inodes].
  - repeat split; auto.
  - rewrite lookup_insert_eq. repeat split; auto.
    + intros q Hq. by rewrite lookup_insert_ne.
    + right. split; [done|]. apply not_elem_of_dom. apply is_fresh.
Qed.

Lemma fs_inv_open M H fs pid f fs' :
  fs_inv M H fs → M pid →
  fs_open_w (tmp pid) fs = (inr f, fs') →
  fs_inv M H fs'.
Proof.
  intros [I1 I2 I3 I4 I5 I6] Hm (Hp & Hd & Hother & Hi & Hwas)%fs_open_w_spec.
  assert (∀ q i, q ≠ pid → dir fs' !! tmp q = Some i → dir fs !! tmp q = Some i) as Hq.
  { intros q i Hne. rewrite Hother; [done|]. by intros ?%tmp_inj. }
  assert (∀ q, M q → dir fs !! tmp q = Some (h_ino f) → q = pid) as Hmine.
  { intros q Hmq Hdq. destruct Hwas as [Hwas|[_ Hnone]].
    - by eapply I3.
    - destruct (I2 _ _ Hdq) as [c Hc]. congruence. }
  split; try done.
  - intros q i Hdq. rewrite Hi. destruct (decide (q = tmp pid)) as [->|Hne].
    + rewrite Hd in Hdq. injection Hdq as <-. by rewrite lookup_insert_eq.
    + rewrite Hother in Hdq by done. destruct (I2 _ _ Hdq) as [c Hc].
      destruct (decide (h_ino f = i)) as [->|]; [by rewrite lookup_insert_eq|].
      by rewrite lookup_insert_ne.
  - intros p q i Hmp Hmq Hdp Hdq.
    destruct (decide (p = pid)) as [->|Hnp], (decide (q = pid)) as [->|Hnq]; try done.
    + rewrite Hd in Hdp. injection Hdp as <-. symmetry. by apply Hmine, Hq.
    + rewrite Hd in Hdq. injection Hdq as <-. by apply Hmine, Hq.
    + eapply I3; eauto.
  - intros p i c Hmp Hdp. rewrite Hi.
    destruct (decide (h_ino f = i)) as [->|Hni].
    + rewrite lookup_insert_eq. intros [= <-]. by right.
    + rewrite lookup_insert_ne by done.
      destruct (decide (p = pid)) as [->|Hnp]; [congruence|].
      eapply I4; eauto.
  - intros p Hhp. destruct (I5 p Hhp) as (i & Hl & Ht). exists i.
    rewrite Hother by (symmetry; apply tmp_not_path). split; [done|].
    destruct (decide (p = pid)) as [->|Hnp].
    + destruct Hwas as [Hwas|[Hwas _]]; congruence.
    + rewrite Hother; [done|]. by intros ?%tmp_inj.
  - intros i. rewrite Hother by (symmetry; apply tmp_not_path). apply I6.
Qed.

Lemma fs_inv_write M H fs pid f fs' :
  fs_inv M H fs → M pid →
  dir fs !! tmp pid = Some (h_ino f) →
  fs_write_close f (tmp pid) fs = (inr tt, fs') →
  fs_inv M H fs'.
Proof.
  intros [I1 I2 I3 I4 I5 I6] Hm Hd. unfold fs_write_close.
  destruct (faults fs !! h_path f); [done|]. intros [= <-].
  split; unfold no_dangling; cbn [dir inodes]; try done.
  - intros q i Hdq. destruct (I2 _ _ Hdq) as [c Hc].
    destruct (decide (h_ino f = i)) as [->|]; [by rewrite lookup_insert_eq|].
    by rewrite lookup_insert_ne.
  - intros p i c Hmp Hdp.
    destruct (decide (h_ino f = i)) as [Heq|Hni].
    + rewrite Heq, lookup_insert_eq. intros [= <-]. left.
      f_equal. symmetry. rewrite Heq in Hd. eapply I3; eauto.
    + rewrite lookup_insert_ne by done. eapply I4; eauto.
Qed.

Lemma fs_inv_link M H H' fs pid i :
  fs_inv M H fs → M pid →
  dir fs !! path = None → dir fs !! tmp pid = Some i →
  H' pid → (∀ q, H' q → q = pid ∨ H q) →
  fs_inv M H' (mkFS (<[path := i]> (dir fs)) (inodes fs) (faults fs)).
Proof.
  intros [I1 I2 I3 I4 I5 I6] Hm Hl Ht Hpid HH'.
  assert (∀ q, ¬ H q) as Hnone.
  { intros q Hq. destruct (I5 q Hq) as (j & Hj & _). congruence. }
  assert (∀ q, dir (mkFS (<[path := i]> (dir fs)) (inodes fs) (faults fs)) !! tmp q
               = dir fs !! tmp q) as Htmp.
  { intros q. cbn [dir]. rewrite lookup_insert_ne; [done|]. symmetry. apply tmp_not_path. }
  split.
  - intros q [->|Hq]%HH'; [done|]. by destruct (Hnone q).
  - intros q j. cbn [dir inodes]. destruct (decide (q = path)) as [->|Hne].
    + rewrite lookup_insert_eq. intros [= <-]. eauto.
    + rewrite lookup_insert_ne by done. eauto.
  - intros p q j Hmp Hmq. rewrite !Htmp. eauto.
  - intros p j c Hmp. rewrite Htmp. cbn [inodes]. eauto.
  - intros q [->|Hq]%HH'; [|by destruct (Hnone q)].
    exists i. rewrite Htmp. cbn [dir]. by rewrite lookup_insert_eq.
  - intros j _. by exists pid.
Qed.

Lemma fs_inv_unlink_lock M H H' fs pid :
  fs_inv M H fs → H pid →
  (∀ q, H' q → H q ∧ q ≠ pid) →
  fs_inv M H' (mkFS (delete path (dir fs)) (inodes fs) (faults fs)).
Proof.
  intros I Hpid HH'.
  assert (∀ q, H q → pid = q) as Huniq.
  { intros q Hq. by eapply fs_inv_unique. }
  destruct I as [I1 I2 I3 I4 I5 I6].
  assert (∀ q, ¬ H' q) as Hnone.
  { intros q [Hq Hne]%HH'. destruct Hne. symmetry. by apply Huniq. }
  assert (∀ q, dir (mkFS (delete path (dir fs)) (inodes fs) (faults fs)) !! tmp q
               = dir fs !! tmp q) as Htmp.
  { intros q. cbn [dir]. rewrite lookup_delete_ne; [done|]. symmetry. apply tmp_not_path. }
  split.
  - intros q Hq. by destruct (Hnone q).
  - intros q j. cbn [dir inodes]. intros [_ Hq]%lookup_delete_Some. eauto.
  - intros p q j Hmp Hmq. rewrite !Htmp. eauto.
  - intros p j c Hmp. rewrite Htmp. cbn [inodes]. eauto.
  - intros q Hq. by destruct (Hnone q).
  - intros j. cbn [dir]. by rewrite lookup_delete_eq.
Qed.

Lemma fs_inv_unlink_tmp M H fs pid :
  fs_inv M H fs → ¬ H pid →
  fs_inv M H (mkFS (delete (tmp pid) (dir fs)) (inodes fs) (faults fs)).
Proof.
  intros [I1 I2 I3 I4 I5 I6] Hpid.
  split; unfold no_dangling; cbn [dir inodes]; try done.
  - intros q j [_ Hq]%lookup_delete_Some. eauto.
  - intros p q j Hmp Hmq [_ Hp]%lookup_delete_Some [_ Hq]%lookup_delete_Some. eauto.
  - intros p j c Hmp [_ Hp]%lookup_delete_Some. eauto.
  - intros q Hq. destruct (I5 q Hq) as (i & Hl & Ht). exists i.
    rewrite !lookup_delete_ne; [done| |].
    + intros ?%tmp_inj. congruence.
    + apply tmp_not_path.
  - intros j. rewrite lookup_delete_ne by apply tmp_not_path. apply I6.
Qed.

(** ** The invariant of the processes *)

Lemma member_update w w' ps pid pr pr' q :
  ps !! pid = Some pr →
  member (mkState w' (<[pid := pr']> ps)) q ↔ member (mkState w ps) q.
Proof.
  intros Hpid. unfold member. cbn [st_procs].
  destruct (decide (pid = q)) as [->|Hne].
  - rewrite lookup_insert_eq, Hpid. split; eauto.
  - by rewrite lookup_insert_ne.
Qed.

Lemma holds_update w' ps pid pr' q :
  holds (mkState w' (<[pid := pr']> ps)) q ↔
  (q = pid ∧ p_holds pr' = true) ∨ (q ≠ pid ∧ ∃ pr, ps !! q = Some pr ∧ p_holds pr = true).
Proof.
  unfold holds. cbn [st_procs]. destruct (decide (pid = q)) as [->|Hne].
  - rewrite lookup_insert_eq. split.
    + intros (pr & [= <-] & Hh). by left.
    + intros [[_ Hh]|[? _]]; [eauto|done].
  - rewrite lookup_insert_ne by done. split.
    + intros H. right. split; [congruence|done].
    + intros [[? _]|[_ H]]; [congruence|done].
Qed.

Lemma holds_same w w' ps pid pr pr' q :
  ps !! pid = Some pr → p_holds pr' = p_holds pr →
  holds (mkState w' (<[pid := pr']> ps)) q ↔ holds (mkState w ps) q.
Proof.
  intros Hpid Hh. rewrite holds_update. unfold holds. cbn [st_procs]. split.
  - intros [[-> Hh']|[_ H]]; [|done]. exists pr. split; [done|congruence].
  - intros (pr0 & Hq & Hh0). destruct (decide (q = pid)) as [->|Hne].
    + left. split; [done|]. congruence.
    + right. eauto.
Qed.

(** A step of one process, from the invariant of the file system after it
    and what is known at the point it reaches. *)
Lemma Inv_update w w' ps pid pr pr' :
  Inv (mkState w ps) →
  ps !! pid = Some pr →
  fs_inv (member (mkState w ps)) (holds (mkState w' (<[pid := pr']> ps))) (w_fs w') →
  (∀ q, q ≠ pid → dir (w_fs w') !! tmp q = dir (w_fs w) !! tmp q) →
  proc_ok (w_fs w') pid pr' →
  Inv (mkState w' (<[pid := pr']> ps)).
Proof.
  intros [I Hprocs] Hpid I' Hdir Hok. split.
  - cbn [st_world]. eapply fs_inv_same; [exact I'|done|done| |done].
    intros q. by eapply member_update.
  - cbn [st_world st_procs]. intros q prq. destruct (decide (pid = q)) as [->|Hne].
    + rewrite lookup_insert_eq. by intros [= <-].
    + rewrite lookup_insert_ne by done. intros Hq.
      specialize (Hprocs q prq Hq). cbn [st_world] in Hprocs.
      unfold proc_ok in *. destruct (p_code prq) as [code|]; [|done].
      destruct Hprocs as (p & -> & Hp). exists p. split; [done|].
      destruct p; cbn [pc_ok] in *; rewrite ?Hdir by done; done.
Qed.

(** A step that leaves the files and the holders as they are. *)
Lemma Inv_same_fs w w' ps pid pr pr' :
  Inv (mkState w ps) →
  ps !! pid = Some pr →
  dir (w_fs w') = dir (w_fs w) → inodes (w_fs w') = inodes (w_fs w) →
  p_holds pr' = p_holds pr →
  proc_ok (w_fs w') pid pr' →
  Inv (mkState w' (<[pid := pr']> ps)).
Proof.
  intros HI Hpid Hd Hi Hh Hok. eapply Inv_update; eauto.
  - destruct HI as [I _]. cbn [st_world] in I.
    eapply fs_inv_same; [exact I|done|done|done|].
    intros q. by eapply holds_same.
  - intros q _. by rewrite Hd.
Qed.

(** The ownership test answers [True] to the holder only. *)
Lemma owner_test_true M H fs pid content :
  fs_inv M H fs → M pid →
  fs_read_text path fs = inr content → content = tmp pid →
  H pid.
Proof.
  intros I Hm (Hf & i & Hl & ->)%fs_read_text_content Hc.
  destruct (inv_owner _ _ _ I i Hl) as [q Hq].
  destruct (inv_held _ _ _ I q Hq) as (j & Hl' & Ht).
  assert (j = i) as -> by congruence.
  destruct (inv_dangling _ _ _ I _ _ Ht) as [c Hi].
  rewrite Hi in Hc. cbn in Hc.
  destruct (inv_content _ _ _ I q i c (inv_members _ _ _ I q Hq) Ht Hi) as [->| ->].
  - apply format_tmpfile_read_back in Hc. by subst.
  - by destruct (format_tmpfile_nonempty path pid).
Qed.

Lemma w_fs_sys_pure {X} (c : call X) (w : World) :
  pure_call c = true → w_fs (sys c w).1.2 = w_fs w.
Proof. destruct c; try done; simpl; by destruct (decide _). Qed.

Lemma proc_ok_at fs pid p h :
  pc_ok pid p h fs → proc_ok fs pid (mkProc (Some (code_of pid p)) h).
Proof. intros Hok. by exists p. Qed.

Lemma Inv_pc_step w w' ps pid p p' h h' :
  Inv (mkState w ps) →
  ps !! pid = Some (mkProc (Some (code_of pid p)) h) →
  pc_ok pid p h (w_fs w) →
  pc_step pid p h w = Some (p', h', w') →
  Inv (mkState w' (<[pid := mkProc (Some (code_of pid p')) h']> ps)).
Proof.
  intros HI Hpid Hok Hstep.
  assert (member (mkState w ps) pid) as Hm by (by eexists).
  pose proof HI as [I _]. cbn [st_world] in I.
  destruct p as [| |f| |[|fuel] timeout| |e|fuel timeout|fuel timeout|r fuel timeout
                |force|force|force|force| |res|]; cbn [pc_step] in Hstep; try done.
  - (* AtLock *)
    injection Hstep as <- <- <-.
    eapply Inv_same_fs; eauto; try (by apply proc_ok_at); cbn; by destruct (decide _).
  - (* AtOpen *)
    destruct (fs_open_w _ _) as [[e|f] fs'] eqn:Hopen; injection Hstep as <- <- <-.
    + assert (fs' = w_fs w) as ->.
      { unfold fs_open_w in Hopen. cbn [w_fs as_process] in Hopen.
        destruct (faults (w_fs w) !! _); [congruence|].
        by destruct (dir (w_fs w) !! _). }
      eapply Inv_same_fs; eauto. by apply proc_ok_at.
    + cbn [w_fs as_process] in Hopen.
      pose proof Hopen as (Hp & Hd & Hother & Hi & Hwas)%fs_open_w_spec.
      eapply Inv_update; eauto; cbn [w_fs set_fs].
      * eapply fs_inv_same; [by eapply fs_inv_open|done|done|done|].
        intros q. by eapply holds_same.
      * intros q Hq. apply Hother. by intros ?%tmp_inj.
      * by apply proc_ok_at.
  - (* AtWrite *)
    destruct Hok as [Hp Hd]. cbn [w_fs as_process] in Hstep.
    destruct (fs_write_close _ _ _) as [[e|[]] fs'] eqn:Hwrite; injection Hstep as <- <- <-.
    + assert (fs' = w_fs w) as ->.
      { unfold fs_write_close in Hwrite. destruct (faults (w_fs w) !! _); congruence. }
      eapply Inv_same_fs; eauto. by apply proc_ok_at.
    + eapply Inv_update; eauto; cbn [w_fs set_fs].
      * eapply fs_inv_same; [by eapply fs_inv_write|done|done|done|].
        intros q. by eapply holds_same.
      * intros q Hq. unfold fs_write_close in Hwrite.
        destruct (faults (w_fs w) !! _); [done|]. by injection Hwrite as <-.
      * apply proc_ok_at. cbn [pc_ok]. unfold fs_write_close in Hwrite.
        destruct (faults (w_fs w) !! _); [done|]. injection Hwrite as <-.
        cbn [dir]. by rewrite Hd.
  - (* AtDeadline *)
    injection Hstep as <- <- <-. eapply Inv_same_fs; eauto. by apply proc_ok_at.
  - (* AtLoop *)
    cbn [w_fs as_process] in Hstep.
    destruct (fs_link _ _ _) as [[e|[]] fs'] eqn:Hlink; injection Hstep as <- <- <-.
    + assert (fs' = w_fs w) as ->.
      { unfold fs_link in Hlink. repeat case_match; congruence. }
      eapply Inv_same_fs; eauto. destruct (decide _); by apply proc_ok_at.
    + unfold fs_link in Hlink. 
      destruct (faults (w_fs w) !! path); [done|].
      destruct (dir (w_fs w) !! _tmpfile_path (self pid)) as [i|] eqn:Ht; [|done].
      destruct (dir (w_fs w) !! path) eqn:Hl; [done|]. injection Hlink as <-.
      eapply Inv_update; eauto; cbn [w_fs set_fs].
      * eapply fs_inv_link; eauto.
        -- apply holds_update. by left.
        -- intros q [[-> _]|[Hne Hq]]%holds_update; [by left|by right].
      * intros q Hq. cbn [dir]. rewrite lookup_insert_ne; [done|]. symmetry. apply tmp_not_path.
      * by apply proc_ok_at.
  - (* AtObtained *)
    injection Hstep as <- <- <-.
    eapply Inv_same_fs; eauto; try (by apply proc_ok_at); cbn; by destruct (decide _).
  - (* AtUnexpected *)
    injection Hstep as <- <- <-.
    eapply Inv_same_fs; eauto; try (by apply proc_ok_at); cbn; by destruct (decide _).
  - (* AtCheckTime *)
    injection Hstep as <- <- <-.
    eapply Inv_same_fs; eauto. destruct (Qlt_le_dec _ _); by apply proc_ok_at.
  - (* AtRandom *)
    cbn [sys] in Hstep. injection Hstep as <- <- <-.
    eapply Inv_same_fs; eauto. by apply proc_ok_at.
  - (* AtSleep *)
    injection Hstep as <- <- <-.
    eapply Inv_same_fs; eauto; try (by apply proc_ok_at); cbn; by destruct (decide _).
  - (* AtUnlock *)
    injection Hstep as <- <- <-.
    eapply Inv_same_fs; eauto; try (by apply proc_ok_at); cbn; by destruct (decide _).
  - (* AtOwnerTest *)
    injection Hstep as <- <- <-. cbn [w_fs as_process].
    eapply Inv_same_fs; eauto. cbn [w_fs as_process].
    destruct (fs_read_text path (w_fs w)) as [e|content] eqn:Hread.
    + destruct (decide _); by apply proc_ok_at.
    + destruct (decide _) as [Hc|]; [|by apply proc_ok_at].
      apply proc_ok_at. cbn [pc_ok].
      pose proof (owner_test_true _ _ _ pid content I Hm Hread Hc) as (pr & Hpr & Hh).
      cbn [st_procs] in Hpr. rewrite Hpid in Hpr. by injection Hpr as <-.
  - (* AtUnlinkLock *)
    cbn [pc_ok] in Hok. subst h. cbn [w_fs as_process] in Hstep.
    assert (holds (mkState w ps) pid) as Hh by (eexists; split; [exact Hpid|done]).
    destruct (inv_held _ _ _ I pid Hh) as (i & Hl & Ht).
    destruct (fs_unlink _ _) as [[e|[]] fs'] eqn:Hunlink; injection Hstep as <- <- <-.
    + unfold fs_unlink in Hunlink. rewrite Hl in Hunlink.
      destruct (faults (w_fs w) !! path) as [fl|]; [|done]. injection Hunlink as <- <-.
      rewrite bool_decide_eq_false_2 by apply errno_of_fault_not_ENOENT.
      rewrite andb_false_r. cbn [negb].
      eapply Inv_same_fs; eauto. by apply proc_ok_at.
    + unfold fs_unlink in Hunlink. rewrite Hl in Hunlink.
      destruct (faults (w_fs w) !! path) as [fl|]; [done|]. injection Hunlink as <-.
      eapply Inv_update; eauto; cbn [w_fs set_fs].
      * eapply fs_inv_unlink_lock; eauto.
        intros q [[_ ?]|[Hne Hq]]%holds_update; [done|]. by split.
      * intros q Hq. cbn [dir]. rewrite lookup_delete_ne; [done|]. symmetry. apply tmp_not_path.
      * by apply proc_ok_at.
  - (* AtUnlinkTmp *)
    cbn [pc_ok] in Hok. subst h. cbn [w_fs as_process] in Hstep.
    assert (¬ holds (mkState w ps) pid) as Hh.
    { intros (pr & Hpr & Hh). cbn [st_procs] in Hpr. rewrite Hpid in Hpr.
      by injection Hpr as <-. }
    destruct (fs_unlink _ _) as [[e|[]] fs'] eqn:Hunlink; injection Hstep as <- <- <-.
    + assert (fs' = w_fs w) as ->.
      { unfold fs_unlink in Hunlink. repeat case_match; congruence. }
      eapply Inv_same_fs; eauto. destruct (negb _); by apply proc_ok_at.
    + unfold fs_unlink in Hunlink.
      destruct (faults (w_fs w) !! _tmpfile_path (self pid)); [done|].
      destruct (dir (w_fs w) !! _tmpfile_path (self pid)); [|done]. injection Hunlink as <-.
      eapply Inv_update; eauto; cbn [w_fs set_fs].
      * eapply fs_inv_same; [by eapply (fs_inv_unlink_tmp _ _ _ pid)|done|done|done|].
        intros q. by eapply holds_same.
      * intros q Hq. cbn [dir]. rewrite lookup_delete_ne; [done|]. by intros ?%tmp_inj.
      * by apply proc_ok_at.
  - (* AtIsLocked *)
    injection Hstep as <- <- <-.
    eapply Inv_same_fs; eauto. cbn [w_fs as_process].
    destruct (fs_read_text _ _); [destruct (decide _)|]; by apply proc_ok_at.
Qed.

Lemma proc_ok_dir fs fs' pid pr :
  dir fs' = dir fs → proc_ok fs pid pr → proc_ok fs' pid pr.
Proof.
  intros Hd. unfold proc_ok. destruct (p_code pr) as [code|]; [|done].
  intros (p & -> & Hp). exists p. split; [done|].
  destruct p; cbn [pc_ok] in *; rewrite ?Hd; done.
Qed.

Lemma method_prog_code_of pid m : ∃ p, method_prog pid m = code_of pid p ∧ ∀ h fs, pc_ok pid p h fs.
Proof.
  destruct m as [|force|].
  - by exists AtLock.
  - by exists (AtUnlock force).
  - by exists AtIsLocked.
Qed.

Lemma Inv_step s s' : Inv s → step s s' → Inv s'.
Proof.
  intros HI Hstep. destruct Hstep as
    [pid m h w ps Hpid|pid code h code' h' w w' ps Hpid Hexec
    |pid code h w ps Hpid Hfin|d fl w ps Hd].
  - destruct (method_prog_code_of pid m) as (p & -> & Hp).
    eapply Inv_same_fs; eauto. by apply proc_ok_at.
  - pose proof HI as [_ Hprocs]. specialize (Hprocs pid _ Hpid).
    destruct Hprocs as (p & Hcode & Hok). cbn [p_code p_holds st_world] in *. subst code.
    rewrite exec_code_of in Hexec.
    destruct (pc_step pid p h w) as [[[p' h''] w'']|] eqn:Hstep; [|done].
    injection Hexec as <- <- <-. by eapply Inv_pc_step.
  - eapply Inv_same_fs; eauto. done.
  - destruct HI as [I Hprocs]. split.
    + eapply fs_inv_same; [exact I|done..].
    + intros pid pr Hpid. eapply proc_ok_dir; [|by apply Hprocs]. done.
Qed.

Lemma Inv_steps s s' : Inv s → steps s s' → Inv s'.
Proof. intros HI Hsteps. induction Hsteps; eauto using Inv_step. Qed.

Lemma Inv_initial s : initial s → Inv s.
Proof.
  intros (Hidle & Hl & Ht & Hdang). split.
  - split.
    + intros p (pr & Hp & _). by eexists.
    + done.
    + intros p q i Hp Hq Hdp. by rewrite Ht in Hdp.
    + intros p i c Hp Hdp. by rewrite Ht in Hdp.
    + intros p (pr & Hp & Hh). by rewrite (Hidle p pr Hp) in Hh.
    + intros i. by rewrite Hl.
  - intros pid pr Hpid. by rewrite (Hidle pid pr Hpid).
Qed.

(** ** Mutual exclusion *)

Lemma at_link_attempt_pc pid p :
  at_link_attempt (code_of pid p) = true → ∃ n timeout, p = AtLoop (S n) timeout.
Proof.
  destruct p as [| |f| |[|fuel] timeout| |e|fuel timeout|fuel timeout|r fuel timeout
                |force|force|force|force| |[[]|e]|]; try done.
  eauto.
Qed.

Lemma step_pc w w' ps pid p p' h h' :
  ps !! pid = Some (mkProc (Some (code_of pid p)) h) →
  pc_step pid p h w = Some (p', h', w') →
  step (mkState w ps) (mkState w' (<[pid := mkProc (Some (code_of pid p')) h']> ps)).
Proof.
  intros Hpid Hstep. eapply step_sys; [done|]. by rewrite exec_code_of, Hstep.
Qed.

(** C1. From a start with neither lock file nor marker files, however the
    processes are interleaved: at most one process holds the lock; the
    lock file is there exactly when a process holds it, and it is then the
    one link to the marker of that process; and while a process holds it,
    the attempt of any other process to create the link fails and leaves
    the files as they are: barring a fault on the lock path, with [EEXIST],
    after which [lock] reads the clock, and raises [Timeout] or sleeps and
    tries again. *)
Theorem mutual_exclusion (s s' : state) :
  initial s → steps s s' →
  let fs := w_fs (st_world s') in
  (∀ p q, holds s' p → holds s' q → p = q) ∧
  (∀ i, dir fs !! path = Some i → ∃ p, holds s' p ∧ dir fs !! tmp p = Some i) ∧
  (∀ p, holds s' p → is_Some (dir fs !! path)) ∧
  (∀ p q n timeout h code' h' w',
     holds s' p → q ≠ p →
     st_procs s' !! q = Some (mkProc (Some (lock_loop (S n) (self q) timeout)) h) →
     exec q (lock_loop (S n) (self q) timeout) h (st_world s') = Some (code', h', w') →
     h' = false ∧ w_fs w' = fs ∧
     (faults fs !! path = None → code' = code_of q (AtCheckTime n timeout)) ∧
     (∀ f, faults fs !! path = Some f →
           code' = code_of q (AtUnexpected (errno_of_fault f)))).
Proof.
  intros Hinit Hsteps fs.
  pose proof (Inv_steps _ _ (Inv_initial _ Hinit) Hsteps) as [I Hprocs]. fold fs in I.
  split; [|split; [|split]].
  - intros p q. by eapply fs_inv_unique.
  - intros i Hl. destruct (inv_owner _ _ _ I i Hl) as [p Hp]. exists p. split; [done|].
    destruct (inv_held _ _ _ I p Hp) as (j & Hl' & Ht). congruence.
  - intros p Hp. destruct (inv_held _ _ _ I p Hp) as (j & Hl & _). eauto.
  - intros p q n timeout h code' h' w' Hp Hne Hq Hexec.
    destruct (inv_held _ _ _ I p Hp) as (i & Hl & _).
    assert (h = false) as ->.
    { destruct h; [|done]. destruct Hne. eapply fs_inv_unique; [exact I| |done].
      by eexists. }
    specialize (Hprocs q _ Hq). destruct Hprocs as (pc' & Hcode & Hok).
    cbn [p_holds] in Hok.
    assert (at_link_attempt (code_of q pc') = true) as Hat by (by rewrite <- Hcode).
    apply at_link_attempt_pc in Hat as (n' & timeout' & ->).
    destruct Hok as [j Hj]. fold fs in Hj.
    change (lock_loop (S n) (self q) timeout) with (code_of q (AtLoop (S n) timeout)) in Hexec.
    rewrite exec_code_of in Hexec. cbn [pc_step w_fs as_process] in Hexec.
    fold fs in Hexec. unfold fs_link in Hexec.
    change (_tmpfile_path (self q)) with (tmp q) in Hexec. rewrite Hj, Hl in Hexec.
    destruct (faults fs !! path) as [f|] eqn:Hf; cbn in Hexec.
    + destruct (decide (errno_of_fault f ≠ EEXIST)) as [|Hn];
        [|destruct Hn; apply errno_of_fault_not_EEXIST].
      injection Hexec as <- <- <-. repeat split; [done|]. by intros f' [= <-].
    + injection Hexec as <- <- <-. by repeat split.
Qed.

End pool_facts.

Lemma start_initial : Pool.initial "/tmp/x.lock" Pool.start.
Proof.
  split; [|split; [|split]].
  - intros pid pr. unfold Pool.start. cbn [Pool.st_procs].
    intros [[_ <-]|[_ [_ <-]%lookup_singleton_Some]]%lookup_insert_Some; done.
  - done.
  - done.
  - intros q i. unfold Pool.start. cbn. by rewrite lookup_empty.
Qed.

Lemma mutual_exclusion_witness :
  ∃ s', Pool.initial "/tmp/x.lock" Pool.start ∧
        Pool.steps "/tmp/x.lock" (λ _, null_logger) Pool.start s' ∧
        Pool.holds s' 1 ∧ (∀ q, Pool.holds s' q → q = 1%N) ∧
        ∃ n timeout code' h' w',
          Pool.st_procs s' !! 2%N =
            Some (Pool.mkProc
                    (Some (lock_loop (S n) (Pool.self "/tmp/x.lock" (λ _, null_logger) 2)
                             timeout)) false) ∧
          Pool.exec "/tmp/x.lock" 2
            (lock_loop (S n) (Pool.self "/tmp/x.lock" (λ _, null_logger) 2) timeout)
            false (Pool.st_world s') = Some (code', h', w') ∧
          code' = Pool.code_of "/tmp/x.lock" (λ _, null_logger) 2 (Pool.AtCheckTime n timeout) ∧
          h' = false.
Proof.
  eexists. split; [exact start_initial|].
  match goal with |- ?S ∧ _ => assert S as Hsteps end.
  { eapply rtc_l; [eapply (Pool.step_call _ _ 1%N Pool.MLock); reflexivity|].
    change (Pool.method_prog "/tmp/x.lock" (λ _, null_logger) 1 Pool.MLock)
      with (Pool.code_of "/tmp/x.lock" (λ _, null_logger) 1 Pool.AtLock).
    do 5 (eapply rtc_l;
          [eapply step_pc with (pid := 1%N); [reflexivity|vm_compute; reflexivity]|]).
    eapply rtc_l; [eapply (Pool.step_call _ _ 2%N Pool.MLock); reflexivity|].
    change (Pool.method_prog "/tmp/x.lock" (λ _, null_logger) 2 Pool.MLock)
      with (Pool.code_of "/tmp/x.lock" (λ _, null_logger) 2 Pool.AtLock).
    do 4 (eapply rtc_l;
          [eapply step_pc with (pid := 2%N); [reflexivity|vm_compute; reflexivity]|]).
    apply rtc_refl. }
  split; [exact Hsteps|].
  match goal with |- ?G ∧ _ =>
    assert G as Hh by (eexists; split; reflexivity)
  end.
  split; [exact Hh|].
  pose proof (mutual_exclusion "/tmp/x.lock" (λ _, null_logger) Pool.start _
                start_initial Hsteps) as (Hone & _ & _ & Hother).
  split; [exact (λ q Hq, Hone q 1%N Hq Hh)|].
  exists (Nat.pred (lock_fuel (Pool.self "/tmp/x.lock" (λ _, null_logger) 2))), 60%Q.
  eexists _, _, _.
  match goal with |- ?G ∧ _ => assert G as Hq by reflexivity end.
  split; [exact Hq|].
  match goal with |- ?G ∧ _ => assert G as Hexec by reflexivity end.
  split; [exact Hexec|].
  destruct (Hother 1%N 2%N _ _ _ _ _ _ Hh ltac:(done) Hq Hexec) as (Hh' & _ & Hcode & _).
  split; [|exact Hh']. apply Hcode. reflexivity.
Defined.

(** * More on [SimpleLock] *)

(** ** What no program changes *)

Lemma w_pid_env_tick w : w_pid (env_tick w) = w_pid w.
Proof. unfold env_tick. by destruct (w_env w). Qed.

Lemma w_pid_sys {X} (c : call X) w : w_pid (sys c w).1.2 = w_pid w.
Proof.
  destruct c; cbn [sys]; try done;
    try (by destruct (decide _));
    by match goal with |- context [let '(_, _) := ?x in _] => destruct x end.
Qed.

Lemma run_pid {A} (m : prog A) w : w_pid (world_of (run m w)) = w_pid w.
Proof.
  revert w. induction m as [a|e| |X c k IH]; intros w; try done.
  unfold run; fold (@run A).
  pose proof (w_pid_sys c (env_tick w)) as Hs.
  destruct (sys c (env_tick w)) as [[x w1] ev]. specialize (IH x w1).
  destruct (run (k x) w1) as [[o w2] tr]. unfold world_of in *. cbn [fst snd] in *.
  by rewrite IH, Hs, w_pid_env_tick.
Qed.

Lemma w_env_sys {X} (c : call X) w : w_env (sys c w).1.2 = w_env w.
Proof.
  destruct c; cbn [sys]; try done;
    try (by destruct (decide _));
    by match goal with |- context [let '(_, _) := ?x in _] => destruct x end.
Qed.

Lemma calm_sys {X} (c : call X) w : calm w → calm (sys c w).1.2.
Proof. unfold calm. by rewrite w_env_sys. Qed.

Lemma faults_sys {X} (c : call X) w : faults (w_fs (sys c w).1.2) = faults (w_fs w).
Proof.
  destruct c; cbn [sys]; try done; try (by destruct (decide _)).
  - unfold fs_open_w. destruct (faults _ !! _); [done|]. by destruct (dir _ !! _).
  - unfold fs_write_close. by destruct (faults _ !! _).
  - unfold fs_link. destruct (faults _ !! dst); [done|].
    destruct (dir _ !! src); [|done]. by destruct (dir _ !! dst).
  - unfold fs_unlink. destruct (faults _ !! path); [done|]. by destruct (dir _ !! path).
Qed.

(** In a calm environment a program leaves the environment calm and the
    faults of the file system as they are. *)
Lemma run_calm {A} (m : prog A) w :
  calm w →
  calm (world_of (run m w)) ∧ faults (w_fs (world_of (run m w))) = faults (w_fs w).
Proof.
  revert w. induction m as [a|e| |X c k IH]; intros w Hc; try done.
  unfold run; fold (@run A).
  destruct (quiet_env_tick w Hc) as [Hfs Hc1].
  pose proof (calm_sys c _ Hc1) as Hc2. pose proof (faults_sys c (env_tick w)) as Hf.
  destruct (sys c (env_tick w)) as [[x w1] ev]. cbn [fst snd] in *.
  specialize (IH x w1 Hc2).
  destruct (run (k x) w1) as [[o w2] tr]. unfold world_of in *. cbn [fst snd] in *.
  destruct IH as [IH1 IH2]. split; [done|]. by rewrite IH2, Hf, Hfs.
Qed.

(** ** The instance that [__init__] makes *)

(** X1. [__init__] always returns, after [os.getpid()] alone: the instance
    has the lock path it was given, a timeout of 60 seconds, the logger it
    was given or the ['null'] logger, and a marker path that is never the
    lock path; and two instances made for one lock path have the same marker
    path exactly when their processes have the same pid. *)
Theorem init_marker_paths (path : string) (lg lg' : option Logger) (ns ns' : bool)
    (w w' : World) :
  ∃ self other,
    run (__init__ path lg ns) w = (Returned self, env_tick w, []) ∧
    run (__init__ path lg' ns') w' = (Returned other, env_tick w', []) ∧
    _lockfile_path self = path ∧
    _tmpfile_path self ≠ path ∧
    _timeout self = 60%Q ∧
    logger self = default null_logger lg ∧
    (_tmpfile_path self = _tmpfile_path other ↔ w_pid w = w_pid w').
Proof.
  eexists _, _. rewrite !run___init__. split; [done|]. split; [done|].
  cbn [_lockfile_path _tmpfile_path _timeout logger instance].
  split; [done|]. split; [apply format_tmpfile_not_path|]. split; [done|]. split; [done|].
  rewrite !w_pid_env_tick. split; [apply format_tmpfile_inj|by intros ->].
Qed.

(** ** The attempts of [lock] *)

Lemma lock_loop_attempts (self : SimpleLock) (timeout : Q) (n : nat) (w : World) :
  (length (link_results (trace_of (run (lock_loop n self timeout) w))) ≤ n)%nat.
Proof.
  revert w. induction n as [|n IH]; intros w.
  - cbn [lock_loop]. by rewrite run_Spin.
  - rewrite run_lock_loop_S. unfold loop_iter. cbn [sys].
    destruct (fs_link _ _ _) as [[e|[]] fs]; cbv beta iota zeta.
    + destruct (decide (e ≠ EEXIST)); [cbn; lia|].
      destruct (Qlt_le_dec _ _); [cbn; lia|].
      unfold retry_sleep. destruct (negb (_no_sleep self)); cbn [sys]; cbv beta iota zeta.
      * match goal with |- context [run (lock_loop n self timeout) ?w'] =>
          specialize (IH w'); destruct (run (lock_loop n self timeout) w') as [[o w''] tr]
        end.
        unfold trace_of, link_results in *. cbn in *. lia.
      * match goal with |- context [run (lock_loop n self timeout) ?w'] =>
          specialize (IH w'); destruct (run (lock_loop n self timeout) w') as [[o w''] tr]
        end.
        unfold trace_of, link_results in *. cbn in *. lia.
    + cbn; lia.
Qed.

(** X2. [lock()] of an instance that sleeps between its attempts always
    ends, whatever the other processes do and however fast the clock runs
    (it never runs backwards): it returns or raises, after at most
    [ceil(_timeout / 0.01) + 2] calls of [os.link] (6002 for the timeout
    of 60 seconds). *)
Theorem lock_ends_within_its_attempts (self : SimpleLock) (w : World) :
  _no_sleep self = false →
  outcome_of (run (lock self) w) ≠ OutOfFuel ∧
  (length (link_results (trace_of (run (lock self) w))) ≤ lock_fuel self)%nat.
Proof.
  intros Hns. split; [by apply lock_terminates|].
  rewrite run_lock. unfold lock_prelude. cbn [sys].
  destruct (fs_open_w _ _) as [[e|f] fs1]; cbv beta iota zeta; [cbn; lia|].
  destruct (fs_write_close _ _ _) as [[e|[]] fs2]; cbv beta iota zeta; [cbn; lia|].
  match goal with |- context [run (lock_loop ?n self ?T) ?w'] =>
    pose proof (lock_loop_attempts self T n w') as H;
    destruct (run (lock_loop n self T) w') as [[o w''] tr]
  end.
  unfold trace_of, link_results in *. cbn in *. lia.
Qed.

Lemma loop_trace_sleep_count self timeout o tr :
  loop_trace self timeout o tr →
  (if _no_sleep self then sleeps tr = []
   else o ≠ OutOfFuel → S (length (sleeps tr)) = length (link_results tr)).
Proof.
  induction 1 as [|e He|t Ht|t r o tr Hns Ht Hr0 Hr1 Htr IH|t o tr Hns Ht Htr IH|];
    destruct (_no_sleep self); try done; unfold sleeps, link_results in *; cbn.
  intros Ho. by rewrite IH.
Qed.

(** X3. [lock()] sleeps once after each attempt but the last, for 0.01 s
    or more and less than 1.01 s each time: the sleeps are one fewer than
    the calls of [os.link].  An instance with [_no_sleep] set would not
    sleep at all. *)
Theorem lock_sleeps_once_between_attempts (self : SimpleLock) (w : World) :
  let tr := trace_of (run (lock self) w) in
  Forall (λ d, (1 # 100 <= d)%Q ∧ (d < 101 # 100)%Q) (sleeps tr) ∧
  (if _no_sleep self then sleeps tr = []
   else length (sleeps tr) = pred (length (link_results tr))).
Proof.
  intros tr. split; [apply lock_sleeps_in_range|]. subst tr.
  pose proof (lock_terminates self w) as Hend.
  destruct (run_lock_cases self w) as
    [(e & w' & tr & -> & Hl & _ & Hs & _)
    |(pre & t0 & o & w' & tr & Hrun & Hl & _ & Hs & _ & Htr & _)].
  - unfold trace_of. cbn [snd]. rewrite Hl, Hs. by destruct (_no_sleep self).
  - rewrite Hrun in Hend |- *. unfold trace_of, outcome_of in *. cbn [fst snd] in *.
    apply loop_trace_sleep_count in Htr.
    unfold sleeps, link_results in *. rewrite !omap_app, Hl, Hs. cbn [app].
    destruct (_no_sleep self); [done|]. rewrite <- Htr; [done|]. by apply Hend.
Qed.

(** ** The records of [lock] *)

Lemma w_log_env_tick w : w_log (env_tick w) = w_log w.
Proof. unfold env_tick. by destruct (w_env w). Qed.

Lemma w_log_log_to r w : w_log (log_to r w) = logged (log_logger r) [r] (w_log w).
Proof.
  unfold log_to, logged. cbn [sys fst snd].
  destruct (decide _); cbn [w_log]; by rewrite w_log_env_tick.
Qed.

Lemma w_log_retry_sleep self w : w_log (retry_sleep self w).1 = w_log w.
Proof.
  unfold retry_sleep. destruct (negb _); [|done]. cbn [sys]. cbv beta iota zeta.
  cbn [fst w_log]. by rewrite !w_log_env_tick.
Qed.

Lemma lock_loop_log self timeout n w :
  let r := run (lock_loop n self timeout) w in
  w_log (world_of r) =
  logged (logger self)
    match outcome_of r with
    | Returned _ => [obtained_log self]
    | Raised (OSError e) => [unexpected_log self (OSError e)]
    | _ => []
    end (w_log w).
Proof.
  assert (∀ l, logged (logger self) [] l = l) as Hnil.
  { intros l. unfold logged. destruct (decide _); [done|by rewrite app_nil_r]. }
  revert w. induction n as [|n IH]; intros w; cbv zeta.
  - cbn [lock_loop]. rewrite run_Spin. unfold world_of, outcome_of. cbn [fst snd].
    by rewrite Hnil.
  - rewrite run_lock_loop_S. unfold loop_iter. cbn [sys].
    destruct (fs_link _ _ _) as [[e|[]] fs]; cbv beta iota zeta.
    + destruct (decide (e ≠ EEXIST)).
      { unfold world_of, outcome_of. cbn [fst snd]. rewrite w_log_log_to.
        cbn [log_logger unexpected_log w_log set_fs]. by rewrite w_log_env_tick. }
      destruct (Qlt_le_dec _ _).
      { unfold world_of, outcome_of. cbn [fst snd].
        rewrite Hnil, w_log_env_tick. cbn [w_log set_fs]. by rewrite w_log_env_tick. }
      pose proof (w_log_retry_sleep self (env_tick (set_fs fs (env_tick w)))) as Hs.
      destruct (retry_sleep _ _) as [w3 evs]. cbn [fst] in Hs.
      specialize (IH w3). cbv zeta in IH.
      destruct (run (lock_loop n self timeout) w3) as [[o w'] tr].
      unfold world_of, outcome_of in *. cbn [fst snd] in *.
      rewrite IH, Hs, w_log_env_tick. cbn [w_log set_fs]. by rewrite w_log_env_tick.
    + unfold world_of, outcome_of. cbn [fst snd]. rewrite w_log_log_to.
      cbn [log_logger obtained_log w_log set_fs]. by rewrite w_log_env_tick.
Qed.

Lemma loop_trace_links self timeout o tr :
  loop_trace self timeout o tr → tr ≠ [] → link_results tr ≠ [].
Proof. by destruct 1. Qed.

(** X5. What [lock()] hands to its logger: first the debug record
    ['{}.lock()'], then ['Obtained lock'] exactly when it returns, or the
    error record ['Unexpected OSError happend during lock'] exactly when
    [os.link] has failed with an errno other than [EEXIST]; a [Timeout] and
    a failure to write the marker file are not logged.  The ['null'] logger
    keeps nothing. *)
Theorem lock_log_records (self : SimpleLock) (w : World) :
  let r := run (lock self) w in
  w_log (world_of r) =
  logged (logger self)
    (lock_log self ::
     match outcome_of r with
     | Returned _ => [obtained_log self]
     | Raised (OSError e) =>
         if decide (link_results (trace_of r) = []) then []
         else [unexpected_log self (OSError e)]
     | _ => []
     end) (w_log w).
Proof.
  cbv zeta.
  assert (∀ rs l, logged (logger self) rs (logged (logger self) [lock_log self] l)
                  = logged (logger self) (lock_log self :: rs) l) as Hcons.
  { intros rs l. unfold logged. destruct (decide _); [done|]. by rewrite <- app_assoc. }
  pose proof (run_lock_cases self w) as Hcases.
  rewrite run_lock in Hcases |- *. unfold lock_prelude in *. cbn [sys] in *.
  destruct (fs_open_w _ _) as [[e|f] fs1]; cbv beta iota zeta in *.
  { unfold world_of, outcome_of, trace_of. cbn [fst snd w_log set_fs].
    rewrite w_log_env_tick, w_log_log_to. cbn [log_logger lock_log]. done. }
  destruct (fs_write_close _ _ _) as [[e|[]] fs2]; cbv beta iota zeta in *.
  { unfold world_of, outcome_of, trace_of. cbn [fst snd w_log set_fs].
    rewrite !w_log_env_tick. cbn [w_log set_fs].
    rewrite w_log_env_tick, w_log_log_to. cbn [log_logger lock_log]. done. }
  match goal with |- context [run (lock_loop ?n self ?T) ?w'] =>
    pose proof (lock_loop_log self T n w') as Hlog;
    destruct (run (lock_loop n self T) w') as [[o w''] tr]
  end.
  cbv zeta in Hlog. unfold world_of, outcome_of, trace_of in *. cbn [fst snd] in *.
  rewrite Hlog, !w_log_env_tick. cbn [w_log set_fs].
  rewrite !w_log_env_tick. cbn [w_log set_fs].
  rewrite w_log_env_tick, w_log_log_to. cbn [log_logger lock_log]. rewrite Hcons.
  f_equal. f_equal.
  destruct o as [[]|[e| |]|]; try done.
  destruct Hcases as [(e' & w1 & tr1 & [= _ _ Htr1] & Hl & Ht & _)
                     |(pre & t0 & o' & w1 & tr1 & [= _ _ Htr1] & Hl & _ & _ & Hne & Hloop & _)].
  - by rewrite <- Htr1 in Ht.
  - cbn [app]. rewrite Htr1. unfold link_results in *. rewrite omap_app, Hl. cbn [app].
    rewrite decide_False; [done|]. by eapply loop_trace_links.
Qed.

(** ** [lock] when nothing interferes *)

Lemma fs_link_inl src dst fs e fs' :
  fs_link src dst fs = (inl e, fs') →
  fs' = fs ∧ (e = EEXIST → faults fs !! dst = None ∧ is_Some (dir fs !! dst)).
Proof.
  unfold fs_link. destruct (faults fs !! dst) as [f|] eqn:Hf.
  { intros [= <- <-]. split; [done|]. intros H. by destruct (errno_of_fault_not_EEXIST f). }
  destruct (dir fs !! src); [|by intros [= <- <-]].
  destruct (dir fs !! dst) eqn:Hd; [|done]. intros [= <- <-]. eauto.
Qed.

(** A loop that does not obtain the lock leaves the files as they are. *)
Lemma lock_loop_calm_failure self timeout n w :
  calm w →
  outcome_of (run (lock_loop n self timeout) w) ≠ Returned tt →
  w_fs (world_of (run (lock_loop n self timeout) w)) = w_fs w ∧
  calm (world_of (run (lock_loop n self timeout) w)) ∧
  (outcome_of (run (lock_loop n self timeout) w) = Raised (LockError "Timeout") →
   is_Some (dir (w_fs w) !! _lockfile_path self)).
Proof.
  revert w. induction n as [|n IH]; intros w Hc.
  - cbn [lock_loop]. rewrite run_Spin. done.
  - rewrite run_lock_loop_S. unfold loop_iter. cbn [sys].
    destruct (quiet_env_tick w Hc) as [Hfs Hc1]. rewrite Hfs.
    destruct (fs_link _ _ _) as [[e|[]] fs] eqn:Hlink; cbv beta iota zeta; [|done].
    apply fs_link_inl in Hlink as [-> Hex].
    assert (calm (set_fs (w_fs w) (env_tick w))) as Hc2 by done.
    destruct (decide (e ≠ EEXIST)) as [|He%dec_stable].
    { intros _. destruct (quiet_log_to (unexpected_log self (OSError e)) _ Hc2) as [Hfs2 Hc3].
      unfold world_of, outcome_of. cbn [fst snd]. by rewrite Hfs2. }
    destruct (quiet_env_tick _ Hc2) as [Hfs2 Hc3].
    destruct (Qlt_le_dec _ _).
    { intros _. unfold world_of, outcome_of. cbn [fst snd]. rewrite Hfs2.
      split; [done|]. split; [done|]. intros _. by apply Hex. }
    pose proof (quiet_retry_sleep self _ Hc3) as [Hfs3 Hc4].
    destruct (retry_sleep self _) as [w3 evs]. cbn [fst] in *.
    specialize (IH w3 Hc4).
    destruct (run (lock_loop n self timeout) w3) as [[o w'] tr'].
    unfold world_of, outcome_of in *. cbn [fst snd] in *.
    intros Ho. destruct (IH Ho) as (Hfs4 & Hc5 & Hto).
    rewrite Hfs4, Hfs3, Hfs2. split; [done|]. split; [done|].
    intros Hout. specialize (Hto Hout). by rewrite Hfs3, Hfs2 in Hto.
Qed.

(** While the lock file is there, the loop does not obtain the lock. *)
Lemma lock_loop_calm_held self timeout n w :
  calm w →
  faults (w_fs w) !! _lockfile_path self = None →
  is_Some (dir (w_fs w) !! _tmpfile_path self) →
  is_Some (dir (w_fs w) !! _lockfile_path self) →
  outcome_of (run (lock_loop n self timeout) w) = Raised (LockError "Timeout") ∨
  outcome_of (run (lock_loop n self timeout) w) = OutOfFuel.
Proof.
  revert w. induction n as [|n IH]; intros w Hc Hf [i Hi] [j Hj].
  - cbn [lock_loop]. rewrite run_Spin. by right.
  - rewrite run_lock_loop_S. unfold loop_iter. cbn [sys].
    destruct (quiet_env_tick w Hc) as [Hfs Hc1]. rewrite Hfs.
    unfold fs_link. rewrite Hf, Hi, Hj. cbv beta iota zeta.
    rewrite decide_False by (by intros H). 
    assert (calm (set_fs (w_fs w) (env_tick w))) as Hc2 by done.
    destruct (quiet_env_tick _ Hc2) as [Hfs2 Hc3].
    destruct (Qlt_le_dec _ _); [by left|].
    pose proof (quiet_retry_sleep self _ Hc3) as [Hfs3 Hc4].
    destruct (retry_sleep self _) as [w3 evs]. cbn [fst] in *.
    specialize (IH w3 Hc4). rewrite Hfs3, Hfs2 in IH. cbn [w_fs set_fs] in IH.
    specialize (IH Hf (ex_intro _ i Hi) (ex_intro _ j Hj)).
    by destruct (run (lock_loop n self timeout) w3) as [[o w'] tr'].
Qed.

Lemma loop_trace_removals self timeout o tr :
  loop_trace self timeout o tr → removals tr = [].
Proof. induction 1; done. Qed.

Lemma lock_removals self w : removals (trace_of (run (lock self) w)) = [].
Proof.
  rewrite run_lock. unfold lock_prelude. cbn [sys].
  destruct (fs_open_w _ _) as [[e|f] fs1]; cbv beta iota zeta; [done|].
  destruct (fs_write_close _ _ _) as [[e|[]] fs2]; cbv beta iota zeta; [done|].
  match goal with |- context [run (lock_loop ?n self ?T) ?w'] =>
    pose proof (lock_loop_trace self T n w') as Htr;
    destruct (run (lock_loop n self T) w') as [[o w''] tr]
  end.
  apply loop_trace_removals in Htr. unfold trace_of, removals in *. cbn [fst snd] in *.
  by rewrite omap_app, Htr.
Qed.

(** The world in which the loop of [lock] starts, in a calm environment. *)
Lemma lock_prelude_calm self w :
  calm w →
  (∃ r, lock_prelude self w = inl r ∧ outcome_of r ≠ Raised (LockError "Timeout") ∧
        outcome_of r ≠ Returned tt ∧ outcome_of r ≠ OutOfFuel) ∨
  (∃ w' timeout tr i,
     lock_prelude self w = inr (w', timeout, tr) ∧ calm w' ∧
     faults (w_fs w') = faults (w_fs w) ∧
     faults (w_fs w) !! _tmpfile_path self = None ∧
     dir (w_fs w') !! _tmpfile_path self = Some i ∧
     inodes (w_fs w') !! i = Some (_tmpfile_path self) ∧
     (∀ q, q ≠ _tmpfile_path self → dir (w_fs w') !! q = dir (w_fs w) !! q) ∧
     (∀ j, dir (w_fs w) !! _tmpfile_path self = Some j → j = i)).
Proof.
  intros Hc. unfold lock_prelude. cbn [sys].
  destruct (quiet_log_to (lock_log self) w Hc) as [Hfs0 Hc0].
  destruct (quiet_env_tick _ Hc0) as [Hfs1 Hc1]. rewrite Hfs1, Hfs0.
  destruct (fs_open_w _ _) as [[e|h] fs1] eqn:Hopen; cbv beta iota zeta.
  { left. eexists. split; [done|]. done. }
  pose proof Hopen as (Hhp & Hd1 & Hother & Hi1 & Hwas)%fs_open_w_spec.
  apply fs_open_w_inr in Hopen as (_ & _ & Hf1 & Hft).
  assert (calm (set_fs fs1 (env_tick (log_to (lock_log self) w)))) as Hc2 by done.
  destruct (quiet_env_tick _ Hc2) as [Hfs2 Hc3]. rewrite Hfs2. cbn [w_fs set_fs].
  unfold fs_write_close. rewrite Hhp, Hf1, Hft. cbv beta iota zeta.
  right. eexists _, _, _, (h_ino h). split; [done|].
  match goal with |- calm (env_tick ?w') ∧ _ =>
    assert (calm w') as Hc4 by done; destruct (quiet_env_tick _ Hc4) as [Hfs4 Hc5]
  end.
  split; [done|]. rewrite Hfs4. cbn [w_fs set_fs dir inodes faults].
  rewrite lookup_insert_eq. repeat split; try done.
  intros j Hj. destruct Hwas as [Hwas|[Hwas _]]; congruence.
Qed.

(** X4. When the marker file cannot be opened for writing, [lock()] raises
    the [OSError] of [open] at once: that call is its only one on the file
    system, no link is attempted, and the files are as they were. *)
Theorem lock_raises_when_marker_cannot_be_opened (self : SimpleLock) (w : World) (f : fault) :
  calm w →
  faults (w_fs w) !! _tmpfile_path self = Some f →
  outcome_of (run (lock self) w) = Raised (OSError (errno_of_fault f)) ∧
  trace_of (run (lock self) w) =
    [EvOpenW (_tmpfile_path self) (inl (errno_of_fault f))] ∧
  w_fs (world_of (run (lock self) w)) = w_fs w.
Proof.
  intros Hc Hf. rewrite run_lock. unfold lock_prelude. cbn [sys].
  destruct (quiet_log_to (lock_log self) w Hc) as [Hfs0 Hc0].
  destruct (quiet_env_tick _ Hc0) as [Hfs1 Hc1]. rewrite Hfs1, Hfs0.
  unfold fs_open_w. rewrite Hf. cbv beta iota zeta.
  unfold outcome_of, trace_of, world_of. cbn [fst snd w_fs set_fs]. done.
Qed.

(** X6. [lock()] never removes a file.  So when it raises [Timeout] and
    nothing interferes, its marker file is left behind, holding its own
    path, beside the lock file of the other process. *)
Theorem lock_timeout_leaves_marker (self : SimpleLock) (w : World) :
  calm w →
  outcome_of (run (lock self) w) = Raised (LockError "Timeout") →
  marker_written self (w_fs (world_of (run (lock self) w))) ∧
  is_Some (dir (w_fs (world_of (run (lock self) w))) !! _lockfile_path self) ∧
  removals (trace_of (run (lock self) w)) = [].
Proof.
  intros Hc Ho. split; [|split]; [| |apply lock_removals].
  all: revert Ho; rewrite run_lock;
    destruct (lock_prelude_calm self w Hc) as
      [(r & -> & Hr & _)|(w' & T & tr & i & -> & Hc' & Hf & Hft & Hd & Hi & Hother & Hsame)];
    [done|];
    pose proof (lock_loop_calm_failure self T (lock_fuel self) w' Hc') as Hloop;
    destruct (run (lock_loop _ self T) w') as [[o w''] tr'];
    unfold outcome_of, world_of in *; cbn [fst snd] in *;
    intros ->; destruct Hloop as (Hfs & Hc'' & Hex); [done|]; rewrite Hfs.
  - split; [congruence|]. by exists i.
  - by apply Hex.
Qed.

(** X7. While the lock file is there and nothing removes it, [lock()] does
    not return: it raises [LockError('Timeout')] and the lock file is the
    one it was.  This holds for the instance that holds the lock too:
    [lock()] is not reentrant, a second [lock()] of the holder times out,
    and the holder still holds. *)
Theorem lock_on_held_path_times_out (self : SimpleLock) (w : World) :
  calm w →
  _no_sleep self = false →
  faults (w_fs w) !! _tmpfile_path self = None →
  faults (w_fs w) !! _lockfile_path self = None →
  is_Some (dir (w_fs w) !! _lockfile_path self) →
  outcome_of (run (lock self) w) = Raised (LockError "Timeout") ∧
  dir (w_fs (world_of (run (lock self) w))) !! _lockfile_path self =
    dir (w_fs w) !! _lockfile_path self ∧
  (owned_state self (w_fs w) → owned_state self (w_fs (world_of (run (lock self) w)))).
Proof.
  intros Hc Hns Hft Hfl [j Hj].
  pose proof (lock_terminates self w Hns) as Hend. revert Hend.
  rewrite run_lock.
  destruct (lock_prelude_calm self w Hc) as
    [(r & Hpre & _)|(w' & T & tr & i & -> & Hc' & Hf & _ & Hd & Hi & Hother & Hsame)].
  { exfalso. revert Hpre. unfold lock_prelude. cbn [sys].
    destruct (quiet_log_to (lock_log self) w Hc) as [Hfs0 Hc0].
    destruct (quiet_env_tick _ Hc0) as [Hfs1 Hc1]. rewrite Hfs1, Hfs0.
    destruct (fs_open_w _ _) as [[e|h] fs1] eqn:Hopen; cbv beta iota zeta.
    { unfold fs_open_w in Hopen. rewrite Hft in Hopen.
      by destruct (dir (w_fs w) !! _tmpfile_path self). }
    apply fs_open_w_inr in Hopen as (Hhp & _ & Hf1 & _).
    assert (calm (set_fs fs1 (env_tick (log_to (lock_log self) w)))) as Hc2 by done.
    destruct (quiet_env_tick _ Hc2) as [Hfs2 Hc3]. rewrite Hfs2. cbn [w_fs set_fs].
    unfold fs_write_close. rewrite Hhp, Hf1, Hft. done. }
  assert (dir (w_fs w') !! _lockfile_path self = Some j) as Hj'.
  { destruct (decide (_lockfile_path self = _tmpfile_path self)) as [Heq|Hne].
    - rewrite Heq in Hj |- *. rewrite Hd. f_equal. symmetry. by apply Hsame.
    - by rewrite Hother. }
  pose proof (lock_loop_calm_held self T (lock_fuel self) w' Hc') as Hheld.
  pose proof (lock_loop_calm_failure self T (lock_fuel self) w' Hc') as Hloop.
  destruct (run (lock_loop _ self T) w') as [[o w''] tr'].
  unfold outcome_of, world_of in *. cbn [fst snd] in *.
  intros Hend.
  destruct Hheld as [-> | ->]; [congruence|by rewrite Hd|by rewrite Hj'| |done].
  destruct Hloop as (Hfs & _); [done|]. rewrite Hfs.
  split; [done|]. split; [congruence|].
  intros (_ & _ & k & Hlk & Htk & _).
  split; [congruence|]. split; [congruence|]. exists i.
  split; [|done]. rewrite Hj'. f_equal. rewrite Hj in Hlk. injection Hlk as ->.
  by apply Hsame.
Qed.

Lemma lock_calm_free self w :
  calm w →
  faults (w_fs w) !! _tmpfile_path self = None →
  faults (w_fs w) !! _lockfile_path self = None →
  dir (w_fs w) !! _lockfile_path self = None →
  _tmpfile_path self ≠ _lockfile_path self →
  ∃ w1 tr i,
    run (lock self) w = (Returned tt, w1, tr) ∧
    link_results tr = [inr tt] ∧ sleeps tr = [] ∧
    dir (w_fs w1) = <[_lockfile_path self := i]> (<[_tmpfile_path self := i]> (dir (w_fs w))) ∧
    inodes (w_fs w1) = <[i := _tmpfile_path self]> (inodes (w_fs w)) ∧
    (dir (w_fs w) !! _tmpfile_path self = Some i ∨
     dir (w_fs w) !! _tmpfile_path self = None ∧ inodes (w_fs w) !! i = None).
Proof.
  intros Hc Hft Hfl Hdl Hne. rewrite run_lock. unfold lock_prelude. cbn [sys].
  destruct (quiet_log_to (lock_log self) w Hc) as [Hfs0 Hc0].
  destruct (quiet_env_tick _ Hc0) as [Hfs1 Hc1]. rewrite Hfs1, Hfs0.
  destruct (fs_open_w _ _) as [[e|h] fs1] eqn:Hopen; cbv beta iota zeta.
  { unfold fs_open_w in Hopen. rewrite Hft in Hopen.
    by destruct (dir (w_fs w) !! _tmpfile_path self). }
  pose proof Hopen as (Hhp & Hd1 & Hother & Hi1 & Hwas)%fs_open_w_spec.
  assert (dir fs1 = <[_tmpfile_path self := h_ino h]> (dir (w_fs w))) as Hdir1.
  { unfold fs_open_w in Hopen. rewrite Hft in Hopen.
    destruct (dir (w_fs w) !! _tmpfile_path self) as [j|] eqn:Hj;
      injection Hopen as <- <-; cbn [dir h_ino]; [|done].
    by rewrite insert_id. }
  apply fs_open_w_inr in Hopen as (_ & _ & Hf1 & _).
  assert (calm (set_fs fs1 (env_tick (log_to (lock_log self) w)))) as Hc2 by done.
  destruct (quiet_env_tick _ Hc2) as [Hfs2 Hc3]. rewrite Hfs2. cbn [w_fs set_fs].
  unfold fs_write_close. rewrite Hhp, Hf1, Hft. cbv beta iota zeta.
  destruct (lock_fuel_S self) as [n ->]. rewrite run_lock_loop_S.
  unfold loop_iter. cbn [sys].
  match goal with |- context [fs_link _ _ (w_fs (env_tick (env_tick ?w')))] =>
    assert (calm w') as Hc4 by done;
    destruct (quiet_env_tick _ Hc4) as [Hfs4 Hc5];
    destruct (quiet_env_tick _ Hc5) as [Hfs6 Hc6];
    rewrite Hfs6, Hfs4
  end.
  cbn [w_fs set_fs]. unfold fs_link. cbn [dir faults].
  rewrite Hfl, Hd1, Hother, Hdl by done.
  eexists _, _, (h_ino h). split; [done|]. split; [done|]. split; [done|].
  match goal with |- context [log_to ?r ?w'] =>
    assert (calm w') as Hc7 by done;
    destruct (quiet_log_to r w' Hc7) as [Hfs7 _]; rewrite Hfs7
  end.
  cbn [w_fs set_fs dir inodes]. rewrite Hdir1, Hi1, insert_insert_eq. done.
Qed.

(** X8. On a lock path that is free, with no fault on the two paths and no
    interference, [lock()] returns at its first attempt, without sleeping,
    and the instance holds the lock: the lock file is a link to its marker
    file, which holds the marker path. *)
Theorem lock_free_path_first_attempt (self : SimpleLock) (w : World) :
  calm w →
  faults (w_fs w) !! _tmpfile_path self = None →
  faults (w_fs w) !! _lockfile_path self = None →
  dir (w_fs w) !! _lockfile_path self = None →
  _tmpfile_path self ≠ _lockfile_path self →
  outcome_of (run (lock self) w) = Returned tt ∧
  link_results (trace_of (run (lock self) w)) = [inr tt] ∧
  sleeps (trace_of (run (lock self) w)) = [] ∧
  owned_state self (w_fs (world_of (run (lock self) w))).
Proof.
  intros Hc Hft Hfl Hdl Hne.
  destruct (lock_calm_free self w Hc Hft Hfl Hdl Hne) as (w1 & tr & i & Hrun & Hl & Hs & _).
  rewrite Hrun. unfold outcome_of, trace_of, world_of. cbn [fst snd].
  split; [done|]. split; [done|]. split; [done|].
  by apply lock_calm_success in Hrun as [Hown _].
Qed.

(** ** [unlock] *)

Lemma run_unlink_force_agrees path w :
  match run_unlink false path w with
  | (Returned _, _, _) => run_unlink true path w = run_unlink false path w
  | (Raised e, w1, tr1) =>
      run_unlink true path w = (Raised e, w1, tr1) ∨
      (e = OSError ENOENT ∧ run_unlink true path w = (Returned tt, w1, tr1))
  | (OutOfFuel, _, _) => False
  end.
Proof.
  unfold run_unlink. destruct (fs_unlink path _) as [[e|[]] fs]; [|done].
  cbn [andb negb]. destruct (bool_decide (e = ENOENT)) eqn:He; cbn [negb].
  - apply bool_decide_eq_true in He as ->. by right.
  - by left.
Qed.

(** X12. What [force] changes in [unlock]: nothing when [unlock()] returns
    (the run with [force=True] is the same run); nothing to the ownership
    test ([force=True] raises a [LockError] exactly when [force=False]
    does); whenever [unlock(force=True)] raises, [unlock()] raises too; and
    [unlock(force=True)] never raises an [OSError] with [ENOENT]. *)
Theorem unlock_force_agrees (self : SimpleLock) (w : World) :
  (outcome_of (run (unlock self false) w) = Returned tt →
   run (unlock self true) w = run (unlock self false) w) ∧
  (∀ msg, outcome_of (run (unlock self true) w) = Raised (LockError msg) ↔
          outcome_of (run (unlock self false) w) = Raised (LockError msg)) ∧
  (∀ e, outcome_of (run (unlock self true) w) = Raised e →
        ∃ e', outcome_of (run (unlock self false) w) = Raised e') ∧
  (∀ e, outcome_of (run (unlock self true) w) = Raised (OSError e) → e ≠ ENOENT).
Proof.
  rewrite !run_unlock, run_is_locked. cbv zeta.
  set (w1 := env_tick (unlock_entry self w)).
  destruct (fs_read_text _ _) as [e|content]; cbv beta iota.
  { unfold outcome_of. destruct (decide (e ≠ ENOENT)); cbn [fst snd]; naive_solver. }
  unfold outcome_of. destruct (bool_decide _); cbn [fst snd]; [|naive_solver].
  pose proof (run_unlink_force_agrees (_lockfile_path self) w1) as H1.
  assert (∀ p v e, outcome_of (run_unlink true p v) = Raised (OSError e) → e ≠ ENOENT) as Hne.
  { intros p v e. unfold run_unlink, outcome_of.
    destruct (fs_unlink p _) as [[e'|[]] fs]; cbn [fst andb negb]; [|done].
    destruct (bool_decide (e' = ENOENT)) eqn:He; cbn [negb]; [done|].
    apply bool_decide_eq_false in He. by intros [= <-]. }
  assert (∀ p v msg, outcome_of (run_unlink true p v) ≠ Raised (LockError msg) ∧
                     outcome_of (run_unlink false p v) ≠ Raised (LockError msg)) as Hnl.
  { intros p v msg. unfold run_unlink, outcome_of.
    destruct (fs_unlink p _) as [[e'|[]] fs]; cbn [fst andb negb]; [|done].
    by destruct (bool_decide (e' = ENOENT)). }
  pose proof (Hne (_lockfile_path self) w1) as Hne1.
  pose proof (Hnl (_lockfile_path self) w1) as Hnl1.
  unfold outcome_of in *.
  destruct (run_unlink false (_lockfile_path self) w1) as [[[[]|e1|] w2] tr2]; [| |done].
  - rewrite H1. clear H1.
    pose proof (run_unlink_force_agrees (_tmpfile_path self) w2) as H2.
    pose proof (Hne (_tmpfile_path self) w2) as Hne2.
    pose proof (Hnl (_tmpfile_path self) w2) as Hnl2.
    destruct (run_unlink false (_tmpfile_path self) w2) as [[[[]|e2|] w3] tr3]; [| |done].
    + rewrite H2. done.
    + destruct H2 as [H2|[-> H2]]; rewrite H2 in *; cbn [fst snd] in *; naive_solver.
  - split; [done|].
    destruct H1 as [H1|[-> H1]]; rewrite H1 in *; cbn [fst snd] in *; [naive_solver|].
    pose proof (Hne (_tmpfile_path self) w2) as Hne2.
    pose proof (Hnl (_tmpfile_path self) w2) as Hnl2.
    destruct (run_unlink true (_tmpfile_path self) w2) as [[o3 w3] tr3].
    cbn [fst snd] in *. naive_solver.
Qed.

(** X13. [unlock] stops at the first removal that raises: when
    [os.unlink] of the lock file fails with an error that the [except]
    clause does not pass over, [unlock] raises that [OSError], the marker
    file is not removed (no second removal is attempted) and [unlock] has
    changed no file. *)
Theorem unlock_stops_at_first_failure (self : SimpleLock) (force : bool) (w : World) (e : Z) :
  trace_of (run (unlock self force) w) !! 1%nat =
    Some (EvUnlink (_lockfile_path self) (inl e)) →
  force = false ∨ e ≠ ENOENT →
  outcome_of (run (unlock self force) w) = Raised (OSError e) ∧
  removals (trace_of (run (unlock self force) w)) = [_lockfile_path self] ∧
  w_fs (world_of (run (unlock self force) w)) =
    w_fs (env_tick (env_tick (unlock_entry self w))).
Proof.
  rewrite run_unlock, run_is_locked. cbv zeta.
  destruct (fs_read_text _ _) as [e0|content]; cbv beta iota.
  { by destruct (decide (e0 ≠ ENOENT)). }
  destruct (bool_decide _); [|done].
  set (w1 := env_tick (unlock_entry self w)).
  destruct (run_unlink force (_lockfile_path self) w1) as [[o2 w2] tr2] eqn:Hu1.
  unfold run_unlink in Hu1.
  destruct (fs_unlink (_lockfile_path self) _) as [[e1|[]] fs] eqn:Hunlink;
    injection Hu1 as <- <- <-.
  - intros Hev Hforce.
    assert (fs = w_fs (env_tick w1)) as ->.
    { unfold fs_unlink in Hunlink.
      destruct (faults _ !! _); [by injection Hunlink as _ <-|].
      destruct (dir _ !! _); [done|]. by injection Hunlink as _ <-. }
    destruct (negb (force && bool_decide (e1 = ENOENT))) eqn:Hb.
    + revert Hev. unfold trace_of, outcome_of, world_of. cbn.
      intros [= <-]. done.
    + exfalso. revert Hev.
      destruct (run_unlink force (_tmpfile_path self) _) as [[o w3] tr3].
      unfold trace_of. cbn. intros [= <-].
      apply negb_false_iff, andb_true_iff in Hb as [-> Hb%bool_decide_eq_true].
      naive_solver.
  - destruct (run_unlink force (_tmpfile_path self) _) as [[o w3] tr3].
    unfold trace_of. cbn. done.
Qed.

Lemma unlock_calm_owned self force w :
  calm w → owned_state self (w_fs w) →
  _tmpfile_path self ≠ _lockfile_path self →
  universal_newlines (_tmpfile_path self) = _tmpfile_path self →
  ∃ w1 rd,
    run (unlock self force) w =
      (Returned tt, w1,
       [EvReadText (_lockfile_path self) rd;
        EvUnlink (_lockfile_path self) (inr tt);
        EvUnlink (_tmpfile_path self) (inr tt)]) ∧
    dir (w_fs w1) = delete (_tmpfile_path self) (delete (_lockfile_path self) (dir (w_fs w))) ∧
    inodes (w_fs w1) = inodes (w_fs w).
Proof.
  intros Hc Hown Hne Hplain. rewrite run_unlock.
  pose proof (quiet_sys (Log (unlock_log self)) w eq_refl Hc) as [Hfs0 Hc0].
  fold (unlock_entry self w) in Hfs0, Hc0.
  pose proof (is_locked_owned self (unlock_entry self w) Hc0) as Hlocked.
  rewrite Hfs0 in Hlocked. specialize (Hlocked Hown Hplain).
  rewrite run_is_locked in Hlocked |- *. unfold outcome_of in Hlocked.
  cbn [fst] in Hlocked. cbv zeta. rewrite Hlocked.
  destruct (quiet_env_tick _ Hc0) as [Hfs1 Hc1].
  destruct (quiet_env_tick _ Hc1) as [Hfs2 Hc2].
  destruct Hown as (Hfl & Hft & i & Hdl & Hdt & Hi).
  unfold run_unlink at 1. unfold fs_unlink. rewrite Hfs2, Hfs1, Hfs0, Hfl, Hdl.
  match goal with |- context [run_unlink force _ ?w'] =>
    assert (calm w') as Hc3 by done;
    destruct (quiet_env_tick _ Hc3) as [Hfs3 Hc4]
  end.
  unfold run_unlink, fs_unlink. rewrite Hfs3. cbn [w_fs set_fs dir faults].
  rewrite Hft, lookup_delete_ne, Hdt by done.
  eexists _, _. split; [done|]. done.
Qed.

(** X10. [unlock] by the instance that holds the lock, with nothing in the
    way and a marker path without carriage return, returns after two
    removals, the lock file and then the marker file; every other path and
    the content of every file are as they were. *)
Theorem unlock_owner_releases (self : SimpleLock) (force : bool) (w : World) :
  calm w →
  owned_state self (w_fs w) →
  _tmpfile_path self ≠ _lockfile_path self →
  has_char CR (_tmpfile_path self) = false →
  let r := run (unlock self force) w in
  outcome_of r = Returned tt ∧
  removals (trace_of r) = [_lockfile_path self; _tmpfile_path self] ∧
  dir (w_fs (world_of r)) =
    delete (_tmpfile_path self) (delete (_lockfile_path self) (dir (w_fs w))) ∧
  inodes (w_fs (world_of r)) = inodes (w_fs w).
Proof.
  intros Hc Hown Hne Hcr r. subst r.
  destruct (unlock_calm_owned self force w Hc Hown Hne) as (w1 & rd & -> & Hd & Hi).
  { by apply universal_newlines_plain. }
  done.
Qed.

(** X14. After [unlock] has returned, with no interference, the lock can be
    taken again: [lock()] of any instance on the same lock path, of this
    process or another, returns at its first attempt and that instance
    holds the lock. *)
Theorem unlock_frees_the_path (self other : SimpleLock) (force : bool)
    (w w1 : World) (tr : list event) :
  calm w →
  run (unlock self force) w = (Returned tt, w1, tr) →
  _lockfile_path other = _lockfile_path self →
  _tmpfile_path other ≠ _lockfile_path other →
  faults (w_fs w) !! _tmpfile_path other = None →
  outcome_of (run (lock other) w1) = Returned tt ∧
  link_results (trace_of (run (lock other) w1)) = [inr tt] ∧
  owned_state other (w_fs (world_of (run (lock other) w1))).
Proof.
  intros Hc Hrun Hpath Hne Hft.
  pose proof (run_calm (unlock self force) w Hc) as [Hc1 Hf1].
  rewrite Hrun in Hc1, Hf1. unfold world_of in Hc1, Hf1. cbn [fst snd] in Hc1, Hf1.
  assert (faults (w_fs w) !! _lockfile_path self = None ∧
          dir (w_fs w1) !! _lockfile_path self = None) as [Hfl Hdl].
  { revert Hrun. rewrite run_unlock.
    pose proof (quiet_sys (Log (unlock_log self)) w eq_refl Hc) as [Hfs0 Hc0].
    fold (unlock_entry self w) in Hfs0, Hc0.
    destruct (quiet_env_tick _ Hc0) as [Hfs1 Hc2].
    rewrite run_is_locked. cbv zeta. rewrite Hfs1, Hfs0.
    destruct (fs_read_text _ _) as [e0|content] eqn:Hread; cbv beta iota.
    { by destruct (decide (e0 ≠ ENOENT)). }
    apply fs_read_text_content in Hread as [Hfl _].
    destruct (bool_decide _); [|done].
    destruct (run_unlink force (_lockfile_path self) _) as [[[[]|e|] w2] tr2] eqn:Hu1;
      try done.
    destruct (run_unlink force (_tmpfile_path self) w2) as [[o w3] tr3] eqn:Hu2.
    intros [= -> -> <-]. split; [done|].
    apply run_unlink_returned in Hu1 as (Hd1 & Hc3 & _ & _); [|done].
    apply run_unlink_returned in Hu2 as (_ & _ & Hkeep & _); [|done].
    by apply Hkeep. }
  assert (faults (w_fs w1) !! _tmpfile_path other = None) as Hft1 by (by rewrite Hf1).
  assert (faults (w_fs w1) !! _lockfile_path other = None) as Hfl1
    by (by rewrite Hf1, Hpath).
  rewrite <- Hpath in Hdl.
  destruct (lock_calm_free other w1 Hc1 Hft1 Hfl1 Hdl Hne) as (w2 & tr2 & i & Hlock & Hl & _).
  rewrite Hlock. unfold outcome_of, trace_of, world_of. cbn [fst snd].
  split; [done|]. split; [done|].
  by apply lock_calm_success in Hlock as [Hown _].
Qed.

(** ** The [with] statement on a free lock path *)

(** X15. [with SimpleLock(path): body] on a free lock path, with no
    interference: when the body leaves the lock as it is, the statement
    ends as the body ends (it falls through, breaks, returns, or raises the
    exception of the body), [unlock()] makes the two removals after those
    of the body, and neither the lock file nor the marker file is left. *)
Theorem with_free_path_round_trip (self : SimpleLock) (body : pyval → prog flow) (w : World) :
  calm w →
  faults (w_fs w) !! _tmpfile_path self = None →
  faults (w_fs w) !! _lockfile_path self = None →
  dir (w_fs w) !! _lockfile_path self = None →
  _tmpfile_path self ≠ _lockfile_path self →
  has_char CR (_tmpfile_path self) = false →
  let ended := run (body PyNone) (world_of (run (lock self) w)) in
  outcome_of ended ≠ OutOfFuel →
  owned_state self (w_fs (world_of ended)) →
  let r := run (with_SimpleLock self body) w in
  outcome_of r = outcome_of ended ∧
  removals (trace_of r) =
    removals (trace_of ended) ++ [_lockfile_path self; _tmpfile_path self] ∧
  dir (w_fs (world_of r)) !! _lockfile_path self = None ∧
  dir (w_fs (world_of r)) !! _tmpfile_path self = None.
Proof.
  intros Hc Hft Hfl Hdl Hne Hcr ended Hend Hown r. subst r ended.
  rewrite run_with_SimpleLock.
  destruct (lock_calm_free self w Hc Hft Hfl Hdl Hne) as (w1 & tr1 & i & Hlock & _).
  pose proof (lock_removals self w) as Hrm1.
  pose proof (run_calm (lock self) w Hc) as [Hc1 _].
  rewrite Hlock in Hend, Hown, Hrm1, Hc1 |- *.
  unfold world_of, trace_of, outcome_of in *. cbn [fst snd] in *.
  pose proof (run_calm (body PyNone) w1 Hc1) as [Hc2 _].
  destruct (run (body PyNone) w1) as [[o w2] tr2].
  unfold world_of, outcome_of, trace_of in *. cbn [fst snd] in *.
  destruct (unlock_calm_owned self false w2 Hc2 Hown Hne) as (w3 & rd & Hunlock & Hd3 & _).
  { by apply universal_newlines_plain. }
  rewrite Hunlock.
  assert (dir (w_fs w3) !! _lockfile_path self = None ∧
          dir (w_fs w3) !! _tmpfile_path self = None) as [Hl3 Ht3].
  { rewrite Hd3. rewrite lookup_delete_eq, lookup_delete_ne, lookup_delete_eq by done. done. }
  assert (∀ a b : list event, removals (a ++ b) = removals a ++ removals b) as Happ.
  { intros a b. unfold removals. apply omap_app. }
  destruct o as [fl|e|]; [| |done]; cbn [fst snd exit_outcome];
    rewrite !Happ, Hrm1; done.
Qed.

(** ** Scenarios *)

Lemma calm_world0 : calm world0.
Proof. constructor. Qed.

Lemma calm_contended : calm contended.
Proof. repeat constructor. Qed.

Lemma calm_owned : calm owned.
Proof. constructor. Qed.

Lemma owned_state_owned : owned_state lockA (w_fs owned).
Proof. split; [by vm_compute|]. split; [by vm_compute|]. exists 0%nat. by vm_compute. Qed.

Lemma lock_ends_within_its_attempts_witness :
  _no_sleep lockA = false ∧
  outcome_of (run (lock lockA) world0) ≠ OutOfFuel ∧
  (length (link_results (trace_of (run (lock lockA) world0))) ≤ lock_fuel lockA)%nat.
Proof.
  split; [reflexivity|]. exact (lock_ends_within_its_attempts lockA world0 eq_refl).
Defined.

Lemma lock_raises_when_marker_cannot_be_opened_witness :
  calm no_access ∧
  faults (w_fs no_access) !! _tmpfile_path lockA = Some EACCES ∧
  outcome_of (run (lock lockA) no_access) = Raised (OSError 13) ∧
  trace_of (run (lock lockA) no_access) = [EvOpenW "/tmp/x.lock.4242" (inl 13%Z)] ∧
  w_fs (world_of (run (lock lockA) no_access)) = w_fs no_access.
Proof.
  assert (calm no_access) as Hc by constructor.
  assert (faults (w_fs no_access) !! _tmpfile_path lockA = Some EACCES) as Hf
    by (vm_compute; reflexivity).
  split; [exact Hc|]. split; [exact Hf|].
  exact (lock_raises_when_marker_cannot_be_opened lockA no_access EACCES Hc Hf).
Defined.

Lemma lock_timeout_leaves_marker_witness :
  calm contended ∧
  outcome_of (run (lock lockA) contended) = Raised (LockError "Timeout") ∧
  marker_written lockA (w_fs (world_of (run (lock lockA) contended))) ∧
  is_Some (dir (w_fs (world_of (run (lock lockA) contended))) !! "/tmp/x.lock") ∧
  removals (trace_of (run (lock lockA) contended)) = [].
Proof.
  assert (outcome_of (run (lock lockA) contended) = Raised (LockError "Timeout")) as Ho
    by (vm_compute; reflexivity).
  split; [exact calm_contended|]. split; [exact Ho|].
  exact (lock_timeout_leaves_marker lockA contended calm_contended Ho).
Defined.

Lemma lock_on_held_path_times_out_witness :
  calm contended ∧
  is_Some (dir (w_fs contended) !! "/tmp/x.lock") ∧
  outcome_of (run (lock lockA) contended) = Raised (LockError "Timeout") ∧
  dir (w_fs (world_of (run (lock lockA) contended))) !! "/tmp/x.lock" = Some 7%nat.
Proof.
  assert (is_Some (dir (w_fs contended) !! _lockfile_path lockA)) as Hl
    by (exists 7%nat; vm_compute; reflexivity).
  split; [exact calm_contended|]. split; [exact Hl|].
  destruct (lock_on_held_path_times_out lockA contended calm_contended eq_refl
              eq_refl eq_refl Hl) as (Ho & Hd & _).
  split; [exact Ho|]. etrans; [exact Hd|]. vm_compute. reflexivity.
Defined.

Lemma lock_free_path_first_attempt_witness :
  calm world0 ∧
  dir (w_fs world0) !! "/tmp/x.lock" = None ∧
  outcome_of (run (lock lockA) world0) = Returned tt ∧
  link_results (trace_of (run (lock lockA) world0)) = [inr tt] ∧
  sleeps (trace_of (run (lock lockA) world0)) = [] ∧
  owned_state lockA (w_fs (world_of (run (lock lockA) world0))).
Proof.
  split; [exact calm_world0|]. split; [reflexivity|].
  apply (lock_free_path_first_attempt lockA world0 calm_world0);
    [reflexivity|reflexivity|reflexivity|].
  vm_compute. discriminate.
Defined.

Lemma is_locked_after_lock_witness :
  let locked := run (lock lockA) world0 in
  has_char CR "/tmp/x.lock" = false ∧
  calm world0 ∧
  locked = (Returned tt, world_of locked, trace_of locked) ∧
  outcome_of (run (is_locked lockA) (world_of locked)) = Returned true ∧
  outcome_of (run (is_locked (instance "/tmp/x.lock" null_logger 1)) (world_of locked)) =
    Returned false.
Proof.
  intros locked.
  assert (has_char CR "/tmp/x.lock" = false) as Hcr by (vm_compute; reflexivity).
  assert (locked = (Returned tt, world_of locked, trace_of locked)) as Hl
    by (vm_compute; reflexivity).
  split; [exact Hcr|]. split; [exact calm_world0|]. split; [exact Hl|].
  destruct (is_locked_after_lock "/tmp/x.lock" null_logger null_logger 4242 1 world0
              (world_of locked) (trace_of locked) Hcr calm_world0 Hl) as [H1 H2].
  split; [exact H1|]. apply H2. discriminate.
Defined.

Lemma unlock_owner_releases_witness :
  let r := run (unlock lockA false) owned in
  calm owned ∧ owned_state lockA (w_fs owned) ∧
  outcome_of r = Returned tt ∧
  removals (trace_of r) = ["/tmp/x.lock"; "/tmp/x.lock.4242"] ∧
  dir (w_fs (world_of r)) !! "/tmp/x.lock" = None ∧
  dir (w_fs (world_of r)) !! "/tmp/x.lock.4242" = None.
Proof.
  intros r. split; [exact calm_owned|]. split; [exact owned_state_owned|].
  destruct (unlock_owner_releases lockA false owned calm_owned owned_state_owned)
    as (Ho & Hr & Hd & _).
  - vm_compute. discriminate.
  - vm_compute. reflexivity.
  - split; [exact Ho|]. split; [exact Hr|]. fold r in Hd. rewrite Hd.
    split; vm_compute; reflexivity.
Defined.

Lemma unlock_absent_raises_witness :
  calm world0 ∧
  dir (w_fs world0) !! "/tmp/x.lock" = None ∧
  outcome_of (run (unlock lockA true) world0) = Raised (LockError "Not locked by myself").
Proof.
  split; [exact calm_world0|]. split; [reflexivity|].
  exact (unlock_absent_raises lockA true world0 calm_world0 eq_refl eq_refl).
Defined.

Lemma unlock_stops_at_first_failure_witness :
  trace_of (run (unlock lockA true) interrupted) !! 1%nat =
    Some (EvUnlink "/tmp/x.lock" (inl 13%Z)) ∧
  outcome_of (run (unlock lockA true) interrupted) = Raised (OSError 13) ∧
  removals (trace_of (run (unlock lockA true) interrupted)) = ["/tmp/x.lock"].
Proof.
  assert (trace_of (run (unlock lockA true) interrupted) !! 1%nat =
            Some (EvUnlink (_lockfile_path lockA) (inl 13%Z))) as Hev
    by (vm_compute; reflexivity).
  split; [exact Hev|].
  destruct (unlock_stops_at_first_failure lockA true interrupted 13 Hev) as (Ho & Hr & _).
  - right. discriminate.
  - split; [exact Ho|exact Hr].
Defined.

Lemma unlock_frees_the_path_witness :
  let released := run (unlock lockA false) owned in
  let other := instance "/tmp/x.lock" null_logger 1 in
  calm owned ∧
  released = (Returned tt, world_of released, trace_of released) ∧
  outcome_of (run (lock other) (world_of released)) = Returned tt ∧
  link_results (trace_of (run (lock other) (world_of released))) = [inr tt] ∧
  owned_state other (w_fs (world_of (run (lock other) (world_of released)))).
Proof.
  intros released other.
  assert (released = (Returned tt, world_of released, trace_of released)) as Hr
    by (vm_compute; reflexivity).
  split; [exact calm_owned|]. split; [exact Hr|].
  apply (unlock_frees_the_path lockA other false owned _ _ calm_owned Hr).
  - reflexivity.
  - vm_compute. discriminate.
  - vm_compute. reflexivity.
Defined.

Lemma with_free_path_round_trip_witness :
  let r := run (with_SimpleLock lockA (λ _, mret Normal)) world0 in
  calm world0 ∧
  dir (w_fs world0) !! "/tmp/x.lock" = None ∧
  outcome_of r = Returned Normal ∧
  removals (trace_of r) = ["/tmp/x.lock"; "/tmp/x.lock.4242"] ∧
  dir (w_fs (world_of r)) !! "/tmp/x.lock" = None ∧
  dir (w_fs (world_of r)) !! "/tmp/x.lock.4242" = None.
Proof.
  intros r. split; [exact calm_world0|]. split; [reflexivity|].
  destruct (with_free_path_round_trip lockA (λ _, mret Normal) world0 calm_world0)
    as (Ho & Hr & Hl & Ht).
  - reflexivity.
  - reflexivity.
  - reflexivity.
  - vm_compute. discriminate.
  - vm_compute. reflexivity.
  - vm_compute. discriminate.
  - split; [by vm_compute|]. split; [by vm_compute|]. exists 0%nat. by vm_compute.
  - split; [exact Ho|]. split; [exact Hr|]. split; [exact Hl|exact Ht].
Defined.

(** * More on several processes *)

Section pool_more.
Import Pool.
Variable path : string.
Variable logger_of : N → Logger.

Local Abbreviation self := (Pool.self path logger_of).
Local Abbreviation exec := (Pool.exec path).
Local Abbreviation step := (Pool.step path logger_of).
Local Abbreviation steps := (Pool.steps path logger_of).
Local Abbreviation initial := (Pool.initial path).
Local Abbreviation code_of := (Pool.code_of path logger_of).
Local Abbreviation pc_step := (Pool.pc_step path logger_of).
Local Abbreviation tmp := (Pool.tmp path).
Local Abbreviation pc_ok := (Pool.pc_ok path).
Local Abbreviation inv_owner := (Pool.inv_owner path).
Local Abbreviation Inv := (Pool.Inv path logger_of).

(** X16. However the processes are interleaved, [is_locked()] answers
    [True] to the process that holds the lock only: a process for which the
    ownership test, made on the files as they are, answers [True] is the
    holder. *)
Theorem ownership_test_true_only_for_holder (s s' : state) (q : N) (w : World) :
  initial s → steps s s' →
  member s' q →
  w_fs w = w_fs (st_world s') → w_env w = [] →
  outcome_of (run (is_locked (self q)) w) = Returned true →
  holds s' q.
Proof.
  intros Hinit Hsteps Hq Hfs Henv.
  pose proof (Inv_steps _ _ _ _ (Inv_initial _ _ _ Hinit) Hsteps) as [I _].
  rewrite run_is_locked. cbv zeta. unfold env_tick. rewrite Henv, Hfs.
  change (_lockfile_path (self q)) with path.
  change (_tmpfile_path (self q)) with (tmp q).
  destruct (fs_read_text _ _) as [e|content] eqn:Hread; unfold outcome_of; cbn [fst].
  { by destruct (decide (e ≠ ENOENT)). }
  intros [= Hc%bool_decide_eq_true].
  by eapply (owner_test_true path _ _ _ q content I).
Qed.

(** A call other than the removal of the lock file by [unlock] leaves the
    lock file where it is, and the caller holding or not holding as
    before. *)
Lemma pc_step_keeps_lock_file pid p h w p' h' w' i :
  pc_step pid p h w = Some (p', h', w') →
  dir (w_fs w) !! path = Some i →
  (∀ force, p ≠ AtUnlinkLock force) →
  dir (w_fs w') !! path = Some i ∧ h' = h.
Proof.
  intros Hstep Hl Hp.
  pose proof (format_tmpfile_not_path path pid) as Hne.
  destruct p as [| |f| |[|fuel] timeout| |e|fuel timeout|fuel timeout|r fuel timeout
                |force|force|force|force| |res|]; cbn [pc_step] in Hstep; try done;
    try (by destruct (Hp force));
    try (injection Hstep as <- <- <-; cbn [sys fst snd w_fs as_process];
         try destruct (decide _); done).
  - (* AtOpen *)
    cbn [w_fs as_process] in Hstep.
    destruct (fs_open_w _ _) as [r fs'] eqn:Hopen. injection Hstep as <- <- <-.
    split; [|done]. cbn [w_fs set_fs]. unfold fs_open_w in Hopen.
    destruct (faults (w_fs w) !! _); [by injection Hopen as <- <-|].
    destruct (dir (w_fs w) !! _tmpfile_path _); injection Hopen as <- <-; cbn [dir]; [done|].
    by rewrite lookup_insert_ne.
  - (* AtWrite *)
    cbn [w_fs as_process] in Hstep.
    destruct (fs_write_close _ _ _) as [r fs'] eqn:Hwrite. injection Hstep as <- <- <-.
    split; [|done]. cbn [w_fs set_fs]. unfold fs_write_close in Hwrite.
    destruct (faults (w_fs w) !! _); by injection Hwrite as <- <-.
  - (* AtLoop *)
    cbn [w_fs as_process] in Hstep.
    destruct (fs_link _ _ _) as [r fs'] eqn:Hlink. injection Hstep as <- <- <-.
    cbn [w_fs set_fs]. unfold fs_link in Hlink. rewrite Hl in Hlink.
    destruct (faults (w_fs w) !! path); [by injection Hlink as <- <-|].
    destruct (dir (w_fs w) !! _); by injection Hlink as <- <-.
  - (* AtUnlinkTmp *)
    cbn [w_fs as_process] in Hstep.
    destruct (fs_unlink _ _) as [r fs'] eqn:Hunlink. injection Hstep as <- <- <-.
    split; [|done]. cbn [w_fs set_fs]. unfold fs_unlink in Hunlink.
    destruct (faults (w_fs w) !! _); [by injection Hunlink as <- <-|].
    destruct (dir (w_fs w) !! _tmpfile_path _); injection Hunlink as <- <-; cbn [dir]; [|done].
    by rewrite lookup_delete_ne.
Qed.

(** X17. The lock is lost in one way only.  While a process holds the
    lock, no step of any process and no step of the environment removes or
    replaces the lock file, and the holder goes on holding, except for
    [os.unlink] of the lock file in [unlock] of the holder itself, after
    which nobody holds. *)
Theorem lock_file_stays_until_holder_unlinks (s s' s'' : state) (p : N) (i : nat) :
  initial s → steps s s' → step s' s'' →
  holds s' p →
  dir (w_fs (st_world s')) !! path = Some i →
  (holds s'' p ∧ dir (w_fs (st_world s'')) !! path = Some i) ∨
  (∃ force,
     st_procs s' !! p = Some (mkProc (Some (code_of p (AtUnlinkLock force))) true) ∧
     st_procs s'' !! p = Some (mkProc (Some (code_of p (AtUnlinkTmp force))) false) ∧
     dir (w_fs (st_world s'')) !! path = None).
Proof.
  intros Hinit Hsteps Hstep Hp Hl.
  pose proof (Inv_steps _ _ _ _ (Inv_initial _ _ _ Hinit) Hsteps) as [I Hprocs].
  destruct Hstep as
    [pid m h w ps Hpid|pid code h code' h' w w' ps Hpid Hexec
    |pid code h w ps Hpid Hfin|d fl w ps Hd]; cbn [st_world st_procs] in *.
  - left. split; [|done]. by eapply holds_same.
  - specialize (Hprocs pid _ Hpid). destruct Hprocs as (pc0 & Hcode & Hok).
    cbn [p_code p_holds] in *. subst code.
    rewrite exec_code_of in Hexec.
    destruct (pc_step pid pc0 h w) as [[[p' h''] w'']|] eqn:Hpc; [|done].
    injection Hexec as <- <- <-.
    assert ((∃ force, pc0 = AtUnlinkLock force) ∨ ∀ force, pc0 ≠ AtUnlinkLock force)
      as [[force ->]|Hnot] by (destruct pc0; eauto).
    + cbn [pc_ok] in Hok. subst h.
      assert (pid = p) as ->.
      { eapply (fs_inv_unique path); [exact I| |exact Hp]. by eexists. }
      cbn [pc_step w_fs as_process] in Hpc. unfold fs_unlink in Hpc. rewrite Hl in Hpc.
      destruct (faults (w_fs w) !! path) as [f|] eqn:Hf; cbv beta iota zeta in Hpc;
        injection Hpc as <- <- <-.
      * left. split; [|done]. apply holds_update. by left.
      * right. exists force. rewrite lookup_insert_eq. cbn [w_fs set_fs dir].
        by rewrite lookup_delete_eq.
    + destruct (pc_step_keeps_lock_file pid pc0 h w p' h'' w'' i Hpc Hl) as [Hl' ->].
      { done. }
      left. split; [|done]. by eapply holds_same.
  - left. split; [|done]. by eapply holds_same.
  - left. done.
Qed.

(** X18. When no process holds the lock and there is no fault on the lock
    path, the attempt of a process to create the link succeeds: the process
    holds the lock, the lock file is a link to its marker, and [lock] goes
    on to log ['Obtained lock'] and return. *)
Theorem link_attempt_succeeds_when_free (s s' : state) (q : N) (n : nat) (timeout : Q)
    (h : bool) (code' : prog unit) (h' : bool) (w' : World) :
  initial s → steps s s' →
  (∀ p, ¬ holds s' p) →
  faults (w_fs (st_world s')) !! path = None →
  st_procs s' !! q = Some (mkProc (Some (lock_loop (S n) (self q) timeout)) h) →
  exec q (lock_loop (S n) (self q) timeout) h (st_world s') = Some (code', h', w') →
  h' = true ∧ code' = code_of q AtObtained ∧
  ∃ i, dir (w_fs w') !! path = Some i ∧ dir (w_fs w') !! tmp q = Some i.
Proof.
  intros Hinit Hsteps Hfree Hf Hq Hexec.
  pose proof (Inv_steps _ _ _ _ (Inv_initial _ _ _ Hinit) Hsteps) as [I Hprocs].
  assert (dir (w_fs (st_world s')) !! path = None) as Hl.
  { destruct (dir (w_fs (st_world s')) !! path) as [i|] eqn:Hl; [|done].
    destruct (inv_owner _ _ _ I i Hl) as [p Hp]. by destruct (Hfree p). }
  specialize (Hprocs q _ Hq). destruct Hprocs as (pc' & Hcode & Hok).
  cbn [p_code p_holds] in Hcode, Hok.
  assert (at_link_attempt (code_of q pc') = true) as Hat by (by rewrite <- Hcode).
  apply at_link_attempt_pc in Hat as (n' & timeout' & ->).
  destruct Hok as [j Hj].
  change (lock_loop (S n) (self q) timeout) with (code_of q (AtLoop (S n) timeout)) in Hexec.
  rewrite exec_code_of in Hexec. cbn [pc_step w_fs as_process] in Hexec.
  unfold fs_link in Hexec.
  change (_tmpfile_path (self q)) with (tmp q) in Hexec. rewrite Hf, Hj, Hl in Hexec.
  cbn in Hexec. injection Hexec as <- <- <-.
  split; [done|]. split; [done|]. exists j. cbn [w_fs set_fs dir].
  rewrite lookup_insert_eq, lookup_insert_ne; [done|].
  symmetry. apply format_tmpfile_not_path.
Qed.

End pool_more.

(** Process [pid] calls [lock] and makes its first [n] system calls. *)
Tactic Notation "calls_lock" constr(who) integer(n) :=
  eapply rtc_l; [eapply (Pool.step_call _ _ who Pool.MLock); reflexivity|];
  change (Pool.method_prog "/tmp/x.lock" (λ _, null_logger) who Pool.MLock)
    with (Pool.code_of "/tmp/x.lock" (λ _, null_logger) who Pool.AtLock);
  do n (eapply rtc_l;
        [eapply step_pc with (pid := who); [reflexivity|vm_compute; reflexivity]|]).

Lemma ownership_test_true_only_for_holder_witness :
  ∃ s', Pool.initial "/tmp/x.lock" Pool.start ∧
        Pool.steps "/tmp/x.lock" (λ _, null_logger) Pool.start s' ∧
        Pool.member s' 1 ∧
        outcome_of (run (is_locked (Pool.self "/tmp/x.lock" (λ _, null_logger) 1))
                      (mkWorld (w_fs (Pool.st_world s')) 0 [] [] 1 [])) = Returned true ∧
        Pool.holds s' 1.
Proof.
  eexists. split; [exact start_initial|].
  match goal with |- ?S ∧ _ => assert S as Hsteps end.
  { calls_lock 1%N 5. apply rtc_refl. }
  split; [exact Hsteps|].
  match goal with |- ?G ∧ _ => assert G as Hm by (eexists; reflexivity) end.
  split; [exact Hm|].
  match goal with |- ?G ∧ _ => assert G as Hrun by (vm_compute; reflexivity) end.
  split; [exact Hrun|].
  exact (ownership_test_true_only_for_holder "/tmp/x.lock" (λ _, null_logger) Pool.start _
           1%N _ start_initial Hsteps Hm eq_refl eq_refl Hrun).
Defined.

Lemma lock_file_stays_until_holder_unlinks_witness :
  ∃ s' s'', Pool.initial "/tmp/x.lock" Pool.start ∧
    Pool.steps "/tmp/x.lock" (λ _, null_logger) Pool.start s' ∧
    Pool.step "/tmp/x.lock" (λ _, null_logger) s' s'' ∧
    Pool.holds s' 1 ∧
    dir (w_fs (Pool.st_world s')) !! "/tmp/x.lock" = Some 0%nat ∧
    Pool.holds s'' 1 ∧
    dir (w_fs (Pool.st_world s'')) !! "/tmp/x.lock" = Some 0%nat.
Proof.
  eexists _, _. split; [exact start_initial|].
  match goal with |- ?S ∧ _ => assert S as Hsteps end.
  { calls_lock 1%N 5. apply rtc_refl. }
  split; [exact Hsteps|].
  match goal with |- ?S ∧ _ => assert S as Hstep end.
  { eapply (Pool.step_call _ _ 2%N Pool.MLock). reflexivity. }
  split; [exact Hstep|].
  match goal with |- ?G ∧ _ => assert G as Hh by (eexists; split; reflexivity) end.
  split; [exact Hh|].
  match goal with |- ?G ∧ _ => assert G as Hl by (vm_compute; reflexivity) end.
  split; [exact Hl|].
  destruct (lock_file_stays_until_holder_unlinks "/tmp/x.lock" (λ _, null_logger)
              Pool.start _ _ 1%N 0%nat start_initial Hsteps Hstep Hh Hl)
    as [Hkeep|(force & _ & Hp & _)].
  - exact Hkeep.
  - exfalso. cbn [Pool.st_procs] in Hp.
    rewrite lookup_insert_ne, lookup_insert_eq in Hp by discriminate. discriminate Hp.
Defined.

Lemma link_attempt_succeeds_when_free_witness :
  ∃ s' n timeout code' h' w',
    Pool.initial "/tmp/x.lock" Pool.start ∧
    Pool.steps "/tmp/x.lock" (λ _, null_logger) Pool.start s' ∧
    (∀ p, ¬ Pool.holds s' p) ∧
    Pool.st_procs s' !! 1%N =
      Some (Pool.mkProc
              (Some (lock_loop (S n) (Pool.self "/tmp/x.lock" (λ _, null_logger) 1) timeout))
              false) ∧
    Pool.exec "/tmp/x.lock" 1
      (lock_loop (S n) (Pool.self "/tmp/x.lock" (λ _, null_logger) 1) timeout)
      false (Pool.st_world s') = Some (code', h', w') ∧
    h' = true ∧
    code' = Pool.code_of "/tmp/x.lock" (λ _, null_logger) 1 Pool.AtObtained.
Proof.
  eexists _, (Nat.pred (lock_fuel (Pool.self "/tmp/x.lock" (λ _, null_logger) 1))), 60%Q.
  eexists _, _, _. split; [exact start_initial|].
  match goal with |- ?S ∧ _ => assert S as Hsteps end.
  { calls_lock 1%N 4. apply rtc_refl. }
  split; [exact Hsteps|].
  match goal with |- ?G ∧ _ => assert G as Hfree end.
  { intros p (pr & Hp & Hh). cbn [Pool.st_procs] in Hp.
    repeat (apply lookup_insert_Some in Hp as [[_ <-]|[? Hp]]; [discriminate Hh|]).
    apply lookup_singleton_Some in Hp as [_ <-]. discriminate Hh. }
  split; [exact Hfree|].
  match goal with |- ?G ∧ _ => assert G as Hq by reflexivity end.
  split; [exact Hq|].
  match goal with |- ?G ∧ _ => assert G as Hexec by reflexivity end.
  split; [exact Hexec|].
  destruct (link_attempt_succeeds_when_free "/tmp/x.lock" (λ _, null_logger) Pool.start _
              1%N _ _ _ _ _ _ start_initial Hsteps Hfree eq_refl Hq Hexec)
    as (Hh' & Hcode & _).
  split; [exact Hh'|exact Hcode].
Defined.

(** * The writer of the demo *)

Lemma run_for_each_nil {A} (body : A → prog unit) w :
  run (for_each [] body) w = (Returned tt, w, []).
Proof. done. Qed.

Lemma run_for_each_cons {A} (x : A) xs (body : A → prog unit) w :
  run (for_each (x :: xs) body) w =
  match run (body x) w with
  | (Returned _, w1, tr1) =>
      let '(o, w2, tr2) := run (for_each xs body) w1 in (o, w2, tr1 ++ tr2)
  | (Raised e, w1, tr1) => (Raised e, w1, tr1)
  | (OutOfFuel, w1, tr1) => (OutOfFuel, w1, tr1)
  end.
Proof. cbn [for_each]. by rewrite run_bind. Qed.

(** The block of the writer, when nothing interferes. *)
Lemma writer_block_calm content_path lg i v w :
  calm w →
  faults (w_fs w) !! content_path = None →
  ∃ w1 c rnd,
    run (writer_block content_path lg i v) w =
      (Returned Normal, w1,
       [EvOpenW content_path (inr (mkHandle content_path c)); EvRandom rnd; EvSleep rnd;
        EvWriteClose (mkHandle content_path c) (json_dumps_value i) (inr tt)]) ∧
    dir (w_fs w1) = <[content_path := c]> (dir (w_fs w)) ∧
    inodes (w_fs w1) = <[c := json_dumps_value i]> (inodes (w_fs w)) ∧
    (dir (w_fs w) !! content_path = Some c ∨
     dir (w_fs w) !! content_path = None ∧ inodes (w_fs w) !! c = None).
Proof.
  intros Hc Hf. unfold writer_block, logger_info.
  rewrite run_bind, run_os_call. cbn [sys].
  destruct (quiet_env_tick w Hc) as [Hfs Hc1]. rewrite Hfs.
  destruct (fs_open_w _ _) as [[e|h] fs1] eqn:Hopen; cbv beta iota zeta.
  { unfold fs_open_w in Hopen. rewrite Hf in Hopen.
    by destruct (dir (w_fs w) !! content_path). }
  pose proof Hopen as (Hhp & Hd1 & Hother & Hi1 & Hwas)%fs_open_w_spec.
  assert (dir fs1 = <[content_path := h_ino h]> (dir (w_fs w))) as Hdir1.
  { unfold fs_open_w in Hopen. rewrite Hf in Hopen.
    destruct (dir (w_fs w) !! content_path) as [j|] eqn:Hj;
      injection Hopen as <- <-; cbn [dir h_ino]; [|done].
    by rewrite insert_id. }
  apply fs_open_w_inr in Hopen as (_ & _ & Hf1 & _).
  destruct h as [hp c]. cbn [h_path h_ino] in *. subst hp.
  assert (calm (set_fs fs1 (env_tick w))) as Hc2 by done.
  rewrite run_bind, run_trigger.
  pose proof (quiet_sys Random _ eq_refl Hc2) as [Hfs2 Hc3].
  destruct (sys Random _) as [[rnd w2] ev2] eqn:Hrnd. cbn [fst snd] in Hfs2, Hc3.
  assert (ev2 = [EvRandom rnd]) as ->.
  { cbn [sys] in Hrnd. by injection Hrnd as <- _ <-. }
  rewrite run_bind, run_trigger.
  pose proof (quiet_sys (Sleep rnd) _ eq_refl Hc3) as [Hfs3 Hc4].
  destruct (sys (Sleep rnd) _) as [[[] w3] ev3] eqn:Hsl. cbn [fst snd] in Hfs3, Hc4.
  assert (ev3 = [EvSleep rnd]) as ->.
  { cbn [sys] in Hsl. by injection Hsl as _ <-. }
  rewrite run_bind, run_log.
  destruct (quiet_log_to (mkLog lg INFO "Writing {}" [ArgStr (str_of_int i)]) _ Hc4)
    as [Hfs4 Hc5].
  rewrite run_bind, run_os_call. cbn [sys].
  destruct (quiet_env_tick _ Hc5) as [Hfs5 Hc6].
  rewrite Hfs5, Hfs4, Hfs3, Hfs2. cbn [w_fs set_fs].
  unfold fs_write_close. cbn [h_path h_ino]. rewrite Hf1, Hf. cbv beta iota zeta.
  rewrite run_mret. cbn [app].
  eexists _, c, rnd. split; [done|]. cbn [w_fs set_fs dir inodes].
  rewrite Hi1, insert_insert_eq. done.
Qed.

Lemma string_of_int_no_char (c : Ascii.ascii) (i : Z) :
  is_digit c = false → c ≠ Ascii.ascii_of_nat 45 → has_char c (str_of_int i) = false.
Proof.
  intros Hd Hm. unfold str_of_int.
  assert (∀ u, has_char c (NilZero.string_of_uint u) = false) as Hu.
  { intros u. destruct (has_char c (NilZero.string_of_uint u)) eqn:H; [|done].
    assert (is_digit c = true); [|congruence].
    unfold NilZero.string_of_uint in H. destruct u; try (by eapply string_of_uint_digits).
    cbn in H. apply orb_true_iff in H as [H%Ascii.eqb_eq|H]; [by subst|done]. }
  destruct (Z.to_int i) as [u|u]; cbn [NilZero.string_of_int has_char]; [done|].
  rewrite Hu, orb_false_r. by apply Ascii.eqb_neq.
Qed.

Lemma json_dumps_value_plain (i : Z) :
  universal_newlines (json_dumps_value i) = json_dumps_value i.
Proof.
  apply universal_newlines_plain. unfold json_dumps_value.
  rewrite !has_char_app. rewrite string_of_int_no_char; done.
Qed.

Lemma writes_to_app path a b : writes_to path (a ++ b) = writes_to path a ++ writes_to path b.
Proof. apply omap_app. Qed.

Lemma loop_trace_writes self timeout o tr path :
  loop_trace self timeout o tr → writes_to path tr = [].
Proof. induction 1; done. Qed.

Lemma lock_writes_to self w p :
  p ≠ _tmpfile_path self → writes_to p (trace_of (run (lock self) w)) = [].
Proof.
  intros Hp. rewrite run_lock. unfold lock_prelude. cbn [sys].
  destruct (fs_open_w _ _) as [[e|h] fs1] eqn:Hopen; cbv beta iota zeta; [done|].
  apply fs_open_w_inr in Hopen as (Hhp & _).
  destruct (fs_write_close _ _ _) as [[e|[]] fs2]; cbv beta iota zeta; [done|].
  match goal with |- context [run (lock_loop ?n self ?T) ?w'] =>
    pose proof (lock_loop_trace self T n w') as Htr;
    destruct (run (lock_loop n self T) w') as [[o w''] tr]
  end.
  apply (loop_trace_writes _ _ _ _ p) in Htr. unfold trace_of, writes_to in *.
  cbn [fst snd] in *. rewrite omap_app, Htr. cbn. rewrite Hhp.
  by rewrite decide_False by done.
Qed.

(** One round of the writer. *)
Lemma writer_round_calm content_path lock_path lg i w :
  writer_ready content_path lock_path w →
  content_path ≠ lock_path →
  content_path ≠ format_tmpfile lock_path (w_pid w) →
  has_char CR lock_path = false →
  ∃ w1 tr,
    run (writer_round content_path lock_path lg i) w = (Returned tt, w1, tr) ∧
    writer_ready content_path lock_path w1 ∧
    w_pid w1 = w_pid w ∧
    writes_to content_path tr = [json_dumps_value i] ∧
    removals tr = [lock_path; format_tmpfile lock_path (w_pid w)] ∧
    fs_read_text content_path (w_fs w1) = inr (json_dumps_value i).
Proof.
  intros (Hc & Hfc & Hft & Hfl & Hdl & Hdt & Hdang) Hcl Hct Hcr.
  set (pid := w_pid w) in *. set (tmp := format_tmpfile lock_path pid) in *.
  pose proof (run_calm (writer_round content_path lock_path lg i) w Hc) as [HcE HfE].
  pose proof (run_pid (writer_round content_path lock_path lg i) w) as HpE.
  revert HcE HfE HpE.
  unfold writer_round. rewrite run_bind, run_log.
  set (rec := mkLog lg DEBUG "Trying acquiring lock" []).
  destruct (quiet_log_to rec w Hc) as [Hfs0 Hc0].
  rewrite run_bind, run___init__. change (default null_logger (Some lg)) with lg.
  destruct (quiet_env_tick _ Hc0) as [Hfs1 Hc1].
  assert (w_pid (env_tick (log_to rec w)) = pid) as ->.
  { rewrite w_pid_env_tick. unfold log_to. by rewrite w_pid_sys, w_pid_env_tick. }
  set (self := instance lock_path lg pid).
  set (wa := env_tick (log_to rec w)) in *.
  assert (w_fs wa = w_fs w) as Hfsa by (by rewrite Hfs1, Hfs0).
  assert (_tmpfile_path self ≠ _lockfile_path self) as Hne
    by apply format_tmpfile_not_path.
  rewrite run_bind, run_with_SimpleLock.
  destruct (lock_calm_free self wa Hc1) as (w1 & tr1 & ino & Hlock & Hl1 & _ & Hd1 & Hi1 & Hwas);
    rewrite ?Hfsa; try done.
  rewrite Hfsa in Hd1, Hi1, Hwas.
  change (_lockfile_path self) with lock_path in *.
  change (_tmpfile_path self) with tmp in *.
  destruct Hwas as [Hwas|[_ Hfresh]]; [congruence|].
  pose proof (lock_removals self wa) as Hrm1.
  pose proof (lock_writes_to self wa content_path Hct) as Hw1.
  pose proof (run_calm (lock self) wa Hc1) as [HcL HfL].
  rewrite Hlock in Hrm1, Hw1, HcL, HfL |- *.
  unfold trace_of, world_of in Hrm1, Hw1, HcL, HfL. cbn [fst snd] in Hrm1, Hw1, HcL, HfL.
  rewrite Hfsa in HfL.
  destruct (writer_block_calm content_path lg i PyNone w1 HcL)
    as (w2 & c & rnd & Hblock & Hd2 & Hi2 & Hwas2); [by rewrite HfL|].
  pose proof (run_calm (writer_block content_path lg i PyNone) w1 HcL) as [HcB HfB].
  rewrite Hblock in HcB, HfB |- *. unfold world_of in HcB, HfB. cbn [fst snd] in HcB, HfB.
  assert (c ≠ ino) as Hcino.
  { rewrite Hd1, !lookup_insert_ne in Hwas2 by done.
    destruct Hwas2 as [Hwas2|[_ Hwas2]].
    - destruct (Hdang _ _ Hwas2) as [x Hx]. congruence.
    - rewrite Hi1 in Hwas2. intros ->. by rewrite lookup_insert_eq in Hwas2. }
  assert (owned_state self (w_fs w2)) as Hown.
  { split; [by rewrite HfB, HfL|]. split; [by rewrite HfB, HfL|]. exists ino.
    change (_lockfile_path self) with lock_path. change (_tmpfile_path self) with tmp.
    rewrite Hd2, Hd1, Hi2, Hi1.
    rewrite (lookup_insert_ne _ content_path lock_path), lookup_insert_eq by done.
    rewrite (lookup_insert_ne _ content_path tmp) by done.
    rewrite (lookup_insert_ne _ lock_path tmp), lookup_insert_eq by done.
    by rewrite lookup_insert_ne, lookup_insert_eq. }
  destruct (unlock_calm_owned self false w2 HcB Hown Hne) as (w3 & rd & Hunlock & Hd3 & Hi3).
  { apply universal_newlines_plain. change (_tmpfile_path self) with tmp.
    unfold tmp, format_tmpfile. rewrite !has_char_app, Hcr. by rewrite str_of_pid_no_char. }
  rewrite Hunlock. cbn [exit_outcome].
  pose proof (run_calm (unlock self false) w2 HcB) as [HcU _].
  rewrite Hunlock in HcU. unfold world_of in HcU. cbn [fst snd] in HcU.
  rewrite run_bind, run_trigger.
  pose proof (quiet_sys Random _ eq_refl HcU) as [Hfs4 Hc4].
  destruct (sys Random _) as [[r4 w4] ev4] eqn:Hrnd. cbn [fst snd] in Hfs4, Hc4.
  assert (ev4 = [EvRandom r4]) as ->.
  { cbn [sys] in Hrnd. by injection Hrnd as <- _ <-. }
  rewrite run_trigger.
  pose proof (quiet_sys (Sleep (r4 + (2 # 10))%Q) _ eq_refl Hc4) as [Hfs5 Hc5].
  destruct (sys (Sleep _) _) as [[[] w5] ev5] eqn:Hsl. cbn [fst snd] in Hfs5, Hc5.
  assert (ev5 = [EvSleep (r4 + (2 # 10))%Q]) as ->.
  { cbn [sys] in Hsl. by injection Hsl as _ <-. }
  unfold world_of. cbn [fst snd]. intros _ HfE HpE.
  assert (dir (w_fs w5) !! lock_path = None) as Hl5.
  { rewrite Hfs5, Hfs4, Hd3. change (_lockfile_path self) with lock_path.
    change (_tmpfile_path self) with tmp.
    by rewrite lookup_delete_ne, lookup_delete_eq. }
  assert (dir (w_fs w5) !! tmp = None) as Ht5.
  { rewrite Hfs5, Hfs4, Hd3. change (_tmpfile_path self) with tmp.
    by rewrite lookup_delete_eq. }
  assert (∀ q, q ≠ lock_path → q ≠ tmp →
               dir (w_fs w5) !! q = <[content_path := c]> (dir (w_fs w)) !! q) as Hq5.
  { intros q Hq1 Hq2. rewrite Hfs5, Hfs4, Hd3, Hd2, Hd1.
    change (_lockfile_path self) with lock_path. change (_tmpfile_path self) with tmp.
    rewrite !lookup_delete_ne by done.
    destruct (decide (q = content_path)) as [->|Hq3]; [by rewrite !lookup_insert_eq|].
    by rewrite !lookup_insert_ne. }
  assert (inodes (w_fs w5) = <[c := json_dumps_value i]> (<[ino := tmp]> (inodes (w_fs w))))
    as Hi5 by (by rewrite Hfs5, Hfs4, Hi3, Hi2, Hi1).
  eexists _, _. split; [done|].
  split; [|split; [done|split; [|split]]].
  - unfold writer_ready. rewrite HpE. fold pid tmp. rewrite !HfE.
    repeat split; try done.
    intros q j Hq. rewrite Hi5.
    destruct (decide (q = lock_path)) as [->|Hq1]; [congruence|].
    destruct (decide (q = tmp)) as [->|Hq2]; [congruence|].
    rewrite Hq5 in Hq by done.
    destruct (decide (q = content_path)) as [->|Hq3].
    + rewrite lookup_insert_eq in Hq. injection Hq as <-. by rewrite lookup_insert_eq.
    + rewrite lookup_insert_ne in Hq by done. destruct (Hdang _ _ Hq) as [x Hx].
      destruct (decide (c = j)) as [->|]; [by rewrite lookup_insert_eq|].
      rewrite lookup_insert_ne by done.
      destruct (decide (ino = j)) as [->|]; [by rewrite lookup_insert_eq|].
      rewrite lookup_insert_ne by done. eauto.
  - rewrite !writes_to_app, Hw1. cbn. by rewrite decide_True.
  - assert (∀ a b : list event, removals (a ++ b) = removals a ++ removals b) as Happ.
    { intros a b. unfold removals. apply omap_app. }
    rewrite !Happ, Hrm1. done.
  - unfold fs_read_text. rewrite HfE, Hfc, Hq5, lookup_insert_eq, Hi5, lookup_insert_eq by done.
    change (default "" (Some (json_dumps_value i))) with (json_dumps_value i).
    by rewrite json_dumps_value_plain.
Qed.

Lemma writer_rounds_calm content_path lock_path lg (vs : list Z) w :
  writer_ready content_path lock_path w →
  content_path ≠ lock_path →
  content_path ≠ format_tmpfile lock_path (w_pid w) →
  has_char CR lock_path = false →
  ∃ w1 tr,
    run (for_each vs (writer_round content_path lock_path lg)) w = (Returned tt, w1, tr) ∧
    writer_ready content_path lock_path w1 ∧
    w_pid w1 = w_pid w ∧
    writes_to content_path tr = json_dumps_value <$> vs ∧
    removals tr = vs ≫= (λ _, [lock_path; format_tmpfile lock_path (w_pid w)]) ∧
    (∀ i, last vs = Some i →
          fs_read_text content_path (w_fs w1) = inr (json_dumps_value i)).
Proof.
  intros Hready Hcl Hct Hcr. revert w Hready Hct.
  induction vs as [|i vs IH]; intros w Hready Hct.
  - rewrite run_for_each_nil. eexists _, _. split; [done|].
    split; [done|]. split; [done|]. split; [done|]. split; [done|]. by intros i.
  - rewrite run_for_each_cons.
    destruct (writer_round_calm content_path lock_path lg i w Hready Hcl Hct Hcr)
      as (w1 & tr1 & -> & Hready1 & Hpid1 & Hw1 & Hr1 & Hread1).
    destruct (IH w1 Hready1) as (w2 & tr2 & Hrun2 & Hready2 & Hpid2 & Hw2 & Hr2 & Hread2).
    { by rewrite Hpid1. }
    rewrite Hrun2.
    eexists _, _. split; [done|]. split; [done|]. split; [congruence|].
    split; [|split].
    + by rewrite writes_to_app, Hw1, Hw2.
    + unfold removals in *. rewrite omap_app, Hr1, Hr2, Hpid1. done.
    + intros j Hj. destruct vs as [|i' vs'].
      * injection Hj as <-. rewrite run_for_each_nil in Hrun2. by injection Hrun2 as <- _.
      * apply Hread2. by rewrite last_cons_cons in Hj.
Qed.

(** X19. For [n <= 0] the writer has no round: it returns having made no
    call on the file system or the clock (no lock is taken, nothing is
    written), and has handed its logger the start and the finish records
    only. *)
Theorem writer_without_rounds (content_path lock_path : string) (n : Z) (lg : Logger)
    (w : World) :
  (n ≤ 0)%Z →
  outcome_of (run (_test_lock_writer content_path lock_path n lg) w) = Returned tt ∧
  trace_of (run (_test_lock_writer content_path lock_path n lg) w) = [] ∧
  w_log (world_of (run (_test_lock_writer content_path lock_path n lg) w)) =
    logged lg [writer_start_log content_path lock_path lg; writer_end_log lg] (w_log w).
Proof.
  intros Hn. unfold _test_lock_writer, logger_info.
  assert (seqZ 1 n = []) as ->.
  { unfold seqZ. by replace (Z.to_nat n) with 0%nat by lia. }
  rewrite run_bind, run_log, run_bind, run_for_each_nil. cbv beta iota zeta.
  rewrite run_log. unfold outcome_of, trace_of, world_of. cbn [fst snd app].
  split; [done|]. split; [done|].
  rewrite !w_log_log_to. cbn [log_logger]. unfold logged.
  destruct (decide _); [done|]. by rewrite <- app_assoc.
Qed.

(** X20. The writer alone, on a free lock path with no fault and no
    interference: it returns; it has written the texts of
    [json.dumps({'value': i})] for [i] from 1 to [n] to the content file,
    in this order, one per round; every round has removed the lock file
    and then the marker file, and neither is left; and for [n > 0] the
    content file reads [{"value": n}]. *)
Theorem writer_alone_writes_every_value (content_path lock_path : string) (n : Z)
    (lg : Logger) (w : World) :
  writer_ready content_path lock_path w →
  content_path ≠ lock_path →
  content_path ≠ format_tmpfile lock_path (w_pid w) →
  has_char CR lock_path = false →
  let r := run (_test_lock_writer content_path lock_path n lg) w in
  outcome_of r = Returned tt ∧
  writes_to content_path (trace_of r) = json_dumps_value <$> seqZ 1 n ∧
  removals (trace_of r) =
    seqZ 1 n ≫= (λ _, [lock_path; format_tmpfile lock_path (w_pid w)]) ∧
  dir (w_fs (world_of r)) !! lock_path = None ∧
  dir (w_fs (world_of r)) !! format_tmpfile lock_path (w_pid w) = None ∧
  ((0 < n)%Z → fs_read_text content_path (w_fs (world_of r)) = inr (json_dumps_value n)).
Proof.
  intros Hready Hcl Hct Hcr r. subst r.
  unfold _test_lock_writer, logger_info. rewrite run_bind, run_log.
  set (w0 := log_to _ w).
  assert (writer_ready content_path lock_path w0 ∧ w_pid w0 = w_pid w) as [Hready0 Hpid0].
  { destruct Hready as (Hc & Hfc & Hft & Hfl & Hdl & Hdt & Hdang).
    destruct (quiet_log_to (writer_start_log content_path lock_path lg) w Hc) as [Hfs0 Hc0].
    assert (w_pid w0 = w_pid w) as Hp.
    { unfold w0, log_to. by rewrite w_pid_sys, w_pid_env_tick. }
    split; [|done]. unfold writer_ready. rewrite Hp.
    unfold w0, writer_start_log in *. rewrite Hfs0. done. }
  rewrite run_bind.
  destruct (writer_rounds_calm content_path lock_path lg (seqZ 1 n) w0 Hready0 Hcl)
    as (w1 & tr1 & -> & Hready1 & Hpid1 & Hw1 & Hr1 & Hread1); [by rewrite Hpid0|done|].
  cbv beta iota zeta. rewrite run_log.
  destruct Hready1 as (Hc1 & _ & _ & _ & Hdl1 & Hdt1 & _).
  destruct (quiet_log_to (mkLog lg INFO "Finished running as a writer" []) w1 Hc1)
    as [Hfs2 _].
  unfold outcome_of, trace_of, world_of. cbn [fst snd app]. rewrite app_nil_r, Hfs2.
  rewrite Hpid1, Hpid0 in Hdt1. rewrite Hpid0 in Hr1.
  repeat split; try done.
  intros Hn. apply Hread1. rewrite last_lookup, length_seqZ.
  apply lookup_seqZ. lia.
Qed.

Lemma writer_without_rounds_witness :
  (0 ≤ 0)%Z ∧
  outcome_of (run (_test_lock_writer "/tmp/content.json" "/tmp/content.lock" 0 "demo") world0)
    = Returned tt ∧
  trace_of (run (_test_lock_writer "/tmp/content.json" "/tmp/content.lock" 0 "demo") world0)
    = [].
Proof.
  split; [reflexivity|].
  destruct (writer_without_rounds "/tmp/content.json" "/tmp/content.lock" 0 "demo" world0)
    as (Ho & Ht & _); [reflexivity|].
  split; [exact Ho|exact Ht].
Defined.

Lemma writer_ready_world0 : writer_ready "/tmp/content.json" "/tmp/content.lock" world0.
Proof.
  split; [exact calm_world0|]. repeat split; try reflexivity.
  intros q i. cbn. by rewrite lookup_empty.
Qed.

Lemma writer_alone_writes_every_value_witness :
  let r := run (_test_lock_writer "/tmp/content.json" "/tmp/content.lock" 3 "demo") world0 in
  writer_ready "/tmp/content.json" "/tmp/content.lock" world0 ∧
  outcome_of r = Returned tt ∧
  writes_to "/tmp/content.json" (trace_of r) =
    [json_dumps_value 1; json_dumps_value 2; json_dumps_value 3] ∧
  fs_read_text "/tmp/content.json" (w_fs (world_of r)) = inr (json_dumps_value 3).
Proof.
  intros r. split; [exact writer_ready_world0|].
  destruct (writer_alone_writes_every_value "/tmp/content.json" "/tmp/content.lock" 3 "demo"
              world0 writer_ready_world0) as (Ho & Hw & _ & _ & _ & Hread).
  - vm_compute. discriminate.
  - vm_compute. discriminate.
  - vm_compute. reflexivity.
  - split; [exact Ho|]. split; [exact Hw|]. apply Hread. reflexivity.
Defined.
